(** * Karpenter AWS provider: instance launch, termination, drift and
      disruption rules, embedded in Rocq.

    The Go sources are embedded shallowly: a Go [error] value is a term of
    an inductive type, [nil] is [None], a Go map is a [gmap], a slice is a
    list, and the calls a provider issues against EC2 are threaded through
    an explicit world (call log and caches). *)

From Stdlib Require Import ZArith Lia.
From stdpp Require Import gmap strings list fin_maps sorting.

Open Scope string_scope.
Open Scope list_scope.
Open Scope Z_scope.

(** ** Go errors *)

Module GoError.

(** The error values the provider builds or inspects.  [wrapf] is
    [fmt.Errorf] with a [%w] verb (it has [Unwrap]); [errorf] is
    [fmt.Errorf] without one; [multi] is a [multierr] of two non-nil
    errors; [statusError] is a Kubernetes API status error with its
    reason. *)
Inductive error : Type :=
| awsError (code message : string) (requestID : option string)
| InstanceTerminatedError (inner : error)
| errorf (msg : string)
| wrapf (msg : string) (inner : error)
| multi (e1 e2 : error)
| statusError (reason : string).

(** [errors.As(err, &awsError)] with [awsError] of interface type
    [awserr.Error]: the first error of the chain that carries a code.
    [InstanceTerminatedError] embeds an [error] interface value, which
    promotes [Error()] only, so the chain stops there. *)
Fixpoint asAwsError (e : error) : option string :=
  match e with
  | awsError code _ _ => Some code
  | InstanceTerminatedError _ => None
  | errorf _ => None
  | wrapf _ inner => asAwsError inner
  | multi e1 e2 =>
      match asAwsError e1 with
      | Some c => Some c
      | None => asAwsError e2
      end
  | statusError _ => None
  end.

(** [errors.As(err, &reqFailure)] with [awserr.RequestFailure]. *)
Fixpoint asRequestFailure (e : error) : option string :=
  match e with
  | awsError _ _ rid => rid
  | InstanceTerminatedError _ => None
  | errorf _ => None
  | wrapf _ inner => asRequestFailure inner
  | multi e1 e2 =>
      match asRequestFailure e1 with
      | Some r => Some r
      | None => asRequestFailure e2
      end
  | statusError _ => None
  end.

(** [errors.As(err, &itErr)] with [itErr] an [InstanceTerminatedError]. *)
Fixpoint asInstanceTerminated (e : error) : bool :=
  match e with
  | awsError _ _ _ => false
  | InstanceTerminatedError _ => true
  | errorf _ => false
  | wrapf _ inner => asInstanceTerminated inner
  | multi e1 e2 => asInstanceTerminated e1 || asInstanceTerminated e2
  | statusError _ => false
  end.

(** [errors.As(err, &status)] with [status] an [APIStatus]: the reason of
    the first status error of the chain. *)
Fixpoint asStatusReason (e : error) : option string :=
  match e with
  | awsError _ _ _ => None
  | InstanceTerminatedError _ => None
  | errorf _ => None
  | wrapf _ inner => asStatusReason inner
  | multi e1 e2 =>
      match asStatusReason e1 with
      | Some r => Some r
      | None => asStatusReason e2
      end
  | statusError reason => Some reason
  end.

(** A Go [(value, error)] result. *)
Inductive res (A : Type) : Type :=
| ok (a : A)
| fail (e : error).
Arguments ok {A} a.
Arguments fail {A} e.

(** [multierr.Append]: nil operands vanish. *)
Definition multierr_Append (a b : option error) : option error :=
  match a, b with
  | None, _ => b
  | _, None => a
  | Some x, Some y => Some (multi x y)
  end.

End GoError.

(** ** pkg/cloudprovider/aws/errors.go *)

Module AwsErrors.
Import GoError.

Definition launchTemplateNotFoundCode : string :=
  "InvalidLaunchTemplateName.NotFoundException".

Definition notFoundErrorCodes : list string :=
  [ "InvalidInstanceID.NotFound"; launchTemplateNotFoundCode ].

Definition unfulfillableCapacityErrorCodes : list string :=
  [ "InsufficientInstanceCapacity";
    "MaxSpotInstanceCountExceeded";
    "VcpuLimitExceeded";
    "UnfulfillableCapacity";
    "Unsupported" ].

(** [lo.Contains] on strings. *)
Definition Contains (l : list string) (s : string) : bool :=
  bool_decide (s ∈ l).

Definition isInstanceTerminated (err : option error) : bool :=
  match err with
  | None => false
  | Some e => asInstanceTerminated e
  end.

Definition isNotFound (err : option error) : bool :=
  match err with
  | None => false
  | Some e =>
      match asAwsError e with
      | Some code => Contains notFoundErrorCodes code
      | None => false
      end
  end.

Definition isLaunchTemplateNotFound (err : option error) : bool :=
  match err with
  | None => false
  | Some e =>
      match asAwsError e with
      | Some code => bool_decide (code = launchTemplateNotFoundCode)
      | None => false
      end
  end.

End AwsErrors.

(** ** Types of the core [cloudprovider] and [scheduling] packages *)

Module Core.

(** Modelled from the spec: [scheduling.Requirement] is declared outside
    the sources.  A requirement is a label selector with an operator
    (section 3): a set of values, read as its complement for the
    operators [NotIn] and [Exists]. *)
Record Requirement : Type := {
  Complement : bool;
  Values : list string;
}.

Definition Has (r : Requirement) (value : string) : bool :=
  if Complement r
  then negb (bool_decide (value ∈ Values r))
  else bool_decide (value ∈ Values r).

Definition MaxInt64 : Z := 9223372036854775807.

Definition Len (r : Requirement) : Z :=
  if Complement r
  then MaxInt64 - Z.of_nat (length (Values r))
  else Z.of_nat (length (Values r)).

(** Modelled from the spec: [scheduling.Requirements] maps a label key to
    its requirement; [Get] of a key without one is the requirement that
    the label merely exists, which every value satisfies. *)
Definition Requirements : Type := gmap string Requirement.

Definition Get (r : Requirements) (key : string) : Requirement :=
  default {| Complement := true; Values := [] |} (r !! key).

(** [cloudprovider.Offering]; the [float64] price is kept as an integer
    number of price units, only its order is ever used. *)
Record Offering : Type := {
  CapacityType : string;
  Zone : string;
  Price : Z;
  Available : bool;
}.

(** The provider's [InstanceType] (it embeds [ec2.InstanceTypeInfo]):
    [InstanceTypeName] is the field [*it.InstanceType], which [Name()]
    returns. *)
Record InstanceType : Type := {
  InstanceTypeName : string;
  BareMetal : option bool;
  Resources : gmap string Z;
  ITRequirements : Requirements;
  Offerings : list Offering;
}.

Definition Name (it : InstanceType) : string := InstanceTypeName it.

(** Modelled from the spec: [cloudprovider.AvailableOfferings] is declared
    outside the sources; an offering carries an [available] flag (section
    6) and the available offerings are those with the flag set. *)
Definition AvailableOfferings (it : InstanceType) : list Offering :=
  List.filter Available (Offerings it).

Record NodeTemplate : Type := {
  TemplateRequirements : Requirements;
  TemplateLabels : gmap string string;
}.

Record NodeRequest : Type := {
  Template : NodeTemplate;
  InstanceTypeOptions : list InstanceType;
}.

(** [v1.Node], the fields the provider fills in. *)
Record Node : Type := {
  NodeName : string;
  NodeLabels : gmap string string;
  ProviderID : string;
}.

Definition LabelTopologyZone : string := "topology.kubernetes.io/zone".
Definition LabelCapacityType : string := "karpenter.sh/capacity-type".
Definition CapacityTypeSpot : string := "spot".
Definition CapacityTypeOnDemand : string := "on-demand".
Definition ResourceAWSNeuron : string := "aws.amazon.com/neuron".
Definition ResourceAMDGPU : string := "amd.com/gpu".
Definition ResourceNVIDIAGPU : string := "nvidia.com/gpu".

(** [functional.HasAnyPrefix]. *)
Definition HasAnyPrefix (s : string) (prefixes : list string) : bool :=
  existsb (fun p => String.prefix p s) prefixes.

(** [resources.IsZero] on the quantity stored under [key]; a missing key
    reads as the zero quantity. *)
Definition IsZero (res : gmap string Z) (key : string) : bool :=
  bool_decide (default 0 (res !! key) = 0).

End Core.

(** ** EC2 request and response shapes *)

Module EC2.

(** [*string] fields read through [aws.StringValue] are [option string];
    fields the sources dereference directly are plain values. *)
Record Instance : Type := {
  InstanceId : option string;
  PrivateDnsName : option string;
  Instance_InstanceType : option string;
  AvailabilityZone : option string;
  StateName : string;
  SpotInstanceRequestId : option string;
}.

Record Reservation : Type := { Instances : list Instance }.

Record Subnet : Type := {
  SubnetId : option string;
  SubnetAvailabilityZone : string;
  AvailableIpAddressCount : option Z;
}.

Record Override : Type := {
  OverrideInstanceType : option string;
  OverrideSubnetId : option string;
  OverrideAvailabilityZone : option string;
  Priority : option nat;
}.

Record LaunchTemplateConfig : Type := {
  Overrides : list Override;
  LaunchTemplateName : string;
  Version : string;
}.

Inductive FleetOptions : Type :=
| SpotOptions (allocationStrategy : string)
| OnDemandOptions (allocationStrategy : string).

Record CreateFleetInput : Type := {
  FleetType : string;
  LaunchTemplateConfigs : list LaunchTemplateConfig;
  DefaultTargetCapacityType : string;
  TotalTargetCapacity : Z;
  Tags : gmap string string;
  Options : FleetOptions;
}.

Record CreateFleetError : Type := {
  ErrorCode : string;
  ErrorMessage : option string;
  ErrInstanceType : option string;
  ErrAvailabilityZone : option string;
}.

Record CreateFleetInstance : Type := { InstanceIds : list string }.

Record CreateFleetOutput : Type := {
  Errors : list CreateFleetError;
  FleetInstances : list CreateFleetInstance;
}.

Record LaunchTemplate : Type := {
  LTName : string;
  LTId : option string;
}.

Definition InstanceStateNameTerminated : string := "terminated".

(** [aws.StringValue]. *)
Definition StringValue (s : option string) : string := default "" s.

End EC2.

(** ** The instance provider (InstanceProvider, LaunchTemplateProvider) *)

Module InstanceProvider.
Import GoError AwsErrors Core EC2.

(** [v1alpha1.AWS], the provider block of a provisioner. *)
Record AWS : Type := {
  ProviderLaunchTemplateName : option string;
  ProviderTags : gmap string string;
}.

(** What [amifamily.Resolver.Resolve] yields for one AMI: the name
    [launchTemplateName] derives from the resolved options and the
    instance types that share it. *)
Record ResolvedTemplate : Type := {
  ResolvedName : string;
  ResolvedInstanceTypes : list InstanceType;
}.

(** The EC2 calls the provider issues, in the order it issues them. *)
Inductive Call : Type :=
| CreateFleetCall (input : CreateFleetInput)
| DescribeInstancesCall (id : string)
| TerminateInstancesCall (id : string)
| DescribeLaunchTemplatesCall (name : string)
| CreateLaunchTemplateCall (name : string).

(** The collaborators of the provider.  Every answer may depend on the
    calls issued so far, so that two identical requests can be answered
    differently (EC2 is eventually consistent). *)
Record Env : Type := {
  ec2_CreateFleet : list Call -> CreateFleetInput -> res CreateFleetOutput;
  ec2_DescribeInstances : list Call -> string -> res (list Reservation);
  ec2_TerminateInstances : list Call -> string -> option error;
  ec2_DescribeLaunchTemplates :
    list Call -> string -> res (list LaunchTemplate);
  ec2_CreateLaunchTemplate : list Call -> string -> res LaunchTemplate;
  subnetProvider_Get : list Call -> AWS -> res (list Subnet);
  amiFamily_Resolve :
    list Call -> AWS -> NodeRequest -> gmap string string ->
    res (list ResolvedTemplate);
  ParseProviderID : Node -> res string;
  ResourceNameConvention : bool;
  ClusterName : string;
}.

(** The provider's own state: the launch template cache, the cache of
    unavailable offerings (instance type, zone, capacity type), and the
    log of EC2 calls. *)
Record World : Type := {
  log : list Call;
  ltCache : gmap string LaunchTemplate;
  unavailableOfferings : gset (string * string * string);
}.

Inductive Outcome (A : Type) : Type :=
| Done (a : A) (w : World)
| Panic (msg : string).
Arguments Done {A} a w.
Arguments Panic {A} msg.

Definition M (A : Type) : Type := World -> Outcome A.

Definition ret {A} (a : A) : M A := fun w => Done a w.

Definition bind {A B} (m : M A) (k : A -> M B) : M B :=
  fun w =>
    match m w with
    | Done a w' => k a w'
    | Panic msg => Panic msg
    end.

Definition panic {A} (msg : string) : M A := fun _ => Panic msg.

Definition getLog : M (list Call) := fun w => Done (log w) w.

Definition record (c : Call) : M unit := fun w =>
  Done tt {| log := (log w ++ [c])%list;
             ltCache := ltCache w;
             unavailableOfferings := unavailableOfferings w |}.

Definition getCache : M (gmap string LaunchTemplate) :=
  fun w => Done (ltCache w) w.

Definition setCache (c : gmap string LaunchTemplate) : M unit := fun w =>
  Done tt {| log := log w;
             ltCache := c;
             unavailableOfferings := unavailableOfferings w |}.

Definition setUnavailable (u : gset (string * string * string)) : M unit :=
  fun w =>
    Done tt {| log := log w; ltCache := ltCache w;
               unavailableOfferings := u |}.

Declare Scope go_scope.
Delimit Scope go_scope with go.
Notation "x <- m ;; k" := (bind m (fun x => k))
  (at level 100, m at next level, right associativity) : go_scope.
Notation "m ;;; k" := (bind m (fun _ => k))
  (at level 100, right associativity) : go_scope.
Open Scope go_scope.

(** An EC2 call: answer from the history, then log the call. *)
Definition call {A} (c : Call) (answer : list Call -> A) : M A :=
  l <- getLog ;;
  record c ;;;
  ret (answer l).

Definition MaxInstanceTypes : nat := 20.

Definition instanceTypeFlexibilityThreshold : nat := 5.

(** *** Pure helpers of instance.go *)

Definition getCapacityType (nodeRequest : NodeRequest) : string :=
  let reqs := TemplateRequirements (Template nodeRequest) in
  if Has (Get reqs LabelCapacityType) CapacityTypeSpot then
    if existsb
         (fun instanceType =>
            existsb
              (fun offering =>
                 Has (Get reqs LabelTopologyZone) (Zone offering)
                 && bool_decide (CapacityType offering = CapacityTypeSpot))
              (AvailableOfferings instanceType))
         (InstanceTypeOptions nodeRequest)
    then CapacityTypeSpot
    else CapacityTypeOnDemand
  else CapacityTypeOnDemand.

Definition isGeneric (it : InstanceType) : bool :=
  HasAnyPrefix (InstanceTypeName it) ["m"; "c"; "r"; "a"; "t"; "i"]
  && negb (default false (BareMetal it))
  && IsZero (Resources it) ResourceAWSNeuron
  && IsZero (Resources it) ResourceAMDGPU
  && IsZero (Resources it) ResourceNVIDIAGPU.

Definition prioritizeInstanceTypes (instanceTypes : list InstanceType)
  : list InstanceType :=
  let genericInstanceTypes := List.filter isGeneric instanceTypes in
  if bool_decide (length genericInstanceTypes ≠ 0%nat)
  then genericInstanceTypes
  else instanceTypes.

(** [getCapacityType(instance)], the package-level function. *)
Definition instanceCapacityType (instance : Instance) : string :=
  match SpotInstanceRequestId instance with
  | Some _ => CapacityTypeSpot
  | None => CapacityTypeOnDemand
  end.

Definition isUnfulfillableCapacity (err : CreateFleetError) : bool :=
  Contains unfulfillableCapacityErrorCodes (ErrorCode err).


(** *** Launch template provider (launchtemplate.go) *)

(** [Invalidate]: drop the name from the cache. *)
Definition Invalidate (ltName : string) : M unit :=
  c <- getCache ;;
  setCache (delete ltName c).

Definition createLaunchTemplate (env : Env) (name : string)
  : M (res LaunchTemplate) :=
  call (CreateLaunchTemplateCall name)
       (fun l => ec2_CreateLaunchTemplate env l name).

Definition ensureLaunchTemplate (env : Env) (name : string)
  : M (res LaunchTemplate) :=
  c <- getCache ;;
  match c !! name with
  | Some launchTemplate =>
      setCache (<[name := launchTemplate]> c) ;;;
      ret (ok launchTemplate)
  | None =>
      output <- call (DescribeLaunchTemplatesCall name)
                     (fun l => ec2_DescribeLaunchTemplates env l name) ;;
      found <-
        match output with
        | fail err =>
            if isNotFound (Some err) then
              created <- createLaunchTemplate env name ;;
              match created with
              | fail err' =>
                  ret (fail (wrapf "creating launch template" err'))
              | ok lt => ret (ok lt)
              end
            else ret (fail (wrapf "describing launch templates" err))
        | ok [lt] => ret (ok lt)
        | ok _ =>
            ret (fail (errorf "expected to find one launch template"))
        end ;;
      match found with
      | fail err => ret (fail err)
      | ok launchTemplate =>
          c' <- getCache ;;
          setCache (<[name := launchTemplate]> c') ;;;
          ret (ok launchTemplate)
      end
  end.

(** The loop of [LaunchTemplateProvider.Get] over the resolved
    templates. *)
Fixpoint ensureAll (env : Env) (resolved : list ResolvedTemplate)
  (launchTemplates : gmap string (list InstanceType))
  : M (res (gmap string (list InstanceType))) :=
  match resolved with
  | [] => ret (ok launchTemplates)
  | resolvedLaunchTemplate :: rest =>
      r <- ensureLaunchTemplate env (ResolvedName resolvedLaunchTemplate) ;;
      match r with
      | fail err => ret (fail err)
      | ok ec2LaunchTemplate =>
          ensureAll env rest
            (<[LTName ec2LaunchTemplate :=
                 ResolvedInstanceTypes resolvedLaunchTemplate]>
               launchTemplates)
      end
  end.

(** [LaunchTemplateProvider.Get].  The instance profile, the security
    groups, the server version and the AMI family resolution are answered
    together by [amiFamily_Resolve]. *)
Definition launchTemplateProvider_Get (env : Env) (provider : AWS)
  (nodeRequest : NodeRequest) (additionalLabels : gmap string string)
  : M (res (gmap string (list InstanceType))) :=
  match ProviderLaunchTemplateName provider with
  | Some name =>
      ret (ok {[ name := InstanceTypeOptions nodeRequest ]})
  | None =>
      l <- getLog ;;
      match amiFamily_Resolve env l provider nodeRequest additionalLabels with
      | fail err => ret (fail err)
      | ok resolvedLaunchTemplates =>
          ensureAll env resolvedLaunchTemplates ∅
      end
  end.

(** *** Fleet overrides (instance.go) *)

Definition Int64Value (z : option Z) : Z := default 0 z.

Definition subnet_le (a b : Subnet) : Prop :=
  Int64Value (AvailableIpAddressCount a)
  <= Int64Value (AvailableIpAddressCount b).

Global Instance subnet_le_dec : RelDecision subnet_le.
Proof. intros a b. unfold subnet_le. apply _. Defined.

Record offeringWithParentName : Type := {
  Offering_ : Offering;
  parentInstanceTypeName : string;
}.

Definition price_le (a b : offeringWithParentName) : Prop :=
  Price (Offering_ a) <= Price (Offering_ b).

Global Instance price_le_dec : RelDecision price_le.
Proof. intros a b. unfold price_le. apply _. Defined.

(** [sort.Slice] is not stable; a merge sort is one of the orders it may
    produce. *)
Definition getOverrides (instanceTypeOptions : list InstanceType)
  (subnets : list Subnet) (zones : Requirement) (capacityType : string)
  : list Override :=
  let zonalSubnets : gmap string Subnet :=
    fold_left (fun m subnet => <[SubnetAvailabilityZone subnet := subnet]> m)
              (merge_sort subnet_le subnets) ∅ in
  let unwrappedOfferings :=
    flat_map
      (fun it =>
         List.map (fun o => {| Offering_ := o;
                                parentInstanceTypeName := Name it |})
                  (AvailableOfferings it))
      instanceTypeOptions in
  omap id
    (imap
       (fun i offering =>
          if negb (bool_decide
                     (capacityType = CapacityType (Offering_ offering)))
          then None
          else if negb (Has zones (Zone (Offering_ offering))) then None
          else
            match zonalSubnets !! Zone (Offering_ offering) with
            | None => None
            | Some subnet =>
                Some {| OverrideInstanceType :=
                          Some (parentInstanceTypeName offering);
                        OverrideSubnetId := SubnetId subnet;
                        OverrideAvailabilityZone :=
                          Some (SubnetAvailabilityZone subnet);
                        Priority :=
                          if bool_decide (capacityType = CapacityTypeSpot)
                          then Some i else None |}
            end)
       (merge_sort price_le unwrappedOfferings)).

Definition getLaunchTemplateConfigs (env : Env) (provider : AWS)
  (nodeRequest : NodeRequest) (capacityType : string)
  : M (res (list LaunchTemplateConfig)) :=
  l <- getLog ;;
  match subnetProvider_Get env l provider with
  | fail err => ret (fail (wrapf "getting subnets" err))
  | ok subnets =>
      lts <- launchTemplateProvider_Get env provider nodeRequest
               ({[ LabelCapacityType := capacityType ]}
                  : gmap string string) ;;
      match lts with
      | fail err => ret (fail (wrapf "getting launch templates" err))
      | ok launchTemplates =>
          let launchTemplateConfigs :=
            List.filter
              (fun config => bool_decide (0 < length (Overrides config))%nat)
              (List.map
                 (fun '(launchTemplateName, instanceTypes) =>
                    {| Overrides :=
                         getOverrides instanceTypes subnets
                           (Get (TemplateRequirements (Template nodeRequest))
                                LabelTopologyZone)
                           capacityType;
                       LaunchTemplateName := launchTemplateName;
                       Version := "$Latest" |})
                 (map_to_list launchTemplates)) in
          if bool_decide (length launchTemplateConfigs = 0%nat)
          then ret (fail (errorf
            "no capacity offerings are currently available given the constraints"))
          else ret (ok launchTemplateConfigs)
      end
  end.

(** [checkODFallback]; its result is only logged as a warning. *)
Definition checkODFallback (nodeRequest : NodeRequest)
  (launchTemplateConfigs : list LaunchTemplateConfig) : option error :=
  if bool_decide (getCapacityType nodeRequest ≠ CapacityTypeOnDemand)
     || negb (Has (Get (TemplateRequirements (Template nodeRequest))
                       LabelCapacityType) CapacityTypeSpot)
  then None
  else
    let instanceTypes : gset string :=
      list_to_set
        (omap OverrideInstanceType
              (flat_map Overrides launchTemplateConfigs)) in
    if bool_decide (size instanceTypes < instanceTypeFlexibilityThreshold)%nat
    then Some (errorf
      "at least 5 instance types are recommended when flexible to spot but requesting on-demand")
    else None.

(** Modelled from the spec: [InstanceTypeProvider.CacheUnavailable] is
    declared outside the sources; the offering a fleet error points at
    (instance type and zone of its override, with the capacity type of
    the request) is cached as unavailable (section 7). *)
Definition CacheUnavailable (fleetErr : CreateFleetError)
  (capacityType : string) : M unit :=
  fun w =>
    setUnavailable
      ({[ (StringValue (ErrInstanceType fleetErr),
           StringValue (ErrAvailabilityZone fleetErr),
           capacityType) ]} ∪ unavailableOfferings w) w.

Fixpoint updateUnavailableOfferingsCache (errors : list CreateFleetError)
  (capacityType : string) : M unit :=
  match errors with
  | [] => ret tt
  | err :: rest =>
      (if isUnfulfillableCapacity err
       then CacheUnavailable err capacityType
       else ret tt) ;;;
      updateUnavailableOfferingsCache rest capacityType
  end.

(** [combineFleetErrors]: one plain error per distinct "code: message". *)
Definition combineFleetErrors (errors : list CreateFleetError) : error :=
  let unique :=
    remove_dups
      (List.map (fun err => ErrorCode err +:+ ": "
                            +:+ StringValue (ErrorMessage err)) errors) in
  let errs :=
    fold_left (fun acc errorCode =>
                 multierr_Append acc (Some (errorf errorCode)))
              unique None in
  match errs with
  | Some e => wrapf "with fleet error(s)" e
  | None => errorf "with fleet error(s), %!w(<nil>)"
  end.

Fixpoint invalidateAll (configs : list LaunchTemplateConfig) : M unit :=
  match configs with
  | [] => ret tt
  | lt :: rest => Invalidate (LaunchTemplateName lt) ;;; invalidateAll rest
  end.

(** The fleet request [launchInstance] builds. *)
Definition createFleetInput (env : Env) (provider : AWS)
  (capacityType : string) (launchTemplateConfigs : list LaunchTemplateConfig)
  : CreateFleetInput :=
  {| FleetType := "instant";
     LaunchTemplateConfigs := launchTemplateConfigs;
     DefaultTargetCapacityType := capacityType;
     TotalTargetCapacity := 1;
     Tags := <[ "kubernetes.io/cluster/" +:+ ClusterName env := "owned" ]>
               (ProviderTags provider);
     Options :=
       if bool_decide (capacityType = CapacityTypeSpot)
       then SpotOptions "capacity-optimized-prioritized"
       else OnDemandOptions "lowest-price" |}.

Definition launchInstance (env : Env) (provider : AWS)
  (nodeRequest : NodeRequest) : M (res string) :=
  let capacityType := getCapacityType nodeRequest in
  configs <- getLaunchTemplateConfigs env provider nodeRequest capacityType ;;
  match configs with
  | fail err => ret (fail (wrapf "getting launch template configs" err))
  | ok launchTemplateConfigs =>
      let _warning := checkODFallback nodeRequest launchTemplateConfigs in
      let input :=
        createFleetInput env provider capacityType launchTemplateConfigs in
      createFleetOutput <-
        call (CreateFleetCall input)
             (fun l => ec2_CreateFleet env l input) ;;
      match createFleetOutput with
      | fail err =>
          if isLaunchTemplateNotFound (Some err) then
            invalidateAll launchTemplateConfigs ;;;
            ret (fail (wrapf "creating fleet" err))
          else
            match asRequestFailure err with
            | Some requestID =>
                ret (fail (wrapf ("creating fleet (" +:+ requestID +:+ ")")
                                 err))
            | None => ret (fail (wrapf "creating fleet" err))
            end
      | ok output =>
          updateUnavailableOfferingsCache (Errors output) capacityType ;;;
          match FleetInstances output with
          | {| InstanceIds := id :: _ |} :: _ => ret (ok id)
          | _ => ret (fail (combineFleetErrors (Errors output)))
          end
      end
  end.

(** *** Describing, converting, creating and terminating *)

Definition getInstance (env : Env) (id : string) : M (res Instance) :=
  describeInstancesOutput <-
    call (DescribeInstancesCall id)
         (fun l => ec2_DescribeInstances env l id) ;;
  match describeInstancesOutput with
  | fail err =>
      if isNotFound (Some err) then ret (fail err)
      else ret (fail (wrapf "failed to describe ec2 instances" err))
  | ok [ {| Instances := [instance] |} ] =>
      if bool_decide (StateName instance = InstanceStateNameTerminated)
      then ret (fail (InstanceTerminatedError
                        (errorf "instance is in terminated state")))
      else if ResourceNameConvention env then ret (ok instance)
      else if bool_decide
                (String.length (StringValue (PrivateDnsName instance))
                 = 0%nat)
      then ret (fail (errorf "got instance but PrivateDnsName was not set"))
      else ret (ok instance)
  | ok _ =>
      ret (fail (InstanceTerminatedError
                   (errorf "expected instance but got 0")))
  end.

(** [strings.ToLower] on ASCII. *)
Fixpoint ToLower (s : string) : string :=
  match s with
  | EmptyString => EmptyString
  | String c rest =>
      let n := Ascii.nat_of_ascii c in
      String (if (65 <=? n)%nat && (n <=? 90)%nat
              then Ascii.ascii_of_nat (n + 32)
              else c)
             (ToLower rest)
  end.

(** The labels [instanceToNode] derives from the requirements of the
    instance type; [Len() == 1] guards the read of [Values()[0]]. *)
Definition requirementLabels (reqs : Requirements) : gmap string string :=
  omap (fun req =>
          if bool_decide (Len req = 1) then head (Values req) else None)
       reqs.

Definition instanceToNode (env : Env) (instance : Instance)
  (instanceTypes : list InstanceType) : M Node :=
  match List.find
          (fun instanceType =>
             bool_decide
               (Name instanceType
                = StringValue (Instance_InstanceType instance)))
          instanceTypes
  with
  | Some instanceType =>
      let nodeName :=
        if ResourceNameConvention env
        then StringValue (InstanceId instance)
        else ToLower (StringValue (PrivateDnsName instance)) in
      let labels :=
        <[ LabelCapacityType := instanceCapacityType instance ]>
          (<[ LabelTopologyZone := StringValue (AvailabilityZone instance) ]>
             (requirementLabels (ITRequirements instanceType))) in
      ret {| NodeName := nodeName;
             NodeLabels := labels;
             ProviderID :=
               "aws:///" +:+ StringValue (AvailabilityZone instance)
               +:+ "/" +:+ StringValue (InstanceId instance) |}
  | None =>
      panic ("unrecognized instance type "
             +:+ StringValue (Instance_InstanceType instance))
  end.

(** [retry.Do] with [retry.Attempts (S more)] and [LastErrorOnly]. *)
Fixpoint retry_Do {A} (more : nat) (f : M (res A)) : M (res A) :=
  r <- f ;;
  match r, more with
  | ok a, _ => ret (ok a)
  | fail err, O => ret (fail err)
  | fail _, S n => retry_Do n f
  end.

(** The options a launch is attempted with: prioritised, then cut to
    [MaxInstanceTypes]. *)
Definition launchOptions (nodeRequest : NodeRequest) : NodeRequest :=
  let prioritized :=
    prioritizeInstanceTypes (InstanceTypeOptions nodeRequest) in
  {| Template := Template nodeRequest;
     InstanceTypeOptions :=
       if bool_decide (MaxInstanceTypes < length prioritized)%nat
       then take MaxInstanceTypes prioritized
       else prioritized |}.

(** The second half of [InstanceProvider.Create], from the result of the
    launch on.  When every attempt of the retry fails, the closure has
    stored in [instance] the nil pointer that [getInstance] returns next
    to its error, and the error message reads [instance.InstanceId]
    through it. *)
Definition describeLaunched (env : Env) (nodeRequest : NodeRequest)
  (launched : res string) : M (res Node) :=
  match launched with
  | fail err => ret (fail err)
  | ok id =>
      got <- retry_Do 5 (getInstance env id) ;;
      match got with
      | fail _ =>
          panic "runtime error: invalid memory address or nil pointer dereference"
      | ok instance =>
          node <- instanceToNode env instance
                    (InstanceTypeOptions nodeRequest) ;;
          ret (ok node)
      end
  end.

(** [InstanceProvider.Create]. *)
Definition Create (env : Env) (provider : AWS) (nodeRequest : NodeRequest)
  : M (res Node) :=
  let nodeRequest := launchOptions nodeRequest in
  first <- launchInstance env provider nodeRequest ;;
  launched <-
    match first with
    | fail err =>
        if isLaunchTemplateNotFound (Some err)
        then launchInstance env provider nodeRequest
        else ret first
    | ok _ => ret first
    end ;;
  describeLaunched env nodeRequest launched.

Definition Terminate (env : Env) (node : Node) : M (option error) :=
  match ParseProviderID env node with
  | fail err => ret (Some (wrapf "getting instance ID for node" err))
  | ok id =>
      terminated <-
        call (TerminateInstancesCall id)
             (fun l => ec2_TerminateInstances env l id) ;;
      match terminated with
      | None => ret None
      | Some err =>
          if isNotFound (Some err) then ret None
          else
            got <- getInstance env id ;;
            let errMsg :=
              match got with ok _ => None | fail e => Some e end in
            if isInstanceTerminated errMsg || isNotFound errMsg
            then ret None
            else
              match multierr_Append (Some err) errMsg with
              | Some err' => ret (Some (wrapf "terminating instance" err'))
              | None => ret (Some (wrapf "terminating instance" err))
              end
      end
  end.

(** *** Vocabulary of the statements about the provider *)

Definition spotOffered (nodeRequest : NodeRequest) : Prop :=
  exists it o,
    it ∈ InstanceTypeOptions nodeRequest
    /\ o ∈ AvailableOfferings it
    /\ Has (Get (TemplateRequirements (Template nodeRequest))
                LabelTopologyZone) (Zone o) = true
    /\ CapacityType o = CapacityTypeSpot.

Definition fleetInputs (l : list Call) : list CreateFleetInput :=
  omap (fun c => match c with
                 | CreateFleetCall input => Some input
                 | _ => None
                 end) l.

(** A computation is quiet when it issues no fleet request. *)
Definition quiet {A} (m : M A) : Prop :=
  forall w a w', m w = Done a w' ->
                 fleetInputs (log w') = fleetInputs (log w).

Definition isFleetCall (c : Call) : bool :=
  match c with CreateFleetCall _ => true | _ => false end.

(** What a describe answers for an instance that no longer exists: a
    not-found error, no instance at all, or an instance in the terminated
    state. *)
Definition describeShowsGone (out : res (list Reservation)) : Prop :=
  match out with
  | fail err => isNotFound (Some err) = true
  | ok [ {| Instances := [instance] |} ] =>
      StateName instance = InstanceStateNameTerminated
  | ok _ => True
  end.

(** The instance is gone for a call issued after the history [l]: the
    terminate call reports a not-found code, or the describe that follows
    it shows the instance gone. *)
Definition goneAt (env : Env) (l : list Call) (id : string) : Prop :=
  isNotFound (ec2_TerminateInstances env l id) = true
  \/ describeShowsGone
       (ec2_DescribeInstances env (l ++ [TerminateInstancesCall id]) id).

(** The provider's own state, apart from the call log. *)
Definition sameCaches (w w' : World) : Prop :=
  ltCache w' = ltCache w /\ unavailableOfferings w' = unavailableOfferings w.

(** The offering a fleet error points at, for a capacity type. *)
Definition offeringOf (err : CreateFleetError) (capacityType : string)
  : string * string * string :=
  (StringValue (ErrInstanceType err), StringValue (ErrAvailabilityZone err),
   capacityType).

(** The instance a fleet response launched, if any. *)
Definition launchedId (output : CreateFleetOutput) : option string :=
  match FleetInstances output with
  | {| InstanceIds := id :: _ |} :: _ => Some id
  | _ => None
  end.

Definition logged (w : World) (c : Call) : World :=
  {| log := log w ++ [c]; ltCache := ltCache w;
     unavailableOfferings := unavailableOfferings w |}.

(** A fleet request built for [nodeRequest]: the launch template configs
    of some run of [getLaunchTemplateConfigs], wrapped by
    [createFleetInput]. *)
Definition builtFor (env : Env) (provider : AWS) (nodeRequest : NodeRequest)
  (input : CreateFleetInput) : Prop :=
  exists configs w0 w1,
    getLaunchTemplateConfigs env provider nodeRequest
      (getCapacityType nodeRequest) w0 = Done (ok configs) w1
    /\ input = createFleetInput env provider
                 (getCapacityType nodeRequest) configs.

(** The resolver hands back instance types of the request it was given. *)
Definition resolvesWithin (env : Env) : Prop :=
  forall l provider nodeRequest labels resolved,
    amiFamily_Resolve env l provider nodeRequest labels = ok resolved ->
    forall t it, t ∈ resolved -> it ∈ ResolvedInstanceTypes t ->
                 it ∈ InstanceTypeOptions nodeRequest.

(** A computation is total when it returns from every world. *)
Definition total {A} (m : M A) : Prop :=
  forall w, exists a w', m w = Done a w'.

Definition requested (instanceTypes : list InstanceType)
  (instance : Instance) : Prop :=
  exists it, it ∈ instanceTypes
             /\ Name it = StringValue (Instance_InstanceType instance).

End InstanceProvider.

(** ** Drift of a machine (pkg/cloudprovider/cloudprovider.go) *)

Module Drift.
Import GoError Core.

Record Machine : Type := {
  MachineLabels : gmap string string;
  StatusProviderID : string;
}.

Record Provisioner : Type := {
  ProviderRef : option string;
  ProviderRaw : option string;
}.

(** [v1alpha1.AWSNodeTemplate]: its name and the launch template name of
    its spec. *)
Record AWSNodeTemplate : Type := {
  TemplateName : string;
  SpecLaunchTemplateName : option string;
}.

Record AMI : Type := {
  AmiID : string;
  AmiRequirements : Requirements;
}.

(** [cloudprovider.InstanceType] of this version is a struct. *)
Record InstanceType : Type := {
  Name : string;
  Requirements_ : Requirements;
}.

(** [instance.Instance]. *)
Record Instance : Type := {
  ID : string;
  ImageID : string;
  Type_ : string;
}.

Definition ProvisionerNameLabelKey : string := "karpenter.sh/provisioner-name".
Definition LabelInstanceTypeStable : string := "node.kubernetes.io/instance-type".

(** The collaborators of [CloudProvider]: the API server, the instance
    type, AMI and instance providers, and the helpers of other packages.
    [MapInstanceTypes] maps each AMI id to the instance types compatible
    with it, among those given. *)
Record Env : Type := {
  kubeClient_GetProvisioner : string -> res Provisioner;
  kubeClient_GetNodeTemplate : string -> res AWSNodeTemplate;
  DeserializeProvider : option string -> res AWSNodeTemplate;
  instanceTypeProvider_List :
    Provisioner -> AWSNodeTemplate -> res (list InstanceType);
  amiProvider_Get : AWSNodeTemplate -> res (list AMI);
  MapInstanceTypes :
    list AMI -> list InstanceType -> gmap string (list InstanceType);
  ParseInstanceID : string -> res string;
  instanceProvider_Get : string -> res Instance;
}.

(** [apierrors.IsNotFound]. *)
Definition IsNotFound (e : error) : bool :=
  match asStatusReason e with
  | Some reason => bool_decide (reason = "NotFound")
  | None => false
  end.

(** [client.IgnoreNotFound]. *)
Definition IgnoreNotFound (e : error) : option error :=
  if IsNotFound e then None else Some e.

(** A read of a Go map of strings: the zero value for a missing key. *)
Definition label (m : gmap string string) (key : string) : string :=
  default "" (m !! key).

Definition resolveNodeTemplate (env : Env) (raw : option string)
  (objRef : option string) : res AWSNodeTemplate :=
  match objRef with
  | Some name =>
      match kubeClient_GetNodeTemplate env name with
      | fail err => fail (wrapf "getting providerRef" err)
      | ok nodeTemplate => ok nodeTemplate
      end
  | None =>
      match DeserializeProvider env raw with
      | fail err => fail err
      | ok nodeTemplate => ok nodeTemplate
      end
  end.

(** [GetInstanceTypes] for a provisioner that is not nil. *)
Definition GetInstanceTypes (env : Env) (provisioner : Provisioner)
  : res (list InstanceType) :=
  match resolveNodeTemplate env (ProviderRaw provisioner)
                            (ProviderRef provisioner) with
  | fail err => fail err
  | ok nodeTemplate =>
      match instanceTypeProvider_List env provisioner nodeTemplate with
      | fail err => fail err
      | ok instanceTypes => ok instanceTypes
      end
  end.

Definition isAMIDrifted (env : Env) (machine : Machine)
  (provisioner : Provisioner) (nodeTemplate : AWSNodeTemplate)
  : bool * option error :=
  match GetInstanceTypes env provisioner with
  | fail err => (false, Some (wrapf "getting instanceTypes" err))
  | ok instanceTypes =>
      match List.find
              (fun instType =>
                 bool_decide
                   (Name instType
                    = label (MachineLabels machine) LabelInstanceTypeStable))
              instanceTypes
      with
      | None => (false, Some (errorf "finding node instance type"))
      | Some nodeInstanceType =>
          match SpecLaunchTemplateName nodeTemplate with
          | Some _ => (false, None)
          | None =>
              match amiProvider_Get env nodeTemplate with
              | fail err => (false, Some (wrapf "getting amis" err))
              | ok amis =>
                  let mappedAMIs :=
                    MapInstanceTypes env amis [nodeInstanceType] in
                  if bool_decide (size mappedAMIs = 0%nat)
                  then (false, Some (errorf
                    "no instance types satisfy requirements of amis"))
                  else
                    match ParseInstanceID env (StatusProviderID machine) with
                    | fail err => (false, Some err)
                    | ok instanceID =>
                        match instanceProvider_Get env instanceID with
                        | fail err =>
                            (false, Some (wrapf "getting instance" err))
                        | ok instance =>
                            (negb (bool_decide
                                     (ImageID instance ∈ dom mappedAMIs)),
                             None)
                        end
                    end
              end
          end
      end
  end.

Definition IsMachineDrifted (env : Env) (machine : Machine)
  : bool * option error :=
  match kubeClient_GetProvisioner env
          (label (MachineLabels machine) ProvisionerNameLabelKey) with
  | fail err => (false, IgnoreNotFound (wrapf "getting provisioner" err))
  | ok provisioner =>
      match ProviderRef provisioner with
      | None => (false, None)
      | Some _ =>
          match resolveNodeTemplate env None (ProviderRef provisioner) with
          | fail err =>
              (false, IgnoreNotFound (wrapf "resolving node template" err))
          | ok nodeTemplate =>
              match isAMIDrifted env machine provisioner nodeTemplate with
              | (_, Some err) => (false, Some err)
              | (amiDrifted, None) => (amiDrifted, None)
              end
          end
      end
  end.

(** *** Vocabulary of the statements about drift *)

(** Everything [IsMachineDrifted] looks up on the way to comparing image
    ids, for a node template without a launch template name. *)
Record Lookups (env : Env) (machine : Machine) : Type := {
  provisioner : Provisioner;
  ref : string;
  nodeTemplate : AWSNodeTemplate;
  instanceTypes : list InstanceType;
  nodeInstanceType : InstanceType;
  amis : list AMI;
  instanceID : string;
  instance : Instance;
}.
Arguments provisioner {env machine} _.
Arguments ref {env machine} _.
Arguments nodeTemplate {env machine} _.
Arguments instanceTypes {env machine} _.
Arguments nodeInstanceType {env machine} _.
Arguments amis {env machine} _.
Arguments instanceID {env machine} _.
Arguments instance {env machine} _.


(** The AMIs of the selector that are compatible with the instance type of
    the machine. *)
Definition compatibleAMIs {env machine} (k : Lookups env machine)
  : gset string :=
  dom (MapInstanceTypes env (amis k) [nodeInstanceType k]).

End Drift.

(** ** Single-node consolidation (pkg/controllers, package consolidation) *)

Module Consolidation.
Import GoError Core.

Inductive consolidateResult : Type :=
| consolidateResultUnknown
| consolidateResultNotPossible
| consolidateResultDelete
| consolidateResultDeleteEmpty
| consolidateResultReplace
| consolidateResultNoAction.

Global Instance consolidateResult_eq_dec : EqDecision consolidateResult.
Proof. solve_decision. Defined.

Definition Pod : Type := string.

(** [candidateNode], the fields the decision reads. *)
Record candidateNode : Type := {
  Name : string;
  instanceType : InstanceType;
  capacityType : string;
  zone : string;
  pods : list Pod;
}.

(** A node the scheduling simulation proposes to launch. *)
Record NewNode : Type := {
  NewNodeOptions : list InstanceType;
  NewNodeRequirements : Requirements;
}.

Record InflightNode : Type := { InflightPods : list Pod }.

Record consolidationAction : Type := {
  oldNodes : list string;
  result : consolidateResult;
  replacementNode : option NewNode;
}.

(** What the decision asks of the cluster state, of the scheduler and of
    the helpers declared in other files. *)
Record Env : Type := {
  candidateNodeIsDeleting : string -> bool;
  GetNodePods : res (list Pod);
  NewScheduler : list Pod -> option error;
  Solve : list Pod -> res (list NewNode * list InflightNode);
  GetOffering : InstanceType -> string -> string -> option Offering;
  filterByPrice :
    list InstanceType -> Requirements -> Z -> list InstanceType;
}.

Definition noAction (r : consolidateResult) : consolidationAction :=
  {| oldNodes := []; result := r; replacementNode := None |}.

Definition nodeConsolidationOptionReplaceOrDelete (env : Env)
  (node : candidateNode) : consolidationAction * option error :=
  if candidateNodeIsDeleting env (Name node)
  then (noAction consolidateResultNoAction, None)
  else
    match GetNodePods env with
    | fail err =>
        (noAction consolidateResultUnknown,
         Some (wrapf "failed to get pods from deleting nodes" err))
    | ok deletingNodePods =>
        let allPods := (pods node ++ deletingNodePods)%list in
        match NewScheduler env allPods with
        | Some err =>
            (noAction consolidateResultUnknown,
             Some (wrapf "creating scheduler" err))
        | None =>
            match Solve env allPods with
            | fail err =>
                (noAction consolidateResultUnknown,
                 Some (wrapf "simulating scheduling" err))
            | ok (newNodes, inflightNodes) =>
                let schedulableCount :=
                  fold_left
                    (fun n inflight => (n + length (InflightPods inflight))%nat)
                    inflightNodes 0%nat in
                if bool_decide (length newNodes = 0%nat)
                   && bool_decide (length (pods node) = schedulableCount)
                then ({| oldNodes := [Name node];
                         result := consolidateResultDelete;
                         replacementNode := None |}, None)
                else
                  match newNodes with
                  | [newNode] =>
                      match GetOffering env (instanceType node)
                                        (capacityType node) (zone node) with
                      | None =>
                          (noAction consolidateResultUnknown,
                           Some (errorf
                             "getting offering price from candidate node"))
                      | Some offering =>
                          let options :=
                            filterByPrice env (NewNodeOptions newNode)
                              (NewNodeRequirements newNode) (Price offering) in
                          if bool_decide (length options = 0%nat)
                          then (noAction consolidateResultNotPossible, None)
                          else if bool_decide
                                    (capacityType node = CapacityTypeSpot)
                                  && Has (Get (NewNodeRequirements newNode)
                                              LabelCapacityType)
                                         CapacityTypeSpot
                          then (noAction consolidateResultNotPossible, None)
                          else
                            ({| oldNodes := [Name node];
                                result := consolidateResultReplace;
                                replacementNode :=
                                  Some {| NewNodeOptions := options;
                                          NewNodeRequirements :=
                                            NewNodeRequirements newNode |} |},
                             None)
                      end
                  | _ => (noAction consolidateResultNotPossible, None)
                  end
            end
        end
    end.

(** *** The spot-to-spot rule of the disruption documentation *)

Definition SPOT_FLEX_MIN : nat := 15.

Definition bothSpot (candidates : list candidateNode) (replacement : NewNode)
  : bool :=
  forallb (fun c => bool_decide (capacityType c = CapacityTypeSpot)) candidates
  && Has (Get (NewNodeRequirements replacement) LabelCapacityType)
         CapacityTypeSpot.

(** Modelled from the spec: the instance-type option set of a
    replacement, as offered to the cloud adapter.  An instance type is
    known by its name; an option listed more than once counts once. *)
Definition optionSet (replacement : NewNode) : gset string :=
  list_to_set (List.map InstanceTypeName (NewNodeOptions replacement)).

(** Modelled from the spec: the planner that applies the spot-to-spot rule
    is declared outside the sources.  After the price filter has left
    [NewNodeOptions replacement], a replacement of spot nodes by a spot
    node needs the feature gate (section 8, invariant 2); a single-node
    replacement needs an option set of cardinality at least
    [SPOT_FLEX_MIN], a multi-node one is exempt (section 4.5). *)
Definition replaceDecision (spotToSpotConsolidation : bool)
  (candidates : list candidateNode) (replacement : NewNode)
  : consolidationAction :=
  let replace :=
    {| oldNodes := List.map Name candidates;
       result := consolidateResultReplace;
       replacementNode := Some replacement |} in
  if bool_decide (size (optionSet replacement) = 0%nat)
  then noAction consolidateResultNotPossible
  else if bothSpot candidates replacement then
    if negb spotToSpotConsolidation
    then noAction consolidateResultNotPossible
    else if bool_decide (length candidates = 1%nat)
            && bool_decide (size (optionSet replacement) < SPOT_FLEX_MIN)%nat
    then noAction consolidateResultNotPossible
    else replace
  else replace.

End Consolidation.

(** ** Disruption budgets (disruption documentation, NodePool Disruption
       Budgets) *)

Module Budgets.

Inductive Reason : Type := Drifted | Underutilized | Empty.

Global Instance Reason_eq_dec : EqDecision Reason.
Proof. solve_decision. Defined.

(** [nodes]: a percentage such as "20%" or an absolute count. *)
Inductive Nodes : Type :=
| Percent (pct : Z)
| Count (n : Z).

(** A cron schedule, by the one operation the calculator uses: the first
    activation strictly after a time.  Times and durations are minutes,
    in UTC. *)
Record Schedule : Type := { nextAfter : Z -> Z }.

(** A budget; [window] holds the schedule with its duration, which exist
    together or not at all. *)
Record Budget : Type := {
  nodes : Nodes;
  reasons : list Reason;
  window : option (Schedule * Z);
}.

Record Pool : Type := { budgets : list Budget }.

(** The node counts of a pool. *)
Record Counts : Type := {
  total : Z;
  deleting : Z;
  notReady : Z;
}.

(** Rounding up of [a / b]. *)
Definition ceilDiv (a b : Z) : Z := - ((- a) / b).

(** Modelled from the spec: the budget calculator is declared outside the
    sources.  Section 4.3: a budget is active for a reason when it lists
    the reason or lists none, and when it has no schedule or the time lies
    in the window that the last activation opened. *)
Definition isActive (r : Reason) (t : Z) (b : Budget) : bool :=
  (bool_decide (r ∈ reasons b) || bool_decide (reasons b = []))
  && match window b with
     | None => true
     | Some (schedule, duration) =>
         let start := nextAfter schedule (t - duration) in
         bool_decide (start < t) && bool_decide (t < start + duration)
     end.

(** Modelled from the spec: section 4.3, the disruptions one budget
    allows. *)
Definition allowed (c : Counts) (b : Budget) : Z :=
  match nodes b with
  | Percent pct => ceilDiv (total c * pct) 100 - (deleting c + notReady c)
  | Count absolute => absolute - (deleting c + notReady c)
  end.

Definition defaultBudget : Budget :=
  {| nodes := Percent 10; reasons := []; window := None |}.

(** Modelled from the spec: a pool without budgets has the default one. *)
Definition effectiveBudgets (p : Pool) : list Budget :=
  match budgets p with
  | [] => [defaultBudget]
  | bs => bs
  end.

Definition activeBudgets (p : Pool) (r : Reason) (t : Z) : list Budget :=
  List.filter (isActive r t) (effectiveBudgets p).

(** The running minimum of the calculator; [None] while no budget has been
    seen. *)
Fixpoint minAllowed (c : Counts) (bs : list Budget) (acc : option Z)
  : option Z :=
  match bs with
  | [] => acc
  | b :: rest =>
      minAllowed c rest
        (Some (match acc with
               | None => allowed c b
               | Some m => Z.min m (allowed c b)
               end))
  end.

(** Modelled from the spec: section 4.3, the minimum over the active
    budgets, clamped at zero; no bound when no budget is active. *)
Definition allowedDisruptions (p : Pool) (c : Counts) (r : Reason) (t : Z)
  : option Z :=
  Z.max 0 <$> minAllowed c (activeBudgets p r t) None.

End Budgets.

(** ** Draining with a termination grace period (disruption documentation,
       TerminationGracePeriod) *)

Module Termination.

Inductive Phase : Type :=
| Idle | Tainted | Draining | CloudTerminating | Finalized.

Global Instance Phase_eq_dec : EqDecision Phase.
Proof. solve_decision. Defined.

(** A pod on the node.  [exempt] marks the pods the drain does not wait
    for: static pods, pods that tolerate the disrupted taint, succeeded and
    failed pods. *)
Record Pod : Type := {
  PodName : string;
  terminationGracePeriodSeconds : Z;
  blockedByPDB : bool;
  doNotDisrupt : bool;
  exempt : bool;
}.

(** A forced deletion: which pod, when, and with what grace period. *)
Record Deletion : Type := {
  deletedPod : Pod;
  deletedAt : Z;
  gracePeriod : Z;
}.

(** The state of a node under termination.  [remaining] are the pods
    still on the node that nobody has deleted; [terminating] are the
    force-deleted pods whose grace period still runs; [forced] is the
    record of all forced deletions. *)
Record NodeState : Type := {
  phase : Phase;
  drainStart : Z;
  terminationGracePeriod : option Z;
  remaining : list Pod;
  evictions : list string;
  terminating : list Deletion;
  forced : list Deletion;
  terminatedAt : option Z;
}.

(** Modelled from the spec: section 4.8, a pod is due for forced deletion
    from [drainStart + (terminationGracePeriod - its own grace period)]
    on, when the node has a termination grace period. *)
Definition due (st : NodeState) (now : Z) (p : Pod) : bool :=
  match terminationGracePeriod st with
  | Some g =>
      bool_decide
        (drainStart st + (g - terminationGracePeriodSeconds p) <= now)
  | None => false
  end.

(** Modelled from the spec: the grace period a forced deletion grants, the
    pod's own one unless it exceeds the node's. *)
Definition granted (g : Z) (p : Pod) : Z :=
  Z.min (terminationGracePeriodSeconds p) g.

Definition expired (st : NodeState) (now : Z) : bool :=
  match terminationGracePeriod st with
  | Some g => bool_decide (drainStart st + g <= now)
  | None => false
  end.

(** The pods the graceful path evicts through the eviction API. *)
Definition evictable (p : Pod) : bool :=
  negb (exempt p) && negb (blockedByPDB p) && negb (doNotDisrupt p).

(** A force-deleted pod is on the node until its grace period has run. *)
Definition pending (now : Z) (d : Deletion) : bool :=
  bool_decide (now < deletedAt d + gracePeriod d).

(** Modelled from the spec: the termination state machine is declared
    outside the sources.  Section 4.8, one pass of the controller at time
    [now]. *)
Definition reconcile (now : Z) (st : NodeState) : NodeState :=
  match phase st with
  | Idle =>
      {| phase := Tainted; drainStart := now;
         terminationGracePeriod := terminationGracePeriod st;
         remaining := remaining st; evictions := evictions st;
         terminating := terminating st;
         forced := forced st; terminatedAt := terminatedAt st |}
  | Tainted =>
      {| phase := Draining; drainStart := drainStart st;
         terminationGracePeriod := terminationGracePeriod st;
         remaining := remaining st;
         evictions :=
           evictions st
           ++ List.map PodName (List.filter evictable (remaining st));
         terminating := terminating st;
         forced := forced st; terminatedAt := terminatedAt st |}
  | Draining =>
      let g := default 0 (terminationGracePeriod st) in
      let deleted :=
        List.map (fun p => {| deletedPod := p; deletedAt := now;
                              gracePeriod := granted g p |})
                 (List.filter (due st now) (remaining st)) in
      let kept := List.filter (fun p => negb (due st now p)) (remaining st) in
      let running := List.filter (pending now) (terminating st ++ deleted) in
      let finished :=
        (forallb exempt kept && bool_decide (running = []))
        || expired st now in
      {| phase := if finished then CloudTerminating else Draining;
         drainStart := drainStart st;
         terminationGracePeriod := terminationGracePeriod st;
         remaining := kept;
         evictions := evictions st;
         terminating := running;
         forced := forced st ++ deleted;
         terminatedAt := if finished then Some now else terminatedAt st |}
  | CloudTerminating =>
      {| phase := Finalized; drainStart := drainStart st;
         terminationGracePeriod := terminationGracePeriod st;
         remaining := remaining st; evictions := evictions st;
         terminating := terminating st;
         forced := forced st; terminatedAt := terminatedAt st |}
  | Finalized => st
  end.

(** What happens to a draining node: the controller reconciles, or a pod
    leaves on its own (evicted, finished or moved). *)
Inductive Event : Type :=
| Reconcile (now : Z)
| PodGone (name : string).

Definition apply (st : NodeState) (ev : Event) : NodeState :=
  match ev with
  | Reconcile now => reconcile now st
  | PodGone name =>
      {| phase := phase st; drainStart := drainStart st;
         terminationGracePeriod := terminationGracePeriod st;
         remaining :=
           List.filter (fun p => negb (bool_decide (PodName p = name)))
                       (remaining st);
         evictions := evictions st;
         terminating :=
           List.filter
             (fun d => negb (bool_decide (PodName (deletedPod d) = name)))
             (terminating st);
         forced := forced st; terminatedAt := terminatedAt st |}
  end.

Definition run (st : NodeState) (evs : list Event) : NodeState :=
  fold_left apply evs st.


(** *** The instants of the drain *)

(** Modelled from the spec: section 4.8, the instant at which a pod still
    on a draining node is force-deleted. *)
Definition forceDeleteAt (st : NodeState) (g : Z) (p : Pod) : Z :=
  drainStart st + (g - terminationGracePeriodSeconds p).

(** Modelled from the spec: section 4.8 names instants at which the
    controller acts on a draining node with a termination grace period,
    the forced deletion of each pod still on the node and the end of the
    node's grace period.  [wake] is the earliest of them, the instant at
    which the controller asks to be reconciled next. *)
Definition wake (st : NodeState) : option Z :=
  match phase st, terminationGracePeriod st with
  | Draining, Some g =>
      Some (fold_right Z.min (drainStart st + g)
              (List.map (forceDeleteAt st g) (remaining st)))
  | _, _ => None
  end.

(** A run is timely when time does not go back and no instant the
    controller asked for passes without a reconcile: a reconcile comes
    no later than [wake], or at once when that instant is already past.
    [clock] is the time the run has reached. *)
Fixpoint timely (clock : Z) (st : NodeState) (evs : list Event) : bool :=
  match evs with
  | [] => true
  | Reconcile now :: rest =>
      bool_decide (clock <= now)
      && match wake st with
         | Some t => bool_decide (now <= Z.max clock t)
         | None => true
         end
      && timely now (reconcile now st) rest
  | PodGone name :: rest => timely clock (apply st (PodGone name)) rest
  end.


(** *** Vocabulary of the statements about draining *)







End Termination.

(** * Test doubles and worked inputs *)

Module InstanceProviderExamples.
Import GoError AwsErrors Core EC2 InstanceProvider.

(** The requirement allows spot, but the only spot offering is not
    available. *)
Definition spotlessRequest : NodeRequest :=
  {| Template :=
       {| TemplateRequirements :=
            {[ LabelCapacityType :=
                 {| Complement := false; Values := ["spot"; "on-demand"] |} ]};
          TemplateLabels := ∅ |};
     InstanceTypeOptions :=
       [ {| InstanceTypeName := "m5.large"; BareMetal := None;
            Resources := ∅; ITRequirements := ∅;
            Offerings :=
              [ {| CapacityType := "spot"; Zone := "us-west-2a";
                   Price := 31; Available := false |};
                {| CapacityType := "on-demand"; Zone := "us-west-2a";
                   Price := 96; Available := true |} ] |} ] |}.

(** An EC2 that accepts the first terminate call for an instance and
    afterwards no longer knows the instance. *)
Definition forgetfulEC2 : Env :=
  {| ec2_CreateFleet := fun _ _ => fail (errorf "unused");
     ec2_DescribeInstances := fun _ _ =>
       fail (awsError "InvalidInstanceID.NotFound" "gone" None);
     ec2_TerminateInstances := fun l id =>
       if existsb (fun c => match c with
                            | TerminateInstancesCall id' =>
                                bool_decide (id' = id)
                            | _ => false
                            end) l
       then Some (awsError "InvalidInstanceID.NotFound" "gone" None)
       else None;
     ec2_DescribeLaunchTemplates := fun _ _ => fail (errorf "unused");
     ec2_CreateLaunchTemplate := fun _ _ => fail (errorf "unused");
     subnetProvider_Get := fun _ _ => fail (errorf "unused");
     amiFamily_Resolve := fun _ _ _ _ => fail (errorf "unused");
     ParseProviderID := fun node => ok "i-0123456789";
     ResourceNameConvention := false;
     ClusterName := "test" |}.

Definition someNode : Node :=
  {| NodeName := "ip-10-0-0-1.internal"; NodeLabels := ∅;
     ProviderID := "aws:///us-west-2a/i-0123456789" |}.

Definition emptyWorld : World :=
  {| log := []; ltCache := ∅; unavailableOfferings := ∅ |}.

Definition terminatedOnce : World :=
  {| log := [TerminateInstancesCall "i-0123456789"];
     ltCache := ∅; unavailableOfferings := ∅ |}.

Definition instanceTypeNamed (name : string) : InstanceType :=
  {| InstanceTypeName := name;
     BareMetal := Some false;
     Resources := ∅;
     ITRequirements :=
       {[ "node.kubernetes.io/instance-type" :=
            {| Complement := false; Values := [name] |} ]};
     Offerings :=
       [ {| CapacityType := "spot"; Zone := "us-west-2a";
            Price := 31; Available := true |};
         {| CapacityType := "on-demand"; Zone := "us-west-2a";
            Price := 96; Available := true |} ] |}.

Definition requestFor (names : list string) : NodeRequest :=
  {| Template :=
       {| TemplateRequirements :=
            {[ LabelCapacityType :=
                 {| Complement := false; Values := ["spot"; "on-demand"] |} ]};
          TemplateLabels := ∅ |};
     InstanceTypeOptions := List.map instanceTypeNamed names |}.

Definition smallRequest : NodeRequest := requestFor ["m5.large"].

Definition wideRequest : NodeRequest :=
  requestFor
    [ "m5.large"; "m5.xlarge"; "m5.2xlarge"; "m5.4xlarge"; "m5.8xlarge";
      "c5.large"; "c5.xlarge"; "c5.2xlarge"; "c5.4xlarge"; "c5.9xlarge";
      "r5.large"; "r5.xlarge"; "r5.2xlarge"; "r5.4xlarge"; "r5.8xlarge";
      "m6i.large"; "m6i.xlarge"; "m6i.2xlarge"; "m6i.4xlarge"; "m6i.8xlarge";
      "c6i.large"; "c6i.xlarge" ].

Definition someProvider : AWS :=
  {| ProviderLaunchTemplateName := None; ProviderTags := ∅ |}.

Definition runningInstance (id : string) : Instance :=
  {| InstanceId := Some id;
     PrivateDnsName := Some "ip-10-0-0-1.us-west-2.compute.internal";
     Instance_InstanceType := Some "m5.large";
     AvailabilityZone := Some "us-west-2a";
     StateName := "running";
     SpotInstanceRequestId := Some "sir-1" |}.

(** A test double of the collaborators, for a given behaviour of
    [CreateFleet] and of [DescribeInstances]: launch templates are not
    found and get created, one subnet, one resolved template for all
    instance types of the request. *)
Definition testEnv
  (fleet : list Call -> CreateFleetInput -> res CreateFleetOutput)
  (describe : list Call -> string -> res (list Reservation)) : Env :=
  {| ec2_CreateFleet := fleet;
     ec2_DescribeInstances := describe;
     ec2_TerminateInstances := fun _ _ => None;
     ec2_DescribeLaunchTemplates := fun _ _ =>
       fail (awsError launchTemplateNotFoundCode "no such template" None);
     ec2_CreateLaunchTemplate := fun _ name =>
       ok {| LTName := name; LTId := Some "lt-1" |};
     subnetProvider_Get := fun _ _ =>
       ok [ {| SubnetId := Some "subnet-1";
               SubnetAvailabilityZone := "us-west-2a";
               AvailableIpAddressCount := Some 100 |} ];
     amiFamily_Resolve := fun _ _ nodeRequest _ =>
       ok [ {| ResolvedName := "Karpenter-test-1";
               ResolvedInstanceTypes := InstanceTypeOptions nodeRequest |} ];
     ParseProviderID := fun _ => ok "i-1";
     ResourceNameConvention := false;
     ClusterName := "test" |}.

Definition launchesOne : list Call -> CreateFleetInput -> res CreateFleetOutput :=
  fun _ _ => ok {| Errors := [];
                   FleetInstances := [ {| InstanceIds := ["i-1"] |} ] |}.

Definition describesRunning : list Call -> string -> res (list Reservation) :=
  fun _ id => ok [ {| Instances := [runningInstance id] |} ].

Definition neverDescribes : list Call -> string -> res (list Reservation) :=
  fun _ _ => fail (awsError "InvalidInstanceID.NotFound" "not yet" None).

(** The first fleet request meets a launch template that is gone. *)
Definition staleFirst : list Call -> CreateFleetInput -> res CreateFleetOutput :=
  fun l input =>
    if bool_decide (fleetInputs l = [])
    then fail (awsError launchTemplateNotFoundCode "gone" (Some "req-1"))
    else launchesOne l input.

Definition noCapacity : list Call -> CreateFleetInput -> res CreateFleetOutput :=
  fun _ _ =>
    ok {| Errors :=
            [ {| ErrorCode := "InsufficientInstanceCapacity";
                 ErrorMessage := Some "no capacity";
                 ErrInstanceType := Some "m5.large";
                 ErrAvailabilityZone := Some "us-west-2a" |};
              {| ErrorCode := "InvalidParameterValue";
                 ErrorMessage := Some "bad value";
                 ErrInstanceType := Some "c5.large";
                 ErrAvailabilityZone := Some "us-west-2b" |} ];
          FleetInstances := [] |}.

(** A world whose cache still holds the launch template. *)
Definition cachedWorld : World :=
  {| log := [];
     ltCache := {[ "Karpenter-test-1" :=
                     {| LTName := "Karpenter-test-1"; LTId := Some "lt-0" |} ]};
     unavailableOfferings := ∅ |}.

Definition worldOf {A} (o : Outcome A) : World :=
  match o with
  | Done _ w => w
  | Panic _ => emptyWorld
  end.

Definition configsOf (o : Outcome (res (list LaunchTemplateConfig)))
  : list LaunchTemplateConfig :=
  match o with
  | Done (ok configs) _ => configs
  | _ => []
  end.

Definition smallConfigs : list LaunchTemplateConfig :=
  Eval vm_compute in
    configsOf (getLaunchTemplateConfigs (testEnv staleFirst describesRunning)
                 someProvider (launchOptions smallRequest)
                 (getCapacityType (launchOptions smallRequest)) cachedWorld).

Definition staleError : error :=
  awsError launchTemplateNotFoundCode "gone" (Some "req-1").

Definition staleEC2 : Env := testEnv staleFirst describesRunning.

Definition exhaustedEC2 : Env := testEnv noCapacity describesRunning.

Definition noCapacityOutput : CreateFleetOutput :=
  Eval vm_compute in
    match noCapacity [] (createFleetInput exhaustedEC2 someProvider "" []) with
    | ok output => output
    | fail _ => {| Errors := []; FleetInstances := [] |}
    end.

Definition exhaustedWorld1 : World :=
  Eval vm_compute in
    worldOf (getLaunchTemplateConfigs exhaustedEC2 someProvider
               (launchOptions smallRequest)
               (getCapacityType (launchOptions smallRequest)) emptyWorld).

Definition exhaustedConfigs : list LaunchTemplateConfig :=
  Eval vm_compute in
    configsOf (getLaunchTemplateConfigs exhaustedEC2 someProvider
                 (launchOptions smallRequest)
                 (getCapacityType (launchOptions smallRequest)) emptyWorld).

Definition healthyEC2 : Env := testEnv launchesOne describesRunning.

Definition wideOutcome : Outcome (res Node) :=
  Eval vm_compute in Create healthyEC2 someProvider wideRequest emptyWorld.

Definition wideNode : res Node :=
  match wideOutcome with
  | Done r _ => r
  | Panic msg => fail (errorf msg)
  end.

Definition lostEC2 : Env := testEnv launchesOne neverDescribes.

Definition launchedWorld : World :=
  Eval vm_compute in
    worldOf (launchInstance lostEC2 someProvider (launchOptions smallRequest)
               emptyWorld).

End InstanceProviderExamples.

Module DriftExamples.
Import GoError Core Drift.

Definition archKey : string := "kubernetes.io/arch".

Definition archIn (arch : string) : Requirements :=
  {[ archKey := {| Complement := false; Values := [arch] |} ]}.

Definition m5large : InstanceType :=
  {| Name := "m5.large"; Requirements_ := archIn "amd64" |}.

Definition armImage : AMI :=
  {| AmiID := "ami-arm"; AmiRequirements := archIn "arm64" |}.

Definition newImage : AMI :=
  {| AmiID := "ami-new"; AmiRequirements := archIn "amd64" |}.

(** An AMI suits an instance type when each of its requirements shares a
    value with the requirement of the instance type under the same key. *)
Definition suits (ami : AMI) (it : InstanceType) : bool :=
  forallb
    (fun '(key, req) => existsb (Has (Get (Requirements_ it) key)) (Values req))
    (map_to_list (AmiRequirements ami)).

Definition mapCompatible (amis : list AMI) (its : list InstanceType)
  : gmap string (list InstanceType) :=
  list_to_map
    (omap (fun ami =>
             match List.filter (suits ami) its with
             | [] => None
             | c => Some (AmiID ami, c)
             end) amis).

(** A cluster with one provisioner, "default", that references a node
    template; the machine runs the image "ami-old". *)
Definition driftEnv (amis : list AMI) (launchTemplate : option string) : Env :=
  {| kubeClient_GetProvisioner := fun name =>
       if bool_decide (name = "default")
       then ok {| ProviderRef := Some "default"; ProviderRaw := None |}
       else fail (statusError "NotFound");
     kubeClient_GetNodeTemplate := fun name =>
       ok {| TemplateName := name;
             SpecLaunchTemplateName := launchTemplate |};
     DeserializeProvider := fun _ => fail (errorf "no provider");
     instanceTypeProvider_List := fun _ _ => ok [m5large];
     amiProvider_Get := fun _ => ok amis;
     MapInstanceTypes := mapCompatible;
     ParseInstanceID := fun _ => ok "i-1";
     instanceProvider_Get := fun id =>
       ok {| ID := id; ImageID := "ami-old"; Type_ := "m5.large" |} |}.

Definition someMachine : Machine :=
  {| MachineLabels :=
       {[ ProvisionerNameLabelKey := "default";
          LabelInstanceTypeStable := "m5.large" ]};
     StatusProviderID := "aws:///us-west-2a/i-1" |}.

Definition lookupsOf (amis : list AMI) (launchTemplate : option string)
  : Lookups (driftEnv amis launchTemplate) someMachine :=
  {| provisioner := {| ProviderRef := Some "default"; ProviderRaw := None |};
     ref := "default";
     nodeTemplate := {| TemplateName := "default";
                        SpecLaunchTemplateName := launchTemplate |};
     instanceTypes := [m5large];
     nodeInstanceType := m5large;
     amis := amis;
     instanceID := "i-1";
     instance := {| ID := "i-1"; ImageID := "ami-old";
                    Type_ := "m5.large" |} |}.

End DriftExamples.

Module ConsolidationExamples.
Import Core Consolidation.

Definition spotType (name : string) : InstanceType :=
  {| InstanceTypeName := name; BareMetal := None; Resources := ∅;
     ITRequirements := ∅;
     Offerings := [ {| CapacityType := "spot"; Zone := "us-west-2a";
                       Price := 10; Available := true |} ] |}.

Definition spotCandidate (name : string) : candidateNode :=
  {| Consolidation.Name := name; instanceType := spotType "m5.4xlarge";
     capacityType := "spot"; zone := "us-west-2a"; pods := ["pod"] |}.

Definition cheaperSpotTypes : list string :=
  [ "m5.large"; "m5.xlarge"; "m5.2xlarge"; "m5a.large"; "m5a.xlarge";
    "m5a.2xlarge"; "c5.large"; "c5.xlarge"; "c5.2xlarge"; "c5a.large";
    "c5a.xlarge"; "c5a.2xlarge"; "r5.large"; "r5.xlarge"; "r5.2xlarge";
    "r5a.large" ].

Definition spotOnly : Requirements :=
  {[ LabelCapacityType := {| Complement := false; Values := ["spot"] |} ]}.

(** A spot replacement with the first [n] of the cheaper instance types,
    all different. *)
Definition spotReplacement (n : nat) : NewNode :=
  {| NewNodeOptions := List.map spotType (take n cheaperSpotTypes);
     NewNodeRequirements := spotOnly |}.

(** A spot replacement that lists one instance type [n] times. *)
Definition repeatedReplacement (n : nat) : NewNode :=
  {| NewNodeOptions := replicate n (spotType "m5.large");
     NewNodeRequirements := spotOnly |}.

End ConsolidationExamples.

Module BudgetExamples.
Import Budgets.

(** The "@daily" schedule: midnight, every 1440 minutes. *)
Definition daily : Schedule :=
  {| nextAfter := fun t => (t / 1440 + 1) * 1440 |}.

(** The pool of the documentation: 20% for empty and drifted nodes, at
    most 5 in any case, none for underutilized nodes in the first ten
    minutes of the day. *)
Definition documentedPool : Pool :=
  {| budgets :=
       [ {| nodes := Percent 20; reasons := [Empty; Drifted];
            window := None |};
         {| nodes := Count 5; reasons := []; window := None |};
         {| nodes := Count 0; reasons := [Underutilized];
            window := Some (daily, 10) |} ] |}.

Definition nineteenNodes : Counts :=
  {| total := 19; deleting := 0; notReady := 0 |}.

End BudgetExamples.

Module TerminationExamples.
Import Termination.

(** Scenario S5: a pod with the do-not-disrupt annotation and a grace
    period of 300 s, on a node with a termination grace period of 1 h that
    starts to drain at time 1000. *)
Definition stubbornPod : Pod :=
  {| PodName := "P"; terminationGracePeriodSeconds := 300;
     blockedByPDB := true; doNotDisrupt := true; exempt := false |}.

Definition drainingNode : NodeState :=
  {| phase := Draining; drainStart := 1000;
     terminationGracePeriod := Some 3600;
     remaining := [stubbornPod]; evictions := []; terminating := [];
     forced := []; terminatedAt := None |}.

End TerminationExamples.

(** ** Further vocabulary for the instance provider *)

Module InstanceProviderCalls.
Import GoError AwsErrors Core EC2 InstanceProvider.

Definition isDescribeInstances (c : Call) : bool :=
  match c with DescribeInstancesCall _ => true | _ => false end.

Definition isTerminateInstances (c : Call) : bool :=
  match c with TerminateInstancesCall _ => true | _ => false end.

(** The calls that reach EC2 for a launch template. *)
Definition isLaunchTemplateCall (c : Call) : bool :=
  match c with
  | DescribeLaunchTemplatesCall _ | CreateLaunchTemplateCall _ => true
  | _ => false
  end.

(** The available IP addresses of a subnet, as [getOverrides] compares
    them. *)
Definition availableIPs (subnet : Subnet) : Z :=
  Int64Value (AvailableIpAddressCount subnet).

(** The offerings [getOverrides] sorts by price: every available offering
    of every option, with the name of its instance type. *)
Definition unwrap (instanceTypeOptions : list InstanceType)
  : list offeringWithParentName :=
  flat_map
    (fun it =>
       List.map (fun o => {| Offering_ := o;
                              parentInstanceTypeName := Name it |})
                (AvailableOfferings it))
    instanceTypeOptions.

(** A computation avoids the calls [p] selects when it adds none of them
    to the log. *)
Definition avoids {A} (p : Call -> bool) (m : M A) : Prop :=
  forall w a w', m w = Done a w' ->
                 List.filter p (log w') = List.filter p (log w).

End InstanceProviderCalls.

(** ** The cloud provider of package aws
       (pkg/cloudprovider/aws/launchtemplate.go, second part) *)

Module AwsCloudProvider.
Import GoError AwsErrors Core.

(** [v1.NodeSelectorRequirement]; the operator is a string in Go. *)
Record NodeSelectorRequirement : Type := {
  Key : string;
  Operator : string;
  ReqValues : list string;
}.

Definition NodeSelectorOpIn : string := "In".
Definition NodeSelectorOpNotIn : string := "NotIn".
Definition NodeSelectorOpExists : string := "Exists".
Definition NodeSelectorOpDoesNotExist : string := "DoesNotExist".
Definition NodeSelectorOpGt : string := "Gt".
Definition NodeSelectorOpLt : string := "Lt".

Definition LabelInstanceTypeStable : string :=
  "node.kubernetes.io/instance-type".
Definition LabelInstanceFamily : string :=
  "karpenter.k8s.aws/instance-family".
Definition LabelInstanceCategory : string :=
  "karpenter.k8s.aws/instance-category".
Definition LabelInstanceGeneration : string :=
  "karpenter.k8s.aws/instance-generation".
Definition LabelArchStable : string := "kubernetes.io/arch".
Definition ArchitectureAmd64 : string := "amd64".
Definition DefaultTargetCapacityTypeOnDemand : string := "on-demand".

(** The second loop of [useOpinionatedInstanceFilter]: the first
    requirement with one of the operators In, Exists or DoesNotExist
    returns false. *)
Fixpoint keepsFilter (instanceRequirements : list NodeSelectorRequirement)
  : bool :=
  match instanceRequirements with
  | [] => true
  | req :: rest =>
      if bool_decide (Operator req = NodeSelectorOpIn)
         || bool_decide (Operator req = NodeSelectorOpExists)
         || bool_decide (Operator req = NodeSelectorOpDoesNotExist)
      then false
      else keepsFilter rest
  end.

Definition requirementKeys : list string :=
  [ LabelInstanceTypeStable; LabelInstanceFamily; LabelInstanceCategory;
    LabelInstanceGeneration ].

Definition useOpinionatedInstanceFilter
  (provisionerRequirements : list NodeSelectorRequirement) : bool :=
  let instanceRequirements :=
    List.filter (fun r => Contains requirementKeys (Key r))
                provisionerRequirements in
  if bool_decide (length instanceRequirements = 0%nat)
  then true
  else keepsFilter instanceRequirements.

(** The provider's own instance type, of which the filter reads the name
    and the current-generation flag. *)
Record InstanceTypeInfo : Type := {
  InstanceType_ : string;
  CurrentGeneration : option bool;
}.

(** A [cloudprovider.InstanceType] value: one of the provider's own, or
    one of another implementation of the interface (the type assertion
    fails on it). *)
Inductive AnyInstanceType : Type :=
| Provided (cit : InstanceTypeInfo)
| Foreign (name : string).

(** The predicate [GetInstanceTypes] hands to [lo.Filter]. *)
Definition suitsGeneralWorkloads (it : AnyInstanceType) : bool :=
  match it with
  | Foreign _ => true
  | Provided cit =>
      if HasAnyPrefix (InstanceType_ cit) ["c3"; "m3"; "r3"] then true
      else if match CurrentGeneration cit with
              | Some current => negb current
              | None => false
              end
      then false
      else if HasAnyPrefix (InstanceType_ cit) ["t2"; "u-"] then false
      else true
  end.

Record ProvisionerSpec : Type := {
  Provider : option string;
  ProviderRef : option string;
  SpecLabels : gmap string string;
  Requirements : list NodeSelectorRequirement;
  KubeletConfiguration : option string;
}.

(** [v1alpha1.AWS], opaque here. *)
Definition AWS : Type := string.

Record Env : Type := {
  kubeClient_Get : string -> res AWS;
  Deserialize : option string -> res AWS;
  instanceTypeProvider_Get :
    AWS -> option string -> res (list AnyInstanceType);
}.

Definition getProvider (env : Env) (provider : option string)
  (providerRef : option string) : res AWS :=
  match providerRef with
  | Some name =>
      match kubeClient_Get env name with
      | fail err => fail (wrapf "getting providerRef" err)
      | ok ant => ok ant
      end
  | None =>
      match Deserialize env provider with
      | fail err => fail err
      | ok aws => ok aws
      end
  end.

Definition GetInstanceTypes (env : Env) (provisioner : ProvisionerSpec)
  : res (list AnyInstanceType) :=
  match getProvider env (Provider provisioner) (ProviderRef provisioner) with
  | fail err => fail err
  | ok aws =>
      match instanceTypeProvider_Get env aws
              (KubeletConfiguration provisioner) with
      | fail err => fail err
      | ok instanceTypes =>
          if useOpinionatedInstanceFilter (Requirements provisioner)
          then ok (List.filter suitsGeneralWorkloads instanceTypes)
          else ok instanceTypes
      end
  end.

(** One iteration of the loop of [defaultLabels], for a default
    [(key, value)]. *)
Definition defaultLabel (provisioner : ProvisionerSpec)
  (default : string * string) : ProvisionerSpec :=
  let '(key, value) := default in
  let hasLabel :=
    bool_decide (is_Some (SpecLabels provisioner !! key))
    || existsb (fun requirement => bool_decide (Key requirement = key))
               (Requirements provisioner) in
  if hasLabel then provisioner
  else {| Provider := Provider provisioner;
          ProviderRef := ProviderRef provisioner;
          SpecLabels := SpecLabels provisioner;
          Requirements :=
            Requirements provisioner
            ++ [ {| Key := key; Operator := NodeSelectorOpIn;
                    ReqValues := [value] |} ];
          KubeletConfiguration := KubeletConfiguration provisioner |}.

(** The defaults of [defaultLabels]; Go ranges over the map literal in
    an order of its choosing. *)
Definition labelDefaults : list (string * string) :=
  [ (LabelCapacityType, DefaultTargetCapacityTypeOnDemand);
    (LabelArchStable, ArchitectureAmd64) ].

(** [defaultLabels], for the order in which the two defaults are
    visited. *)
Definition defaultLabels (order : list (string * string))
  (provisioner : ProvisionerSpec) : ProvisionerSpec :=
  fold_left defaultLabel order provisioner.

(** *** Vocabulary *)

(** The provisioner restricts instance types itself: a requirement on
    the instance type, family, category or generation with an operator
    that names what it wants. *)
Definition choosesInstanceTypes (reqs : list NodeSelectorRequirement)
  : Prop :=
  exists r, r ∈ reqs
            /\ Key r ∈ requirementKeys
            /\ Operator r ∈ [ NodeSelectorOpIn; NodeSelectorOpExists;
                              NodeSelectorOpDoesNotExist ].

(** A key is settled when the provisioner has it as a label or mentions
    it in a requirement. *)
Definition settled (provisioner : ProvisionerSpec) (key : string) : Prop :=
  is_Some (SpecLabels provisioner !! key)
  \/ exists r, r ∈ Requirements provisioner /\ Key r = key.

End AwsCloudProvider.

(** ** Machines of the cloud provider (pkg/cloudprovider/cloudprovider.go) *)

Module Machines.
Import GoError Core.

(** [instance.Instance]. *)
Record Instance : Type := {
  ID : string;
  ImageID : string;
  Type_ : string;
  Zone : string;
  CapacityType : string;
  Tags : gmap string string;
  LaunchTime : Z;
}.

(** [cloudprovider.InstanceType] of this version: a struct.  Quantities
    are whole numbers of the unit of their resource; [Allocatable_] is
    what the method [Allocatable()] returns. *)
Record InstanceType : Type := {
  Name : string;
  Requirements_ : Requirements;
  Capacity : gmap string Z;
  Allocatable_ : gmap string Z;
}.

(** [v1alpha5.Machine], the fields the cloud provider reads or writes. *)
Record Machine : Type := {
  MachineName : string;
  Annotations : gmap string string;
  MachineLabels : gmap string string;
  CreationTimestamp : Z;
  MachineTemplateRef : option string;
  Kubelet : option string;
  StatusProviderID : string;
  StatusCapacity : gmap string Z;
  StatusAllocatable : gmap string Z;
}.

Record Provisioner : Type := {
  ProviderRaw : option string;
  ProviderRef : option string;
  KubeletConfiguration : option string;
}.

Definition ProvisionerNameLabelKey : string := "karpenter.sh/provisioner-name".
Definition ManagedByLabelKey : string := "karpenter.sh/managed-by".
Definition ProviderCompatabilityAnnotationKey : string :=
  "compatibility.karpenter.sh/provider".

(** The collaborators of [CloudProvider].  [eligible] stands for the
    three tests of [resolveInstanceTypes], all declared in other packages:
    the requirements of the machine are compatible with those of the
    instance type, an offering allowed by them is available, and the
    requested resources fit in what the type can allocate. *)
Record Env : Type := {
  kubeClient_GetProvisioner : string -> res Provisioner;
  kubeClient_GetNodeTemplate : string -> res Drift.AWSNodeTemplate;
  DeserializeProvider : option string -> res Drift.AWSNodeTemplate;
  instanceTypeProvider_List :
    option string -> Drift.AWSNodeTemplate -> res (list InstanceType);
  eligible : Machine -> InstanceType -> bool;
  ParseInstanceID : string -> res string;
  instanceProvider_Create :
    Drift.AWSNodeTemplate -> Machine -> list InstanceType -> res Instance;
  instanceProvider_Get : string -> res Instance;
  instanceProvider_List : res (list Instance);
}.

(** [functional.FilterMap] with the test [!resources.IsZero(v)]. *)
Definition nonZero (m : gmap string Z) : gmap string Z :=
  filter (fun kv => kv.2 <> 0) m.

(** [lo.Find] of the instance type named like the instance. *)
Definition findType (instanceTypes : list InstanceType) (name : string)
  : option InstanceType :=
  List.find (fun i => bool_decide (Name i = name)) instanceTypes.

(** The tag copied to the label of the same key, when the instance has
    it. *)
Definition copyTag (i : Instance) (key : string)
  (labels : gmap string string) : gmap string string :=
  match Tags i !! key with
  | Some v => <[ key := v ]> labels
  | None => labels
  end.

Definition instanceToMachine (i : Instance)
  (instanceType : option InstanceType) : Machine :=
  let labels : gmap string string :=
    match instanceType with
    | Some it => InstanceProvider.requirementLabels (Requirements_ it)
    | None => ∅
    end in
  let labels := <[ LabelTopologyZone := Zone i ]> labels in
  let labels := <[ LabelCapacityType := CapacityType i ]> labels in
  let labels := copyTag i ProvisionerNameLabelKey labels in
  let labels := copyTag i ManagedByLabelKey labels in
  {| MachineName := "";
     Annotations := ∅;
     MachineLabels := labels;
     CreationTimestamp := LaunchTime i;
     MachineTemplateRef := None;
     Kubelet := None;
     StatusProviderID := "aws:///" +:+ Zone i +:+ "/" +:+ ID i;
     StatusCapacity :=
       match instanceType with
       | Some it => nonZero (Capacity it)
       | None => ∅
       end;
     StatusAllocatable :=
       match instanceType with
       | Some it => nonZero (Allocatable_ it)
       | None => ∅
       end |}.

Definition resolveNodeTemplate (env : Env) (raw : option string)
  (objRef : option string) : res Drift.AWSNodeTemplate :=
  match objRef with
  | Some name =>
      match kubeClient_GetNodeTemplate env name with
      | fail err => fail (wrapf "getting providerRef" err)
      | ok nodeTemplate => ok nodeTemplate
      end
  | None =>
      match DeserializeProvider env raw with
      | fail err => fail err
      | ok nodeTemplate => ok nodeTemplate
      end
  end.

(** The zero [AWSNodeTemplate] and [KubeletConfiguration] that
    [GetInstanceTypes] lists with for a nil provisioner. *)
Definition emptyNodeTemplate : Drift.AWSNodeTemplate :=
  {| Drift.TemplateName := ""; Drift.SpecLaunchTemplateName := None |}.

Definition emptyKubelet : option string := Some "".

Definition GetInstanceTypes (env : Env) (provisioner : option Provisioner)
  : res (list InstanceType) :=
  match provisioner with
  | None => instanceTypeProvider_List env emptyKubelet emptyNodeTemplate
  | Some provisioner =>
      match resolveNodeTemplate env (ProviderRaw provisioner)
                                (ProviderRef provisioner) with
      | fail err => fail err
      | ok nodeTemplate =>
          match instanceTypeProvider_List env
                  (KubeletConfiguration provisioner) nodeTemplate with
          | fail err => fail err
          | ok instanceTypes => ok instanceTypes
          end
      end
  end.

Definition resolveInstanceTypes (env : Env) (machine : Machine)
  (nodeTemplate : Drift.AWSNodeTemplate) : res (list InstanceType) :=
  match instanceTypeProvider_List env (Kubelet machine) nodeTemplate with
  | fail err => fail (wrapf "getting instance types" err)
  | ok instanceTypes => ok (List.filter (eligible env machine) instanceTypes)
  end.

(** [errors.NewNotFound] is a status error with the reason NotFound. *)
Definition resolveProvisionerFromInstance (env : Env) (instance : Instance)
  : res Provisioner :=
  match Tags instance !! ProvisionerNameLabelKey with
  | None => fail (statusError "NotFound")
  | Some provisionerName =>
      match kubeClient_GetProvisioner env provisionerName with
      | fail err => fail err
      | ok provisioner => ok provisioner
      end
  end.

Definition resolveInstanceTypeFromInstance (env : Env) (instance : Instance)
  : option InstanceType * option error :=
  match resolveProvisionerFromInstance env instance with
  | fail err =>
      (None, Drift.IgnoreNotFound (wrapf "resolving provisioner" err))
  | ok provisioner =>
      match GetInstanceTypes env (Some provisioner) with
      | fail err =>
          (None, Drift.IgnoreNotFound (wrapf "resolving node template" err))
      | ok instanceTypes => (findType instanceTypes (Type_ instance), None)
      end
  end.

Definition Get (env : Env) (providerID : string) : res Machine :=
  match ParseInstanceID env providerID with
  | fail err => fail (wrapf "getting instance ID" err)
  | ok id =>
      match instanceProvider_Get env id with
      | fail err => fail (wrapf "getting instance" err)
      | ok instance =>
          match resolveInstanceTypeFromInstance env instance with
          | (_, Some err) => fail (wrapf "resolving instance type" err)
          | (instanceType, None) =>
              ok (instanceToMachine instance instanceType)
          end
      end
  end.

(** The loop of [List]. *)
Fixpoint machinesOf (env : Env) (instances : list Instance)
  (machines : list Machine) : res (list Machine) :=
  match instances with
  | [] => ok machines
  | instance :: rest =>
      match resolveInstanceTypeFromInstance env instance with
      | (_, Some err) => fail (wrapf "resolving instance type" err)
      | (instanceType, None) =>
          machinesOf env rest
            (machines ++ [instanceToMachine instance instanceType])
      end
  end.

Definition List_ (env : Env) : res (list Machine) :=
  match instanceProvider_List env with
  | fail err => fail (wrapf "listing instances" err)
  | ok instances => machinesOf env instances []
  end.

(** What [Create] returns: a machine, an error, or the typed error of
    [cloudprovider.NewInsufficientCapacityError]. *)
Inductive created : Type :=
| Created (machine : Machine)
| InsufficientCapacityError (err : error)
| Failed (err : error).

(** A launch asked of the instance provider. *)
Record Launch : Type := {
  launchTemplate : Drift.AWSNodeTemplate;
  launchMachine : Machine;
  launchInstanceTypes : list InstanceType;
}.

(** [Create], with the launches it asked of the instance provider. *)
Definition Create (env : Env) (machine : Machine) : created * list Launch :=
  match resolveNodeTemplate env
          (Some (Drift.label (Annotations machine)
                             ProviderCompatabilityAnnotationKey))
          (MachineTemplateRef machine) with
  | fail err => (Failed (wrapf "resolving node template" err), [])
  | ok nodeTemplate =>
      match resolveInstanceTypes env machine nodeTemplate with
      | fail err => (Failed (wrapf "resolving instance types" err), [])
      | ok instanceTypes =>
          if bool_decide (length instanceTypes = 0%nat)
          then (InsufficientCapacityError
                  (errorf
                     "all requested instance types were unavailable during launch"),
                [])
          else
            let launch := {| launchTemplate := nodeTemplate;
                             launchMachine := machine;
                             launchInstanceTypes := instanceTypes |} in
            match instanceProvider_Create env nodeTemplate machine
                    instanceTypes with
            | fail err => (Failed (wrapf "creating instance" err), [launch])
            | ok instance =>
                (Created (instanceToMachine instance
                            (findType instanceTypes (Type_ instance))),
                 [launch])
            end
      end
  end.

(** *** Vocabulary *)

(** The provisioner an instance is tagged with can no longer be found:
    the instance carries no provisioner tag, or the API server answers
    not-found for the provisioner or for its node template. *)
Definition provisionerIsGone (env : Env) (instance : Instance) : Prop :=
  match Tags instance !! ProvisionerNameLabelKey with
  | None => True
  | Some name =>
      match kubeClient_GetProvisioner env name with
      | fail err => Drift.IsNotFound err = true
      | ok provisioner =>
          exists ref err,
            ProviderRef provisioner = Some ref
            /\ kubeClient_GetNodeTemplate env ref = fail err
            /\ Drift.IsNotFound err = true
      end
  end.

End Machines.

(** ** AMI families: launch template resolution
       (package amifamily: src/unnamed/part_004, part_005 and
       pkg/cloudprovider/amifamily/resolver.go) *)

Module AmiFamily.
Import GoError Core.

(** A [resource.Quantity] holds at most three decimal places: it is a
    whole number of thousandths of its unit.  Sums and differences of
    quantities are exact. *)
Definition Quantity : Type := Z.

(** The value of a [float64]: a rational number.  The sources compare
    quantities through [AsApproximateFloat64] only. *)
Definition Float64 : Type := QArith_base.Q.

Definition float_le (a b : Float64) : Prop := QArith_base.Qle a b.

Global Instance float_le_dec : RelDecision float_le.
Proof.
  intros a b. unfold float_le.
  destruct (QArith_base.Qlt_le_dec b a) as [Hlt|Hle].
  - right. by apply QArith_base.Qlt_not_le.
  - by left.
Defined.

(** [a > b] on [float64] values. *)
Definition float_gt (a b : Float64) : bool := negb (bool_decide (float_le a b)).

(** 10Gi, in thousandths of a byte. *)
Definition maxDelta : Quantity := 10 * 2 ^ 30 * 1000.

(** [cloudprovider.InstanceType]: its name, its requirements and the
    ephemeral storage of [Overhead.Total()]. *)
Record InstanceType : Type := {
  Name : string;
  Requirements_ : Requirements;
  OverheadEphemeralStorage : Quantity;
}.

(** [v1alpha1.BlockDevice] and [v1alpha1.BlockDeviceMapping]; the fields
    that are only copied are left out. *)
Record BlockDevice : Type := {
  VolumeSize : option Quantity;
  VolumeType : option string;
}.

Record BlockDeviceMapping : Type := {
  DeviceName : option string;
  EBS : option BlockDevice;
}.

(** [functional.Pair] of a quantity and instance types. *)
Definition Bucket : Type := Quantity * list InstanceType.

Section Buckets.
(** [Quantity.AsApproximateFloat64]. *)
Variable AsApproximateFloat64 : Quantity -> Float64.
(** [nodeRequest.Template.Requests[v1.ResourceEphemeralStorage]]. *)
Variable requested : Quantity.

(** The ephemeral storage the node needs on an instance type. *)
Definition storageRequest (it : InstanceType) : Quantity :=
  0 + OverheadEphemeralStorage it + requested.

(** The order of [sort.Slice]: larger requests first. *)
Definition request_ge (a b : Quantity * InstanceType) : Prop :=
  float_le (AsApproximateFloat64 b.1) (AsApproximateFloat64 a.1).

Global Instance request_ge_dec : RelDecision request_ge.
Proof. intros a b. unfold request_ge. apply _. Defined.

(** One iteration of the loop: the buckets closed so far and the bucket
    at [currentBucket], none before the first request. *)
Definition addRequest (state : list Bucket * option Bucket)
  (request : Quantity * InstanceType) : list Bucket * option Bucket :=
  match state with
  | (buckets, None) => (buckets, Some (request.1, [request.2]))
  | (buckets, Some current) =>
      let copied := current.1 - request.1 in
      if float_gt (AsApproximateFloat64 copied)
                  (AsApproximateFloat64 maxDelta)
      then (buckets ++ [current], Some (request.1, [request.2]))
      else (buckets, Some (current.1, current.2 ++ [request.2]))
  end.

Definition closeBuckets (state : list Bucket * option Bucket)
  : list Bucket :=
  state.1 ++ option_list state.2.

(** [sort.Slice] is not stable; a merge sort is one of the orders it may
    produce. *)
Definition computeEphemeralStorageBuckets (instanceTypes : list InstanceType)
  : list Bucket :=
  let ephemeralStorageRequests :=
    List.map (fun it => (storageRequest it, it)) instanceTypes in
  closeBuckets
    (fold_left addRequest
               (merge_sort request_ge ephemeralStorageRequests)
               ([], None)).

(** *** Vocabulary *)

(** A bucket is sized for its first instance type, which needs at least
    as much storage as every other one of the bucket, and no more than
    [maxDelta] more; both as far as [float64] tells. *)
Definition wellSized (bucket : Bucket) : Prop :=
  exists first others,
    bucket.2 = first :: others
    /\ bucket.1 = storageRequest first
    /\ Forall (fun it =>
                 float_le (AsApproximateFloat64 (storageRequest it))
                          (AsApproximateFloat64 bucket.1)
                 /\ float_le
                      (AsApproximateFloat64 (bucket.1 - storageRequest it))
                      (AsApproximateFloat64 maxDelta))
              others.

End Buckets.

(** *** Resolve, over a node request (src/unnamed/part_004, first part) *)

(** The block device mappings of a launch template: those of the
    provider, or [amiFamily.DefaultBlockDeviceMappings] of a quantity. *)
Inductive BlockDevices : Type :=
| ProviderBlockDeviceMappings (mappings : list BlockDeviceMapping)
| DefaultBlockDeviceMappings (quantity : Quantity).

Record ResolvedLaunchTemplate : Type := {
  ResolvedAMIID : string;
  ResolvedBlockDevices : BlockDevices;
  ResolvedInstanceTypes : list InstanceType;
}.

Module ForNodeRequest.
Section Resolve.
Variable AsApproximateFloat64 : Quantity -> Float64.
Variable requested : Quantity.

(** The launch templates of one AMI: one per bucket when the provider
    has no block device mappings (a nil slice), a single one with the
    provider's otherwise. *)
Definition templatesOf
  (providerBlockDeviceMappings : option (list BlockDeviceMapping))
  (amiID : string) (instanceTypes : list InstanceType)
  : list ResolvedLaunchTemplate :=
  match providerBlockDeviceMappings with
  | None =>
      List.map
        (fun bucket : Bucket =>
           {| ResolvedAMIID := amiID;
              ResolvedBlockDevices := DefaultBlockDeviceMappings bucket.1;
              ResolvedInstanceTypes := bucket.2 |})
        (computeEphemeralStorageBuckets AsApproximateFloat64 requested
           instanceTypes)
  | Some mappings =>
      [ {| ResolvedAMIID := amiID;
           ResolvedBlockDevices := ProviderBlockDeviceMappings mappings;
           ResolvedInstanceTypes := instanceTypes |} ]
  end.

(** [Resolver.Resolve] of this version; [userData] and [amiIDs] are the
    answers of the user data provider and of the AMI provider.  Go
    ranges over [amiIDs] in an order of its choosing, here that of
    [map_to_list]. *)
Definition Resolve (userData : res string)
  (amiIDs : res (gmap string (list InstanceType)))
  (providerBlockDeviceMappings : option (list BlockDeviceMapping))
  : res (list ResolvedLaunchTemplate) :=
  match userData with
  | fail err => fail err
  | ok _ =>
      match amiIDs with
      | fail err => fail err
      | ok amiIDs =>
          ok (flat_map
                (fun '(amiID, instanceTypes) =>
                   templatesOf providerBlockDeviceMappings amiID
                               instanceTypes)
                (map_to_list amiIDs))
      end
  end.

End Resolve.
End ForNodeRequest.


(** *** The AMI provider (src/unnamed/part_005) *)

(** [ec2.BlockDeviceMapping] of an image; the volume size is a number of
    GiB. *)
Record EbsBlockDevice : Type := {
  EbsVolumeSize : option Z;
  EbsVolumeType : option string;
}.

Record Ec2BlockDeviceMapping : Type := {
  Ec2DeviceName : option string;
  Ebs : option EbsBlockDevice;
}.

(** [Image]: an [ec2.Image] with the requirements derived from it. *)
Record Image : Type := {
  ImageId : option string;
  CreationDate : option string;
  ImageBlockDeviceMappings : list Ec2BlockDeviceMapping;
  ImageRequirements : Requirements;
}.

Record MappingData : Type := {
  InstanceTypes : list InstanceType;
  BlockDeviceMappings : list BlockDeviceMapping;
}.

(** One GiB, in thousandths of a byte. *)
Definition Gi : Quantity := 2 ^ 30 * 1000.

Definition newBlockDeviceMapping (i : Ec2BlockDeviceMapping)
  : BlockDeviceMapping :=
  {| DeviceName := Ec2DeviceName i;
     EBS :=
       match Ebs i with
       | None => None
       | Some ebs =>
           Some {| VolumeSize :=
                     Some (InstanceProvider.Int64Value (EbsVolumeSize ebs)
                           * Gi);
                   VolumeType :=
                     if bool_decide
                          (EC2.StringValue (EbsVolumeType ebs) = "gp2")
                     then Some "gp3"
                     else EbsVolumeType ebs |}
       end |}.

(** What the AMI provider asks of the cluster, of EC2, of SSM and of the
    packages outside the sources.  [Compatible] holds when
    [Requirements.Compatible] returns no error; [creationUnix] is
    [time.Parse] of a creation date followed by [Unix()]. *)
Record Env : Type := {
  KubeServerVersion : res string;
  fetchImagesFromEC2 : gmap string string -> res (list Image);
  defaultAMIFromSSM : string -> res string;
  SSMAlias : string -> InstanceType -> string;
  Compatible : Requirements -> Requirements -> bool;
  creationUnix : option string -> Z;
}.

Definition selectImages (env : Env) (amiSelector : gmap string string)
  : res (list Image) :=
  match fetchImagesFromEC2 env amiSelector with
  | fail err => fail err
  | ok ec2AMIs =>
      if bool_decide (length ec2AMIs = 0%nat)
      then fail (errorf "no amis exist given constraints")
      else ok ec2AMIs
  end.

(** [getImages]: nil without a selector. *)
Definition getImages (env : Env) (amiSelector : gmap string string)
  : res (list Image) :=
  if bool_decide (size amiSelector = 0%nat) then ok []
  else selectImages env amiSelector.

(** The comparison of [sortAMIsByCreationDate]: not older. *)
Definition newer (env : Env) (a b : Image) : Prop :=
  creationUnix env (CreationDate b) <= creationUnix env (CreationDate a).

Global Instance newer_dec env : RelDecision (newer env).
Proof. intros a b. unfold newer. apply _. Defined.

(** [sort.Slice] is not stable; a merge sort is one of the orders it may
    produce. *)
Definition sortAMIsByCreationDate (env : Env) (amis : list Image)
  : list Image :=
  merge_sort (newer env) amis.

(** "Update AMI mapping with the added instance type". *)
Definition addToMapping (amiMapping : gmap string MappingData)
  (ami : Image) (instanceType : InstanceType) : gmap string MappingData :=
  let id := EC2.StringValue (ImageId ami) in
  match amiMapping !! id with
  | Some data =>
      <[ id := {| InstanceTypes := InstanceTypes data ++ [instanceType];
                  BlockDeviceMappings := BlockDeviceMappings data |} ]>
        amiMapping
  | None =>
      <[ id := {| BlockDeviceMappings :=
                    List.map newBlockDeviceMapping
                             (ImageBlockDeviceMappings ami);
                  InstanceTypes := [instanceType] |} ]>
        amiMapping
  end.

(** The inner loop: the first image the instance type is compatible
    with. *)
Definition firstCompatible (env : Env) (amis : list Image)
  (instanceType : InstanceType) : option Image :=
  List.find (fun ami => Compatible env (Requirements_ instanceType)
                                   (ImageRequirements ami)) amis.

Definition mapInstanceType (env : Env) (amis : list Image)
  (amiMapping : gmap string MappingData) (instanceType : InstanceType)
  : gmap string MappingData :=
  match firstCompatible env amis instanceType with
  | Some ami => addToMapping amiMapping ami instanceType
  | None => amiMapping
  end.

(** The loop of the branch without selected images: one SSM query and
    one image lookup per instance type. *)
Fixpoint mapDefaults (env : Env) (kubernetesVersion : string)
  (instanceTypes : list InstanceType) (amiMapping : gmap string MappingData)
  : res (gmap string MappingData) :=
  match instanceTypes with
  | [] => ok amiMapping
  | instanceType :: rest =>
      match defaultAMIFromSSM env
              (SSMAlias env kubernetesVersion instanceType) with
      | fail err => fail err
      | ok amiID =>
          match selectImages env {[ "aws-ids" := amiID ]} with
          | fail err => fail (wrapf "fetching images" err)
          | ok [] => fail (errorf "expected one image, got 0")
          | ok (ami :: _) =>
              mapDefaults env kubernetesVersion rest
                (addToMapping amiMapping ami instanceType)
          end
      end
  end.

(** [AMIProvider.Get]. *)
Definition Get (env : Env) (amiSelector : gmap string string)
  (instanceTypes : list InstanceType) : res (gmap string MappingData) :=
  match KubeServerVersion env with
  | fail err => fail (wrapf "getting kubernetes version" err)
  | ok kubernetesVersion =>
      match getImages env amiSelector with
      | fail err => fail err
      | ok amis =>
          if bool_decide (0 < length amis)%nat then
            let amiMapping :=
              fold_left (mapInstanceType env (sortAMIsByCreationDate env amis))
                        instanceTypes ∅ in
            if bool_decide (size amiMapping = 0%nat)
            then fail (errorf
                   "no instance types satisfy requirements of amis")
            else ok amiMapping
          else mapDefaults env kubernetesVersion instanceTypes ∅
      end
  end.

(** *** The resolver (src/unnamed/part_004, second part) *)

(** A Go call returns or panics. *)
Inductive outcome (A : Type) : Type :=
| Returned (a : A)
| Panicked (msg : string).
Arguments Returned {A} a.
Arguments Panicked {A} msg.

(** [LaunchTemplate], the fields [Resolve] computes. *)
Record LaunchTemplate : Type := {
  AMIID : string;
  LaunchInstanceTypes : list InstanceType;
  LaunchBlockDeviceMappings : list BlockDeviceMapping;
}.

(** 20Gi, in thousandths of a byte. *)
Definition minEphemeralStorage : Quantity := 20 * Gi.

(** [resources.Max] of three quantities. *)
Definition Max3 (a b c : Quantity) : Quantity := Z.max a (Z.max b c).

(** One iteration of the loop of [Resolve].  [customBlockDeviceMappings]
    is [nodeTemplate.Spec.BlockDeviceMappings]; [needed] is the call
    [neededEphemeralStorage(...)], which panics on a percentage it cannot
    parse.  The local slice stays nil when the node template has block
    device mappings of its own, and the next statement indexes it. *)
Definition resolveOne (customBlockDeviceMappings : list BlockDeviceMapping)
  (needed : outcome Quantity) (id : string) (mappingData : MappingData)
  : outcome LaunchTemplate :=
  let blockDeviceMappings :=
    if bool_decide (length customBlockDeviceMappings = 0%nat)
    then BlockDeviceMappings mappingData
    else [] in
  match blockDeviceMappings with
  | [] => Panicked "runtime error: index out of range [0] with length 0"
  | first :: rest =>
      match EBS first with
      | None =>
          Panicked "runtime error: invalid memory address or nil pointer dereference"
      | Some ebs =>
          match VolumeSize ebs with
          | None =>
              Panicked "runtime error: invalid memory address or nil pointer dereference"
          | Some size =>
              match needed with
              | Panicked msg => Panicked msg
              | Returned neededStorage =>
                  Returned
                    {| AMIID := id;
                       LaunchInstanceTypes := InstanceTypes mappingData;
                       LaunchBlockDeviceMappings :=
                         {| DeviceName := DeviceName first;
                            EBS := Some
                              {| VolumeSize :=
                                   Some (Max3 minEphemeralStorage size
                                              neededStorage);
                                 VolumeType := VolumeType ebs |} |}
                         :: rest |}
              end
          end
      end
  end.

(** The loop of [Resolve] over the entries of the mapping. *)
Fixpoint resolveAll (customBlockDeviceMappings : list BlockDeviceMapping)
  (needed : outcome Quantity) (entries : list (string * MappingData))
  (templates : list LaunchTemplate) : outcome (list LaunchTemplate) :=
  match entries with
  | [] => Returned templates
  | (id, mappingData) :: rest =>
      match resolveOne customBlockDeviceMappings needed id mappingData with
      | Panicked msg => Panicked msg
      | Returned template =>
          resolveAll customBlockDeviceMappings needed rest
                     (templates ++ [template])
      end
  end.

(** [Resolver.Resolve]; Go ranges over the mapping in an order of its
    choosing, here that of [map_to_list]. *)
Definition Resolve (env : Env) (amiSelector : gmap string string)
  (customBlockDeviceMappings : list BlockDeviceMapping)
  (needed : outcome Quantity) (instanceTypes : list InstanceType)
  : outcome (res (list LaunchTemplate)) :=
  match Get env amiSelector instanceTypes with
  | fail err => Returned (fail err)
  | ok amiMapping =>
      match resolveAll customBlockDeviceMappings needed
                       (map_to_list amiMapping) [] with
      | Panicked msg => Panicked msg
      | Returned templates => Returned (ok templates)
      end
  end.

(** *** Vocabulary *)

(** The image [Get] maps an instance type to, among selected images: a
    compatible one that no compatible image is newer than. *)
Definition newestCompatible (env : Env) (amis : list Image)
  (instanceType : InstanceType) (ami : Image) : Prop :=
  ami ∈ amis
  /\ Compatible env (Requirements_ instanceType) (ImageRequirements ami)
     = true
  /\ forall other,
       other ∈ amis ->
       Compatible env (Requirements_ instanceType) (ImageRequirements other)
       = true ->
       creationUnix env (CreationDate other)
       <= creationUnix env (CreationDate ami).

End AmiFamily.

(** ** A pass of the consolidation reconciler
       (pkg/controllers/controllers.go, package consolidation) *)

Module ClusterConsolidation.
Import GoError Core Consolidation.

Inductive ProcessResult : Type :=
| ProcessResultNothingToDo
| ProcessResultFailed
| ProcessResultConsolidated.

Global Instance ProcessResult_eq_dec : EqDecision ProcessResult.
Proof. solve_decision. Defined.

(** [PDBLimits], declared in another file. *)
Definition PDBLimits : Type := string.

(** What a pass asks of the cluster and of the packages [pod] and
    [sort]: the candidates, the disruption budgets, the comparison of two
    candidates by disruption cost and then by age, the deletion timestamp
    of a node, and the tests on pods.  [decision] answers the simulation
    of one candidate. *)
Record Env : Type := {
  candidateNodes : res (list candidateNode);
  NewPDBLimits : res PDBLimits;
  byNodeDisruptionCost : candidateNode -> candidateNode -> bool;
  beingDeleted : candidateNode -> bool;
  CanEvictPods : PDBLimits -> list Pod -> bool;
  IsTerminating : Pod -> bool;
  IsTerminal : Pod -> bool;
  IsOwnedByNode : Pod -> bool;
  HasDoNotEvict : Pod -> bool;
  IsNotOwned : Pod -> bool;
  decision : Consolidation.Env;
}.

Fixpoint podsPreventEviction (env : Env) (pods : list Pod) : option error :=
  match pods with
  | [] => None
  | p :: rest =>
      if IsTerminating env p || IsTerminal env p || IsOwnedByNode env p
      then podsPreventEviction env rest
      else if HasDoNotEvict env p
      then Some (errorf "found do-not-evict pod")
      else if IsNotOwned env p
      then Some (errorf "found pod with no controller")
      else podsPreventEviction env rest
  end.

Definition canBeTerminated (env : Env) (node : candidateNode)
  (pdbs : PDBLimits) : option error :=
  if beingDeleted env node
  then Some (errorf "already being deleted")
  else if negb (CanEvictPods env pdbs (pods node))
  then Some (errorf "not eligible for termination due to PDBs")
  else podsPreventEviction env (pods node).

Definition cheaper (env : Env) (a b : candidateNode) : Prop :=
  byNodeDisruptionCost env a b = true.

Global Instance cheaper_dec env : RelDecision (cheaper env).
Proof. intros a b. unfold cheaper. apply _. Defined.

(** [sort.Slice(candidates, byNodeDisruptionCost(candidates))]: one of
    the orders the sort may produce. *)
Definition sortByDisruptionCost (env : Env)
  (candidates : list candidateNode) : list candidateNode :=
  merge_sort (cheaper env) candidates.

(** The loop of [ProcessCluster] over the sorted candidates: the first
    action that deletes or replaces. *)
Fixpoint firstConsolidation (env : Env) (pdbs : PDBLimits)
  (candidates : list candidateNode) : option consolidationAction :=
  match candidates with
  | [] => None
  | node :: rest =>
      match canBeTerminated env node pdbs with
      | Some _ => firstConsolidation env pdbs rest
      | None =>
          match nodeConsolidationOptionReplaceOrDelete (decision env) node
          with
          | (_, Some _) => firstConsolidation env pdbs rest
          | (action, None) =>
              if bool_decide (result action = consolidateResultDelete)
                 || bool_decide (result action = consolidateResultReplace)
              then Some action
              else firstConsolidation env pdbs rest
          end
      end
  end.

(** [ProcessCluster], with the actions it hands to
    [performConsolidation]. *)
Definition ProcessCluster (env : Env)
  : ProcessResult * option error * list consolidationAction :=
  match candidateNodes env with
  | fail err =>
      (ProcessResultFailed, Some (wrapf "determining candidate nodes" err),
       [])
  | ok candidates =>
      if bool_decide (length candidates = 0%nat)
      then (ProcessResultNothingToDo, None, [])
      else
        let emptyNodes :=
          List.filter (fun n => bool_decide (length (pods n) = 0%nat))
                      candidates in
        if bool_decide (0 < length emptyNodes)%nat
        then (ProcessResultConsolidated, None,
              [ {| oldNodes := List.map Name emptyNodes;
                   result := consolidateResultDeleteEmpty;
                   replacementNode := None |} ])
        else
          match NewPDBLimits env with
          | fail err =>
              (ProcessResultFailed,
               Some (wrapf "tracking PodDisruptionBudgets" err), [])
          | ok pdbs =>
              match firstConsolidation env pdbs
                      (sortByDisruptionCost env candidates) with
              | Some action => (ProcessResultConsolidated, None, [action])
              | None => (ProcessResultNothingToDo, None, [])
              end
          end
  end.

(** *** The stabilization window and [Reconcile] *)

(** A deployment, replica set, replication controller or stateful set:
    [Spec.Replicas] and the two counts of its status that the readiness
    tests read ([int32] values). *)
Record Workload : Type := {
  Replicas : option Z;
  ReadyReplicas : Z;
  UpdatedReplicas : Z;
}.

(** A [time.Duration] and a [time.Time], in nanoseconds. *)
Definition Second : Z := 1000000000.
Definition Minute : Z := 60 * Second.
Definition pollingPeriod : Z := 10 * Second.

(** What [Reconcile] reads besides the candidates: the answers of the
    five list calls, the test of package [pod], the two reads of
    [ClusterConsolidationState], the clock and the times of the last node
    deletion and creation. *)
Record Surroundings : Type := {
  listPendingPods : res (list Pod);
  IsProvisionable : Pod -> bool;
  listDeployments : res (list Workload);
  listReplicaSets : res (list Workload);
  listReplicationControllers : res (list Workload);
  listStatefulSets : res (list Workload);
  stateAtEntry : Z;
  stateAtCapture : Z;
  Now : Z;
  LastNodeDeletionTime : Z;
  LastNodeCreationTime : Z;
}.

Definition hasPendingPods (s : Surroundings) : bool :=
  match listPendingPods s with
  | fail _ => true
  | ok podList => existsb (IsProvisionable s) podList
  end.

(** "unspecified defaults to 1". *)
Definition desired (w : Workload) : Z :=
  match Replicas w with
  | None => 1
  | Some replicas => replicas
  end.

Definition deploymentsReady (s : Surroundings) : bool :=
  match listDeployments s with
  | fail _ => false
  | ok depList =>
      forallb (fun ds => negb ((ReadyReplicas ds <? desired ds)
                               || (UpdatedReplicas ds <? desired ds)))
              depList
  end.

Definition replicaSetsReady (s : Surroundings) : bool :=
  match listReplicaSets s with
  | fail _ => false
  | ok rsList =>
      forallb (fun rs => negb (ReadyReplicas rs <? desired rs)) rsList
  end.

Definition replicationControllersReady (s : Surroundings) : bool :=
  match listReplicationControllers s with
  | fail _ => false
  | ok rsList =>
      forallb (fun rs => negb (ReadyReplicas rs <? desired rs)) rsList
  end.

Definition statefulSetsReady (s : Surroundings) : bool :=
  match listStatefulSets s with
  | fail _ => false
  | ok sslist =>
      forallb (fun rs => negb ((ReadyReplicas rs <? desired rs)
                               || (UpdatedReplicas rs <? desired rs)))
              sslist
  end.

Definition stabilizationWindow (s : Surroundings) : Z :=
  if negb (hasPendingPods s) && deploymentsReady s && replicaSetsReady s
     && replicationControllersReady s && statefulSetsReady s
  then 0
  else 5 * Minute.

(** [Reconcile]: its result, the [lastConsolidationState] it leaves and
    the actions performed. *)
Definition Reconcile (s : Surroundings) (env : Env)
  (lastConsolidationState : Z)
  : (Z * option error) * Z * list consolidationAction :=
  if bool_decide (lastConsolidationState = stateAtEntry s)
  then ((pollingPeriod, None), lastConsolidationState, [])
  else
    let stabilizationTime := Now s - stabilizationWindow s in
    let clusterState := stateAtCapture s in
    if bool_decide (LastNodeDeletionTime s < stabilizationTime)
       && bool_decide (LastNodeCreationTime s < stabilizationTime)
    then
      match ProcessCluster env with
      | (_, Some _, performed) =>
          ((pollingPeriod, None), lastConsolidationState, performed)
      | (processResult, None, performed) =>
          if bool_decide (processResult = ProcessResultNothingToDo)
          then ((pollingPeriod, None), clusterState, performed)
          else ((pollingPeriod, None), lastConsolidationState, performed)
      end
    else ((pollingPeriod, None), lastConsolidationState, []).

(** *** Vocabulary *)

(** A workload has all the replicas it wants ready. *)
Definition allReady (w : Workload) : Prop := desired w <= ReadyReplicas w.

(** A workload has all the replicas it wants ready and updated. *)
Definition rolledOut (w : Workload) : Prop :=
  desired w <= ReadyReplicas w /\ desired w <= UpdatedReplicas w.

(** A pod that keeps its node from being consolidated: it is not on its
    way out and not owned by the node, and it is marked do-not-evict or
    has no controller. *)
Definition protects (env : Env) (p : Pod) : Prop :=
  (IsTerminating env p || IsTerminal env p || IsOwnedByNode env p) = false
  /\ (HasDoNotEvict env p = true \/ IsNotOwned env p = true).

End ClusterConsolidation.

(** ** Further fixtures *)

Module InstanceProviderMoreExamples.
Import GoError AwsErrors Core EC2 InstanceProvider InstanceProviderCalls.
Import InstanceProviderExamples.

(** Two subnets of one zone. *)
Definition twoSubnets : list Subnet :=
  [ {| SubnetId := Some "subnet-small";
       SubnetAvailabilityZone := "us-west-2a";
       AvailableIpAddressCount := Some 100 |};
    {| SubnetId := Some "subnet-roomy";
       SubnetAvailabilityZone := "us-west-2a";
       AvailableIpAddressCount := Some 250 |} ].

(** The requirement on the zone of a request without one. *)
Definition anyZone : Requirement := {| Complement := true; Values := [] |}.

Definition roomyOverride : Override :=
  {| OverrideInstanceType := Some "m5.large";
     OverrideSubnetId := Some "subnet-roomy";
     OverrideAvailabilityZone := Some "us-west-2a";
     Priority := Some 0%nat |}.

Definition nodeOf (o : Outcome (res Node)) : Node :=
  match o with
  | Done (ok node) _ => node
  | _ => someNode
  end.

Definition smallOutcome : Outcome (res Node) :=
  Eval vm_compute in Create healthyEC2 someProvider smallRequest emptyWorld.

Definition describedWorld : World :=
  {| log := [DescribeInstancesCall "i-1"];
     ltCache := ∅; unavailableOfferings := ∅ |}.

(** An EC2 that refuses to terminate and still shows the instance. *)
Definition stubbornEC2 : Env :=
  {| ec2_CreateFleet := launchesOne;
     ec2_DescribeInstances := describesRunning;
     ec2_TerminateInstances := fun _ _ =>
       Some (awsError "UnauthorizedOperation" "not allowed" None);
     ec2_DescribeLaunchTemplates := fun _ _ => fail (errorf "unused");
     ec2_CreateLaunchTemplate := fun _ _ => fail (errorf "unused");
     subnetProvider_Get := fun _ _ => fail (errorf "unused");
     amiFamily_Resolve := fun _ _ _ _ => fail (errorf "unused");
     ParseProviderID := fun _ => ok "i-1";
     ResourceNameConvention := false;
     ClusterName := "test" |}.

Definition refusal : error :=
  wrapf "terminating instance"
        (awsError "UnauthorizedOperation" "not allowed" None).

Definition refusedWorld : World :=
  {| log := [TerminateInstancesCall "i-1"; DescribeInstancesCall "i-1"];
     ltCache := ∅; unavailableOfferings := ∅ |}.

Definition createdTemplate : LaunchTemplate :=
  {| LTName := "Karpenter-test-1"; LTId := Some "lt-1" |}.

Definition templateWorld : World :=
  Eval vm_compute in
    worldOf (ensureLaunchTemplate healthyEC2 "Karpenter-test-1" emptyWorld).

Definition namingProvider : AWS :=
  {| ProviderLaunchTemplateName := Some "my-template"; ProviderTags := ∅ |}.

Definition namedConfigs : list LaunchTemplateConfig :=
  Eval vm_compute in
    configsOf (getLaunchTemplateConfigs healthyEC2 namingProvider
                 (launchOptions smallRequest) "spot" emptyWorld).

End InstanceProviderMoreExamples.

Module AwsCloudProviderExamples.
Import GoError AwsErrors Core AwsCloudProvider.

Definition offeredTypes : list AnyInstanceType :=
  [ Provided {| InstanceType_ := "t2.micro"; CurrentGeneration := Some true |};
    Provided {| InstanceType_ := "m3.large"; CurrentGeneration := Some false |};
    Provided {| InstanceType_ := "m4.large"; CurrentGeneration := Some false |};
    Provided {| InstanceType_ := "m5.large"; CurrentGeneration := Some true |};
    Foreign "fake-it-1" ].

Definition plainEnv : Env :=
  {| kubeClient_Get := fun name => fail (errorf "unused");
     Deserialize := fun _ => ok "aws";
     instanceTypeProvider_Get := fun _ _ => ok offeredTypes |}.

(** A provisioner that says nothing about instance types, capacity type
    or architecture. *)
Definition plainProvisioner : ProvisionerSpec :=
  {| Provider := Some "{}"; ProviderRef := None; SpecLabels := ∅;
     Requirements :=
       [ {| Key := "topology.kubernetes.io/zone";
            Operator := NodeSelectorOpIn;
            ReqValues := ["us-west-2a"] |} ];
     KubeletConfiguration := None |}.

Definition generalTypes : list AnyInstanceType :=
  [ Provided {| InstanceType_ := "m3.large"; CurrentGeneration := Some false |};
    Provided {| InstanceType_ := "m5.large"; CurrentGeneration := Some true |};
    Foreign "fake-it-1" ].

Definition archFirst : list (string * string) :=
  [ (LabelArchStable, ArchitectureAmd64);
    (LabelCapacityType, DefaultTargetCapacityTypeOnDemand) ].

End AwsCloudProviderExamples.

Module AmiFamilyExamples.
Import GoError Core AmiFamily.

(** Quantities are whole numbers of thousandths; the test double of
    [AsApproximateFloat64] is exact on them. *)
Definition exactFloat (q : Quantity) : Float64 := QArith_base.inject_Z q.

Definition instanceTypeWith (name : string) (overhead : Quantity)
  : InstanceType :=
  {| Name := name; Requirements_ := ∅; OverheadEphemeralStorage := overhead |}.

Definition lean : InstanceType := instanceTypeWith "m5.large" (1 * Gi).
Definition leaner : InstanceType := instanceTypeWith "c5.large" (2 * Gi).
Definition heavy : InstanceType := instanceTypeWith "p3.8xlarge" (30 * Gi).

Definition oneAMI : gmap string (list InstanceType) :=
  {[ "ami-1" := [lean; heavy; leaner] ]}.

Definition bucketedTemplates : list ResolvedLaunchTemplate :=
  Eval vm_compute in
    match ForNodeRequest.Resolve exactFloat 0 (ok "") (ok oneAMI) None with
    | ok templates => templates
    | fail _ => []
    end.

Definition imageOf (id date : string) : Image :=
  {| ImageId := Some id;
     CreationDate := Some date;
     ImageBlockDeviceMappings :=
       [ {| Ec2DeviceName := Some "/dev/xvda";
            Ebs := Some {| EbsVolumeSize := Some 8;
                           EbsVolumeType := Some "gp2" |} |} ];
     ImageRequirements := ∅ |}.

(** Two selected images, compatible with every instance type. *)
Definition selectingEnv : Env :=
  {| KubeServerVersion := ok "1.24";
     fetchImagesFromEC2 := fun _ =>
       ok [ imageOf "ami-old" "2022-01-01T00:00:00Z";
            imageOf "ami-new" "2023-01-01T00:00:00Z" ];
     defaultAMIFromSSM := fun _ => fail (errorf "unused");
     SSMAlias := fun _ _ => "";
     Compatible := fun _ _ => true;
     creationUnix := fun date =>
       if bool_decide (date = Some "2023-01-01T00:00:00Z") then 1672531200
       else if bool_decide (date = Some "2022-01-01T00:00:00Z")
       then 1640995200
       else 0 |}.

Definition someSelector : gmap string string := {[ "aws-ids" := "ami-old,ami-new" ]}.

Definition selectedMapping : gmap string MappingData :=
  Eval vm_compute in
    match Get selectingEnv someSelector [lean; heavy] with
    | ok amiMapping => amiMapping
    | fail _ => ∅
    end.

End AmiFamilyExamples.

(** * Properties *)

(** ** The instance provider *)

Section InstanceProviderProps.
Import GoError AwsErrors Core EC2 InstanceProvider InstanceProviderExamples.

(** *** Error classification *)

Lemma Contains_spec (l : list string) (s : string) :
  Contains l s = true <-> s ∈ l.
Proof. unfold Contains. apply bool_decide_eq_true. Qed.

Lemma isUnfulfillableCapacity_spec (err : CreateFleetError) :
  isUnfulfillableCapacity err = true <->
  ErrorCode err = "InsufficientInstanceCapacity"
  \/ ErrorCode err = "MaxSpotInstanceCountExceeded"
  \/ ErrorCode err = "VcpuLimitExceeded"
  \/ ErrorCode err = "UnfulfillableCapacity"
  \/ ErrorCode err = "Unsupported".
Proof.
  unfold isUnfulfillableCapacity. rewrite Contains_spec.
  unfold unfulfillableCapacityErrorCodes.
  rewrite !elem_of_cons, elem_of_nil. tauto.
Qed.

Lemma isNotFound_wrapf (msg : string) (e : error) :
  isNotFound (Some (wrapf msg e)) = isNotFound (Some e).
Proof. reflexivity. Qed.

Lemma isLaunchTemplateNotFound_wrapf (msg : string) (e : error) :
  isLaunchTemplateNotFound (Some (wrapf msg e))
  = isLaunchTemplateNotFound (Some e).
Proof. reflexivity. Qed.

(** *** getCapacityType *)

Lemma existsb_elem_of {A} (f : A -> bool) (l : list A) :
  existsb f l = true <-> exists x, x ∈ l /\ f x = true.
Proof.
  rewrite existsb_exists. split; intros (x & Hx & Hf); exists x;
    (split; [by apply list_elem_of_In | done]).
Qed.

Lemma spotOffered_existsb (nodeRequest : NodeRequest) :
  existsb
    (fun instanceType =>
       existsb
         (fun offering =>
            Has (Get (TemplateRequirements (Template nodeRequest))
                     LabelTopologyZone) (Zone offering)
            && bool_decide (CapacityType offering = CapacityTypeSpot))
         (AvailableOfferings instanceType))
    (InstanceTypeOptions nodeRequest) = true
  <-> spotOffered nodeRequest.
Proof.
  unfold spotOffered. rewrite existsb_elem_of. split.
  - intros (it & Hit & Hex). apply existsb_elem_of in Hex as (o & Ho & Hb).
    apply andb_true_iff in Hb as [Hz Hc]. apply bool_decide_eq_true in Hc.
    by exists it, o.
  - intros (it & o & Hit & Ho & Hz & Hc). exists it. split; [done|].
    apply existsb_elem_of. exists o. split; [done|].
    apply andb_true_iff. split; [done|]. by apply bool_decide_eq_true.
Qed.

(** C10: [getCapacityType] answers "spot" exactly when the capacity-type
    requirement of the request allows spot and some instance type option
    has an available spot offering in a zone the zone requirement allows;
    in every other case it answers "on-demand". *)
Theorem getCapacityType_spot_iff (nodeRequest : NodeRequest) :
  (getCapacityType nodeRequest = CapacityTypeSpot <->
   Has (Get (TemplateRequirements (Template nodeRequest)) LabelCapacityType)
       CapacityTypeSpot = true
   /\ spotOffered nodeRequest)
  /\ (getCapacityType nodeRequest = CapacityTypeSpot
      \/ getCapacityType nodeRequest = CapacityTypeOnDemand)
  /\ (Has (Get (TemplateRequirements (Template nodeRequest))
               LabelCapacityType) CapacityTypeSpot = true ->
      ~ spotOffered nodeRequest ->
      getCapacityType nodeRequest = CapacityTypeOnDemand).
Proof.
  pose proof (spotOffered_existsb nodeRequest) as Hex.
  unfold getCapacityType.
  destruct (Has _ CapacityTypeSpot) eqn:Hhas.
  - destruct (existsb _ _) eqn:Hso.
    + assert (spotOffered nodeRequest) as Hyes by (by apply Hex).
      repeat split; auto. intros _ Hno. by destruct Hno.
    + assert (~ spotOffered nodeRequest) as Hno
        by (intros H; apply Hex in H; congruence).
      repeat split; try discriminate; auto.
      intros [_ H]. by destruct Hno.
  - repeat split; try discriminate; auto.
    intros [? _]. discriminate.
Qed.

Lemma getCapacityType_spot_iff_witness :
  getCapacityType spotlessRequest = CapacityTypeOnDemand.
Proof.
  apply (getCapacityType_spot_iff spotlessRequest).
  - reflexivity.
  - intros (it & o & Hit & Ho & _ & Hspot).
    apply list_elem_of_singleton in Hit as ->.
    apply list_elem_of_singleton in Ho as ->. discriminate.
Defined.

(** *** The log of fleet requests *)

Lemma fleetInputs_app (l1 l2 : list Call) :
  fleetInputs (l1 ++ l2) = (fleetInputs l1 ++ fleetInputs l2)%list.
Proof. unfold fleetInputs. apply omap_app. Qed.

Lemma bind_Done {A B} (m : M A) (k : A -> M B) w b w' :
  bind m k w = Done b w' ->
  exists a w1, m w = Done a w1 /\ k a w1 = Done b w'.
Proof.
  unfold bind. destruct (m w) as [a w1|msg]; [|discriminate].
  intros H. by exists a, w1.
Qed.

Lemma quiet_ret {A} (a : A) : quiet (ret a).
Proof. intros w a' w' H. by inversion H. Qed.

Lemma quiet_bind {A B} (m : M A) (k : A -> M B) :
  quiet m -> (forall a, quiet (k a)) -> quiet (bind m k).
Proof.
  intros Hm Hk w b w' H. apply bind_Done in H as (a & w1 & H1 & H2).
  rewrite (Hk _ _ _ _ H2). by apply (Hm _ _ _ H1).
Qed.

Lemma quiet_panic {A} (msg : string) : quiet (@panic A msg).
Proof. intros w a w' H. discriminate. Qed.

Lemma quiet_getLog : quiet getLog.
Proof. intros w a w' H. by inversion H. Qed.

Lemma quiet_getCache : quiet getCache.
Proof. intros w a w' H. by inversion H. Qed.

Lemma quiet_setCache c : quiet (setCache c).
Proof. intros w a w' H. by inversion H. Qed.

Lemma quiet_setUnavailable u : quiet (setUnavailable u).
Proof. intros w a w' H. by inversion H. Qed.

Lemma quiet_record (c : Call) : isFleetCall c = false -> quiet (record c).
Proof.
  intros Hc w a w' H. inversion H; subst; simpl.
  rewrite fleetInputs_app. destruct c; try discriminate; simpl;
    by rewrite app_nil_r.
Qed.

Lemma quiet_call {A} (c : Call) (answer : list Call -> A) :
  isFleetCall c = false -> quiet (call c answer).
Proof.
  intros Hc. unfold call. apply quiet_bind; [apply quiet_getLog|].
  intros l. apply quiet_bind; [by apply quiet_record|].
  intros _. apply quiet_ret.
Qed.

Create HintDb quiet.
#[local] Hint Resolve quiet_ret quiet_panic quiet_getLog quiet_getCache
  quiet_setCache quiet_setUnavailable : quiet.

Ltac quiet_step :=
  lazymatch goal with
  | |- quiet (bind _ _) => apply quiet_bind; [| intros ?]
  | |- quiet (call _ _) => apply quiet_call; reflexivity
  | |- quiet (match ?x with _ => _ end) => destruct x
  | |- quiet _ => first [ solve [eauto with quiet] | progress cbv zeta ]
  end.

Ltac quiet_tac := repeat quiet_step.

Lemma quiet_Invalidate (ltName : string) : quiet (Invalidate ltName).
Proof. unfold Invalidate. quiet_tac. Qed.

Lemma quiet_invalidateAll configs : quiet (invalidateAll configs).
Proof.
  induction configs as [|c rest IH]; simpl; [apply quiet_ret|].
  apply quiet_bind; [apply quiet_Invalidate | by intros _].
Qed.

Lemma quiet_createLaunchTemplate env name :
  quiet (createLaunchTemplate env name).
Proof. unfold createLaunchTemplate. quiet_tac. Qed.

#[local] Hint Resolve quiet_Invalidate quiet_invalidateAll
  quiet_createLaunchTemplate : quiet.

Lemma quiet_ensureLaunchTemplate env name :
  quiet (ensureLaunchTemplate env name).
Proof. unfold ensureLaunchTemplate. quiet_tac. Qed.

#[local] Hint Resolve quiet_ensureLaunchTemplate : quiet.

Lemma quiet_ensureAll env resolved launchTemplates :
  quiet (ensureAll env resolved launchTemplates).
Proof.
  revert launchTemplates.
  induction resolved as [|r rest IH]; intros lts; simpl; quiet_tac; apply IH.
Qed.

#[local] Hint Resolve quiet_ensureAll : quiet.

Lemma quiet_launchTemplateProvider_Get env provider nodeRequest labels :
  quiet (launchTemplateProvider_Get env provider nodeRequest labels).
Proof. unfold launchTemplateProvider_Get. quiet_tac. Qed.

#[local] Hint Resolve quiet_launchTemplateProvider_Get : quiet.

Lemma quiet_getLaunchTemplateConfigs env provider nodeRequest capacityType :
  quiet (getLaunchTemplateConfigs env provider nodeRequest capacityType).
Proof. unfold getLaunchTemplateConfigs. quiet_tac. Qed.

Lemma quiet_CacheUnavailable fleetErr capacityType :
  quiet (CacheUnavailable fleetErr capacityType).
Proof. intros w a w' H. by inversion H. Qed.

#[local] Hint Resolve quiet_getLaunchTemplateConfigs quiet_CacheUnavailable
  : quiet.

Lemma quiet_updateUnavailableOfferingsCache errors capacityType :
  quiet (updateUnavailableOfferingsCache errors capacityType).
Proof.
  induction errors as [|e rest IH]; simpl; quiet_tac; apply IH.
Qed.

Lemma quiet_getInstance env id : quiet (getInstance env id).
Proof. unfold getInstance. quiet_tac. Qed.

Lemma quiet_retry_Do {A} (more : nat) (f : M (res A)) :
  quiet f -> quiet (retry_Do more f).
Proof.
  intros Hf. induction more as [|n IH]; simpl.
  - apply quiet_bind; [done|]. intros [a|e]; apply quiet_ret.
  - apply quiet_bind; [done|]. intros [a|e]; [apply quiet_ret | apply IH].
Qed.

Lemma quiet_instanceToNode env instance instanceTypes :
  quiet (instanceToNode env instance instanceTypes).
Proof. unfold instanceToNode. quiet_tac. Qed.

#[local] Hint Resolve quiet_updateUnavailableOfferingsCache quiet_getInstance
  quiet_retry_Do quiet_instanceToNode : quiet.

Lemma quiet_Terminate env node : quiet (Terminate env node).
Proof. unfold Terminate. quiet_tac. Qed.

(** *** Terminate *)

Lemma getInstance_gone env id w :
  describeShowsGone (ec2_DescribeInstances env (log w) id) ->
  exists e w',
    getInstance env id w = Done (fail e) w'
    /\ (isInstanceTerminated (Some e) || isNotFound (Some e)) = true
    /\ sameCaches w w'.
Proof.
  unfold getInstance, call, bind, getLog, record, ret, describeShowsGone.
  cbv beta iota. cbn [log ltCache unavailableOfferings]. destruct (ec2_DescribeInstances env (log w) id) as [rs|err].
  - destruct rs as [|[insts] rest].
    { intros _. eexists _, _. split; [reflexivity|]. by split. }
    destruct insts as [|i insts].
    { intros _. destruct rest; eexists _, _; (split; [reflexivity|]);
        by split. }
    destruct insts as [|i' insts].
    2:{ intros _. destruct rest; eexists _, _; (split; [reflexivity|]);
        by split. }
    destruct rest as [|r' rest].
    2:{ intros _. eexists _, _. split; [reflexivity|]. by split. }
    intros H. rewrite bool_decide_eq_true_2 by done.
    eexists _, _. split; [reflexivity|]. by split.
  - intros H. rewrite H.
    eexists _, _; split; [reflexivity|]; split; [|done].
    rewrite H. apply orb_true_r.
Qed.

Lemma Terminate_gone env node id w :
  ParseProviderID env node = ok id ->
  goneAt env (log w) id ->
  exists w', Terminate env node w = Done None w' /\ sameCaches w w'.
Proof.
  intros Hid Hgone. unfold Terminate. rewrite Hid.
  unfold call at 1. unfold bind at 1 2 3, getLog, record, ret.
  cbv beta iota. cbn [log ltCache unavailableOfferings].
  destruct (ec2_TerminateInstances env (log w) id) as [err|] eqn:Hterm.
  2:{ eexists; split; [reflexivity|done]. }
  destruct (isNotFound (Some err)) eqn:Hnf.
  { eexists; split; [reflexivity|done]. }
  destruct Hgone as [Hgone|Hgone]; [congruence|].
  set (w1 := {| log := log w ++ [TerminateInstancesCall id];
                ltCache := ltCache w;
                unavailableOfferings := unavailableOfferings w |}).
  destruct (getInstance_gone env id w1 Hgone) as (e & w' & Hget & Hcls & Hsame).
  unfold bind. rewrite Hget. rewrite Hcls.
  eexists; split; [reflexivity|]. destruct Hsame as [? ?]. by split.
Qed.

(** C4: when the instance no longer exists (the terminate call reports a
    not-found code, or the describe that follows shows the instance
    missing or terminated), [Terminate] returns nil and leaves the caches
    of the provider as they were; so does a repeated call for the same
    instance. *)
Theorem Terminate_not_found_is_success env node id w :
  ParseProviderID env node = ok id ->
  goneAt env (log w) id ->
  exists w1,
    Terminate env node w = Done None w1
    /\ sameCaches w w1
    /\ (goneAt env (log w1) id ->
        exists w2, Terminate env node w1 = Done None w2 /\ sameCaches w w2).
Proof.
  intros Hid Hgone.
  destruct (Terminate_gone env node id w Hid Hgone) as (w1 & H1 & Hs1).
  exists w1. split; [done|]. split; [done|].
  intros Hgone1.
  destruct (Terminate_gone env node id w1 Hid Hgone1) as (w2 & H2 & Hs2).
  exists w2. split; [done|].
  destruct Hs1 as [? ?], Hs2 as [? ?]. split; congruence.
Qed.

Example Terminate_first_call :
  Terminate forgetfulEC2 someNode emptyWorld = Done None terminatedOnce.
Proof. reflexivity. Qed.

Lemma Terminate_not_found_is_success_witness :
  exists w1,
    Terminate forgetfulEC2 someNode terminatedOnce = Done None w1
    /\ sameCaches terminatedOnce w1
    /\ (goneAt forgetfulEC2 (log w1) "i-0123456789" ->
        exists w2, Terminate forgetfulEC2 someNode w1 = Done None w2
                   /\ sameCaches terminatedOnce w2).
Proof.
  apply (Terminate_not_found_is_success forgetfulEC2 someNode
           "i-0123456789" terminatedOnce).
  - reflexivity.
  - left. reflexivity.
Defined.

(** *** The unavailable-offerings cache *)

Lemma updateUnavailableOfferingsCache_spec errors capacityType w :
  exists w',
    updateUnavailableOfferingsCache errors capacityType w = Done tt w'
    /\ log w' = log w
    /\ ltCache w' = ltCache w
    /\ forall key,
         key ∈ unavailableOfferings w' <->
         key ∈ unavailableOfferings w
         \/ exists err, err ∈ errors
                        /\ isUnfulfillableCapacity err = true
                        /\ key = offeringOf err capacityType.
Proof.
  revert w. induction errors as [|e rest IH]; intros w.
  - exists w. repeat split; auto. intros [H|(err & H & _)]; [done|].
    by apply elem_of_nil in H.
  - cbn [updateUnavailableOfferingsCache]. unfold bind at 1.
    destruct (isUnfulfillableCapacity e) eqn:He.
    + unfold CacheUnavailable, setUnavailable.
      match goal with
      | |- context [ updateUnavailableOfferingsCache rest capacityType ?w0 ] =>
          destruct (IH w0) as (w' & Hrun & Hlog & Hcache & Hkeys)
      end.
      exists w'. split; [done|]. split; [done|]. split; [done|].
      intros key. rewrite Hkeys. cbn [unavailableOfferings].
      rewrite elem_of_union, elem_of_singleton. split.
      * intros [[->|H]|(err & Hin & Hu & ->)].
        -- right. exists e. split; [apply list_elem_of_here|done].
        -- by left.
        -- right. exists err. split; [by apply list_elem_of_further|done].
      * intros [H|(err & Hin & Hu & ->)]; [by left; right|].
        apply elem_of_cons in Hin as [->|Hin]; [by left; left|].
        right. by exists err.
    + unfold ret.
      destruct (IH w) as (w' & Hrun & Hlog & Hcache & Hkeys).
      exists w'. split; [done|]. split; [done|]. split; [done|].
      intros key. rewrite Hkeys. split.
      * intros [H|(err & Hin & Hu & ->)]; [by left|].
        right. exists err. split; [by apply list_elem_of_further|done].
      * intros [H|(err & Hin & Hu & ->)]; [by left|].
        apply elem_of_cons in Hin as [->|Hin]; [congruence|].
        right. by exists err.
Qed.

Lemma fold_errorf_no_code (l : list string) (acc : option error) :
  (forall e, acc = Some e -> asAwsError e = None) ->
  forall e,
    fold_left (fun acc errorCode =>
                 multierr_Append acc (Some (errorf errorCode))) l acc
    = Some e ->
    asAwsError e = None.
Proof.
  revert acc. induction l as [|s l IH]; intros acc Hacc e; simpl.
  - apply Hacc.
  - apply IH. intros e'. destruct acc as [a|]; simpl.
    + intros [= <-]. simpl. by rewrite (Hacc a).
    + by intros [= <-].
Qed.

Lemma combineFleetErrors_no_code (errors : list CreateFleetError) :
  asAwsError (combineFleetErrors errors) = None.
Proof.
  unfold combineFleetErrors.
  destruct (fold_left _ _ None) as [e|] eqn:Hfold; [|done].
  simpl. eapply fold_errorf_no_code; [|exact Hfold]. discriminate.
Qed.

Lemma combineFleetErrors_not_stale (errors : list CreateFleetError) :
  isLaunchTemplateNotFound (Some (combineFleetErrors errors)) = false.
Proof.
  unfold isLaunchTemplateNotFound. by rewrite combineFleetErrors_no_code.
Qed.

(** *** One launch attempt *)

Lemma call_run {A} (c : Call) (answer : list Call -> A) (w : World) :
  call c answer w = Done (answer (log w)) (logged w c).
Proof. reflexivity. Qed.

Lemma invalidateAll_lookup configs w :
  exists w',
    invalidateAll configs w = Done tt w'
    /\ log w' = log w
    /\ unavailableOfferings w' = unavailableOfferings w
    /\ forall name,
         ltCache w' !! name
         = if decide (name ∈ List.map LaunchTemplateName configs)
           then None else ltCache w !! name.
Proof.
  revert w. induction configs as [|c rest IH]; intros w.
  - exists w. repeat split; auto.
  - cbn [invalidateAll]. unfold bind at 1, Invalidate, bind, getCache, setCache.
    match goal with
    | |- context [ invalidateAll rest ?w0 ] =>
        destruct (IH w0) as (w' & Hrun & Hlog & Hun & Hlook)
    end.
    exists w'. split; [done|]. split; [done|]. split; [done|].
    intros name. rewrite Hlook. cbn [ltCache List.map].
    destruct (decide (name ∈ List.map LaunchTemplateName rest)) as [Hin|Hnin].
    + rewrite decide_True; [done|]. by apply list_elem_of_further.
    + destruct (decide (name = LaunchTemplateName c)) as [->|Hne].
      * rewrite decide_True by apply list_elem_of_here.
        apply lookup_delete_eq.
      * rewrite decide_False.
        -- by apply lookup_delete_ne.
        -- intros [->|H]%elem_of_cons; done.
Qed.

Lemma invalidateAll_spec configs w :
  exists w',
    invalidateAll configs w = Done tt w'
    /\ log w' = log w
    /\ unavailableOfferings w' = unavailableOfferings w
    /\ (forall c, c ∈ configs -> ltCache w' !! LaunchTemplateName c = None)
    /\ (forall name,
          (forall c, c ∈ configs -> LaunchTemplateName c <> name) ->
          ltCache w' !! name = ltCache w !! name).
Proof.
  destruct (invalidateAll_lookup configs w) as (w' & Hrun & Hlog & Hun & Hlook).
  exists w'. split; [done|]. split; [done|]. split; [done|]. split.
  - intros c Hc. rewrite Hlook, decide_True; [done|].
    apply list_elem_of_In, in_map, list_elem_of_In, Hc.
  - intros name Hname. rewrite Hlook, decide_False; [done|].
    intros Hin. apply list_elem_of_In, in_map_iff in Hin as (c & Heq & Hc).
    apply (Hname c); [by apply list_elem_of_In|done].
Qed.

Lemma launchInstance_configs_fail env provider nodeRequest w err w1 :
  getLaunchTemplateConfigs env provider nodeRequest
    (getCapacityType nodeRequest) w = Done (fail err) w1 ->
  launchInstance env provider nodeRequest w
  = Done (fail (wrapf "getting launch template configs" err)) w1.
Proof. intros H. unfold launchInstance, bind. by rewrite H. Qed.

Lemma launchInstance_fleet_fail env provider nodeRequest w configs w1 err :
  let capacityType := getCapacityType nodeRequest in
  let input := createFleetInput env provider capacityType configs in
  getLaunchTemplateConfigs env provider nodeRequest capacityType w
  = Done (ok configs) w1 ->
  ec2_CreateFleet env (log w1) input = fail err ->
  exists e w2,
    launchInstance env provider nodeRequest w = Done (fail e) w2
    /\ isLaunchTemplateNotFound (Some e) = isLaunchTemplateNotFound (Some err)
    /\ log w2 = log w1 ++ [CreateFleetCall input]
    /\ unavailableOfferings w2 = unavailableOfferings w1
    /\ (if isLaunchTemplateNotFound (Some err)
        then e = wrapf "creating fleet" err
             /\ (forall c, c ∈ configs ->
                           ltCache w2 !! LaunchTemplateName c = None)
             /\ (forall name,
                   (forall c, c ∈ configs -> LaunchTemplateName c <> name) ->
                   ltCache w2 !! name = ltCache w1 !! name)
        else ltCache w2 = ltCache w1).
Proof.
  intros capacityType input Hconfigs Hfleet.
  unfold launchInstance. unfold bind at 1. fold capacityType.
  rewrite Hconfigs. cbv zeta. fold input.
  unfold bind at 1. rewrite call_run, Hfleet.
  destruct (isLaunchTemplateNotFound (Some err)) eqn:Hstale.
  - destruct (invalidateAll_spec configs (logged w1 (CreateFleetCall input)))
      as (w2 & Hrun & Hlog & Hun & Hgone & Hkeep).
    unfold bind. rewrite Hrun. unfold ret.
    eexists _, w2. split; [reflexivity|]. split; [done|].
    split; [done|]. split; [done|]. by split.
  - destruct (asRequestFailure err) as [rid|]; unfold ret;
      eexists _, _; (split; [reflexivity|]); by repeat split.
Qed.

Lemma launchInstance_fleet_ok env provider nodeRequest w configs w1 output :
  let capacityType := getCapacityType nodeRequest in
  let input := createFleetInput env provider capacityType configs in
  getLaunchTemplateConfigs env provider nodeRequest capacityType w
  = Done (ok configs) w1 ->
  ec2_CreateFleet env (log w1) input = ok output ->
  exists w2,
    launchInstance env provider nodeRequest w
    = Done (match launchedId output with
            | Some id => ok id
            | None => fail (combineFleetErrors (Errors output))
            end) w2
    /\ log w2 = log w1 ++ [CreateFleetCall input]
    /\ ltCache w2 = ltCache w1
    /\ forall key,
         key ∈ unavailableOfferings w2 <->
         key ∈ unavailableOfferings w1
         \/ exists err, err ∈ Errors output
                        /\ isUnfulfillableCapacity err = true
                        /\ key = offeringOf err capacityType.
Proof.
  intros capacityType input Hconfigs Hfleet.
  unfold launchInstance. unfold bind at 1. fold capacityType.
  rewrite Hconfigs. cbv zeta. fold input.
  unfold bind at 1. rewrite call_run, Hfleet.
  destruct (updateUnavailableOfferingsCache_spec (Errors output) capacityType
              (logged w1 (CreateFleetCall input)))
    as (w2 & Hrun & Hlog & Hcache & Hkeys).
  unfold bind. rewrite Hrun. exists w2. split.
  - unfold launchedId.
    destruct (FleetInstances output) as [|[[|id ids]] rest]; reflexivity.
  - split; [done|]. split; [done|]. exact Hkeys.
Qed.

(** A launch attempt issues at most one fleet request. *)
Lemma launchInstance_fleetInputs env provider nodeRequest w r w' :
  launchInstance env provider nodeRequest w = Done r w' ->
  exists xs,
    fleetInputs (log w') = fleetInputs (log w) ++ xs
    /\ (length xs <= 1)%nat
    /\ Forall (builtFor env provider nodeRequest) xs.
Proof.
  intros Hrun.
  destruct (getLaunchTemplateConfigs env provider nodeRequest
              (getCapacityType nodeRequest) w) as [[configs|err] w1|msg]
    eqn:Hconfigs.
  - pose proof (quiet_getLaunchTemplateConfigs _ _ _ _ _ _ _ Hconfigs) as Hq.
    set (input := createFleetInput env provider
                    (getCapacityType nodeRequest) configs).
    exists [input].
    assert (log w' = log w1 ++ [CreateFleetCall input]) as Hlog.
    { destruct (ec2_CreateFleet env (log w1) input) as [output|err] eqn:Hf.
      - destruct (launchInstance_fleet_ok _ _ _ _ _ _ _ Hconfigs Hf)
          as (w2 & Hrun2 & Hlog & _).
        rewrite Hrun in Hrun2. by inversion Hrun2; subst.
      - destruct (launchInstance_fleet_fail _ _ _ _ _ _ _ Hconfigs Hf)
          as (e & w2 & Hrun2 & _ & Hlog & _).
        rewrite Hrun in Hrun2. by inversion Hrun2; subst. }
    rewrite Hlog, fleetInputs_app, Hq. split; [done|]. split; [done|].
    apply Forall_singleton. by exists configs, w, w1.
  - rewrite (launchInstance_configs_fail _ _ _ _ _ _ Hconfigs) in Hrun.
    inversion Hrun; subst. exists []. rewrite app_nil_r.
    split; [by eapply quiet_getLaunchTemplateConfigs|]. split; [simpl; lia|].
    apply Forall_nil_2.
  - unfold launchInstance, bind in Hrun. by rewrite Hconfigs in Hrun.
Qed.

(** *** Create *)

Lemma Create_unfold env provider req w :
  Create env provider req w
  = match launchInstance env provider (launchOptions req) w with
    | Done (fail err) w1 =>
        if isLaunchTemplateNotFound (Some err)
        then bind (launchInstance env provider (launchOptions req))
                  (describeLaunched env (launchOptions req)) w1
        else Done (fail err) w1
    | Done (ok id) w1 => describeLaunched env (launchOptions req) (ok id) w1
    | Panic msg => Panic msg
    end.
Proof.
  unfold Create. cbv zeta. unfold bind at 1.
  destruct (launchInstance env provider (launchOptions req) w)
    as [[id|err] w1|msg]; [reflexivity| |reflexivity].
  destruct (isLaunchTemplateNotFound (Some err)); reflexivity.
Qed.

Lemma quiet_describeLaunched env nodeRequest launched :
  quiet (describeLaunched env nodeRequest launched).
Proof. unfold describeLaunched. quiet_tac. Qed.

(** [Create] issues at most two fleet requests, each built for the
    request cut to the launch options. *)
Lemma Create_fleetInputs env provider req w r w' :
  Create env provider req w = Done r w' ->
  exists xs,
    fleetInputs (log w') = fleetInputs (log w) ++ xs
    /\ (length xs <= 2)%nat
    /\ Forall (builtFor env provider (launchOptions req)) xs.
Proof.
  rewrite Create_unfold.
  destruct (launchInstance env provider (launchOptions req) w)
    as [first w1|msg] eqn:Hfirst; [|by destruct msg].
  destruct (launchInstance_fleetInputs _ _ _ _ _ _ Hfirst)
    as (xs1 & Hlog1 & Hlen1 & Hin1).
  assert (forall r',
            describeLaunched env (launchOptions req) r' w1 = Done r w' ->
            exists xs,
              fleetInputs (log w') = fleetInputs (log w) ++ xs
              /\ (length xs <= 2)%nat
              /\ Forall (builtFor env provider (launchOptions req)) xs)
    as Hdirect.
  { intros r' Hd. apply quiet_describeLaunched in Hd.
    exists xs1. rewrite Hd. split; [done|]. split; [lia|done]. }
  destruct first as [id|err]; [by eauto|].
  destruct (isLaunchTemplateNotFound (Some err)).
  2:{ intros [= <- <-]. by apply (Hdirect (fail err)). }
  intros Hrun. apply bind_Done in Hrun as (second & w2 & Hsecond & Hd).
  destruct (launchInstance_fleetInputs _ _ _ _ _ _ Hsecond)
    as (xs2 & Hlog2 & Hlen2 & Hin2).
  apply quiet_describeLaunched in Hd.
  exists (xs1 ++ xs2). rewrite Hd, Hlog2, Hlog1, app_assoc.
  split; [done|]. split; [rewrite length_app; lia|].
  by apply Forall_app.
Qed.

(** C5: when the fleet request of a launch attempt fails with the
    launch-template-not-found code, the attempt drops the launch template
    names of the request from the cache and [Create] launches once more;
    what the second attempt returns is final, an error of it goes to the
    caller and no further fleet request is issued. *)
Theorem Create_retries_stale_launch_template_once
  env provider req w configs w1 err :
  let nodeRequest := launchOptions req in
  let capacityType := getCapacityType nodeRequest in
  let input := createFleetInput env provider capacityType configs in
  getLaunchTemplateConfigs env provider nodeRequest capacityType w
  = Done (ok configs) w1 ->
  ec2_CreateFleet env (log w1) input = fail err ->
  isLaunchTemplateNotFound (Some err) = true ->
  exists w2,
    launchInstance env provider nodeRequest w
    = Done (fail (wrapf "creating fleet" err)) w2
    /\ log w2 = log w1 ++ [CreateFleetCall input]
    /\ (forall c, c ∈ configs -> ltCache w2 !! LaunchTemplateName c = None)
    /\ Create env provider req w
       = bind (launchInstance env provider nodeRequest)
              (describeLaunched env nodeRequest) w2
    /\ (forall err2 w3,
          launchInstance env provider nodeRequest w2 = Done (fail err2) w3 ->
          Create env provider req w = Done (fail err2) w3
          /\ exists xs,
               fleetInputs (log w3) = fleetInputs (log w) ++ (input :: xs)
               /\ (length xs <= 1)%nat).
Proof.
  intros nodeRequest capacityType input Hconfigs Hfleet Hstale.
  destruct (launchInstance_fleet_fail _ _ _ _ _ _ _ Hconfigs Hfleet)
    as (e & w2 & Hrun & Hcls & Hlog & _ & Hcache).
  fold nodeRequest capacityType input in Hrun, Hlog, Hcache.
  rewrite Hstale in Hcache, Hcls. destruct Hcache as (-> & Hgone & _).
  exists w2. split; [done|]. split; [done|]. split; [done|].
  assert (Create env provider req w
          = bind (launchInstance env provider nodeRequest)
                 (describeLaunched env nodeRequest) w2) as Hcreate.
  { rewrite Create_unfold. fold nodeRequest. by rewrite Hrun, Hcls. }
  split; [done|].
  intros err2 w3 Hsecond. rewrite Hcreate. unfold bind. rewrite Hsecond.
  split; [reflexivity|].
  destruct (launchInstance_fleetInputs _ _ _ _ _ _ Hsecond)
    as (xs & Hlog3 & Hlen & _).
  exists xs. split; [|done].
  rewrite Hlog3, Hlog, fleetInputs_app.
  rewrite (quiet_getLaunchTemplateConfigs _ _ _ _ _ _ _ Hconfigs).
  simpl. by rewrite <- app_assoc.
Qed.

(** C6: the per-offering errors of a fleet response with an
    unfulfillable-capacity code, and only those, put their offering in the
    unavailable-offerings cache under the capacity type of the request;
    a response without an instance makes [Create] return the fleet errors
    after that single fleet request. *)
Theorem fleet_capacity_errors_are_cached
  env provider req w configs w1 output :
  let nodeRequest := launchOptions req in
  let capacityType := getCapacityType nodeRequest in
  let input := createFleetInput env provider capacityType configs in
  getLaunchTemplateConfigs env provider nodeRequest capacityType w
  = Done (ok configs) w1 ->
  ec2_CreateFleet env (log w1) input = ok output ->
  exists w2,
    launchInstance env provider nodeRequest w
    = Done (match launchedId output with
            | Some id => ok id
            | None => fail (combineFleetErrors (Errors output))
            end) w2
    /\ (forall key,
          key ∈ unavailableOfferings w2 <->
          key ∈ unavailableOfferings w1
          \/ exists e, e ∈ Errors output
                       /\ ErrorCode e ∈
                            [ "InsufficientInstanceCapacity";
                              "MaxSpotInstanceCountExceeded";
                              "VcpuLimitExceeded";
                              "UnfulfillableCapacity";
                              "Unsupported" ]
                       /\ key = offeringOf e capacityType)
    /\ log w2 = log w1 ++ [CreateFleetCall input]
    /\ (launchedId output = None ->
        Create env provider req w
        = Done (fail (combineFleetErrors (Errors output))) w2).
Proof.
  intros nodeRequest capacityType input Hconfigs Hfleet.
  destruct (launchInstance_fleet_ok _ _ _ _ _ _ _ Hconfigs Hfleet)
    as (w2 & Hrun & Hlog & _ & Hkeys).
  fold nodeRequest capacityType input in Hrun, Hlog, Hkeys.
  exists w2. split; [done|]. split; [|split; [done|]].
  - intros key. rewrite Hkeys. split.
    + intros [H|(e & Hin & Hu & ->)]; [by left|]. right. exists e.
      split; [done|]. split; [|done]. by apply Contains_spec in Hu.
    + intros [H|(e & Hin & Hu & ->)]; [by left|]. right. exists e.
      split; [done|]. split; [|done]. by apply Contains_spec.
  - intros Hnone. rewrite Create_unfold. fold nodeRequest.
    rewrite Hrun, Hnone. by rewrite combineFleetErrors_not_stale.
Qed.

(** *** The instance types of a fleet request *)

Lemma launchOptions_take (req : NodeRequest) :
  InstanceTypeOptions (launchOptions req)
  = take MaxInstanceTypes (prioritizeInstanceTypes (InstanceTypeOptions req)).
Proof.
  unfold launchOptions. cbn [InstanceTypeOptions].
  case_bool_decide as Hlen; [done|]. symmetry. apply take_ge. lia.
Qed.

Lemma launchOptions_length (req : NodeRequest) :
  (length (InstanceTypeOptions (launchOptions req)) <= MaxInstanceTypes)%nat.
Proof. rewrite launchOptions_take, length_take. lia. Qed.

Lemma getOverrides_types instanceTypeOptions subnets zones capacityType o :
  o ∈ getOverrides instanceTypeOptions subnets zones capacityType ->
  exists it, it ∈ instanceTypeOptions
             /\ OverrideInstanceType o = Some (Name it).
Proof.
  unfold getOverrides. intros Ho.
  apply list_elem_of_omap in Ho as (x & Hx & Hid). simpl in Hid. subst x.
  apply elem_of_lookup_imap in Hx as (i & y & Hf & Hy).
  apply list_elem_of_lookup_2 in Hy.
  rewrite merge_sort_Permutation in Hy.
  apply list_elem_of_In, in_flat_map in Hy as (it & Hit & Hy).
  apply in_map_iff in Hy as (off & <- & _).
  exists it. split; [by apply list_elem_of_In|].
  cbn [Offering_ parentInstanceTypeName] in Hf.
  repeat case_match; simplify_eq; reflexivity.
Qed.

Lemma ensureAll_values env resolved launchTemplates w m w' :
  ensureAll env resolved launchTemplates w = Done (ok m) w' ->
  forall name its, m !! name = Some its ->
    launchTemplates !! name = Some its
    \/ exists t, t ∈ resolved /\ its = ResolvedInstanceTypes t.
Proof.
  revert launchTemplates w.
  induction resolved as [|t rest IH]; intros lts w; cbn [ensureAll].
  - intros [= <- <-] name its H. by left.
  - intros Hrun. apply bind_Done in Hrun as ([lt|err] & w1 & _ & Hrest);
      [|discriminate].
    intros name its Hm.
    destruct (IH _ _ Hrest name its Hm) as [Hl|(t' & Ht' & ->)].
    + apply lookup_insert_Some in Hl as [[_ <-]|[_ Hl]].
      * right. exists t. split; [apply list_elem_of_here|done].
      * by left.
    + right. exists t'. split; [by apply list_elem_of_further|done].
Qed.

Lemma launchTemplateProvider_Get_values env provider nodeRequest labels w m w' :
  resolvesWithin env ->
  launchTemplateProvider_Get env provider nodeRequest labels w
  = Done (ok m) w' ->
  forall name its it, m !! name = Some its -> it ∈ its ->
                      it ∈ InstanceTypeOptions nodeRequest.
Proof.
  intros Hres. unfold launchTemplateProvider_Get.
  destruct (ProviderLaunchTemplateName provider) as [ltName|].
  - intros [= <- <-] name its it Hm Hit.
    apply lookup_singleton_Some in Hm as [_ <-]. done.
  - unfold bind, getLog.
    destruct (amiFamily_Resolve env (log w) provider nodeRequest labels)
      as [resolved|err] eqn:Hresolve; [|discriminate].
    intros Hrun name its it Hm Hit.
    destruct (ensureAll_values _ _ _ _ _ _ Hrun name its Hm)
      as [Hl|(t & Ht & ->)].
    + by rewrite lookup_empty in Hl.
    + by eapply Hres.
Qed.

Lemma getLaunchTemplateConfigs_types
  env provider nodeRequest capacityType w configs w' :
  resolvesWithin env ->
  getLaunchTemplateConfigs env provider nodeRequest capacityType w
  = Done (ok configs) w' ->
  forall config o, config ∈ configs -> o ∈ Overrides config ->
    exists it, it ∈ InstanceTypeOptions nodeRequest
               /\ OverrideInstanceType o = Some (Name it).
Proof.
  intros Hres. unfold getLaunchTemplateConfigs. unfold bind at 1, getLog.
  destruct (subnetProvider_Get env (log w) provider) as [subnets|err];
    [|discriminate].
  intros Hrun. apply bind_Done in Hrun as ([m|err] & w1 & Hget & Hrest);
    [|discriminate].
  cbv zeta in Hrest. case_bool_decide; [discriminate|].
  injection Hrest as <- <-.
  intros config o Hconfig Ho.
  apply list_elem_of_In, filter_In in Hconfig as [Hconfig _].
  apply in_map_iff in Hconfig as ([name its] & <- & Hin).
  apply list_elem_of_In, elem_of_map_to_list in Hin.
  cbn [Overrides] in Ho.
  apply getOverrides_types in Ho as (it & Hit & Htype).
  exists it. split; [|done].
  by eapply launchTemplateProvider_Get_values.
Qed.

Lemma builtFor_types env provider nodeRequest input o :
  resolvesWithin env ->
  builtFor env provider nodeRequest input ->
  o ∈ flat_map Overrides (LaunchTemplateConfigs input) ->
  exists it, it ∈ InstanceTypeOptions nodeRequest
             /\ OverrideInstanceType o = Some (Name it).
Proof.
  intros Hres (configs & w0 & w1 & Hconfigs & ->) Ho.
  cbn [createFleetInput LaunchTemplateConfigs] in Ho.
  apply list_elem_of_In, in_flat_map in Ho as (config & Hc & Ho).
  eapply getLaunchTemplateConfigs_types; eauto; by apply list_elem_of_In.
Qed.

(** C7: the options [Create] launches with are the first
    [MaxInstanceTypes] = 20 of the prioritised options, so at most 20; every
    override of every fleet request it issues names one of them. *)
Theorem Create_launches_with_at_most_MaxInstanceTypes
  env provider req w r w' :
  resolvesWithin env ->
  Create env provider req w = Done r w' ->
  let options := InstanceTypeOptions (launchOptions req) in
  options
  = take 20 (prioritizeInstanceTypes (InstanceTypeOptions req))
  /\ (length options <= 20)%nat
  /\ exists xs,
       fleetInputs (log w') = fleetInputs (log w) ++ xs
       /\ forall input o,
            input ∈ xs ->
            o ∈ flat_map Overrides (LaunchTemplateConfigs input) ->
            exists it, it ∈ options
                       /\ OverrideInstanceType o = Some (Name it).
Proof.
  intros Hres Hrun options.
  split; [apply launchOptions_take|]. split; [apply launchOptions_length|].
  destruct (Create_fleetInputs _ _ _ _ _ _ Hrun) as (xs & Hlog & _ & Hbuilt).
  exists xs. split; [done|]. intros input o Hin Ho.
  rewrite Forall_forall in Hbuilt.
  eapply builtFor_types; eauto.
Qed.

(** *** Panics *)

Lemma total_ret {A} (a : A) : total (ret a).
Proof. intros w. by exists a, w. Qed.

Lemma total_bind {A B} (m : M A) (k : A -> M B) :
  total m -> (forall a, total (k a)) -> total (bind m k).
Proof.
  intros Hm Hk w. destruct (Hm w) as (a & w1 & H1).
  destruct (Hk a w1) as (b & w2 & H2).
  exists b, w2. unfold bind. by rewrite H1.
Qed.

Lemma total_getLog : total getLog.
Proof. intros w. by eexists _, _. Qed.

Lemma total_getCache : total getCache.
Proof. intros w. by eexists _, _. Qed.

Lemma total_setCache c : total (setCache c).
Proof. intros w. by eexists _, _. Qed.

Lemma total_call {A} (c : Call) (answer : list Call -> A) :
  total (call c answer).
Proof. intros w. by eexists _, _. Qed.

Lemma total_CacheUnavailable fleetErr capacityType :
  total (CacheUnavailable fleetErr capacityType).
Proof. intros w. by eexists _, _. Qed.

Create HintDb total.
#[local] Hint Resolve total_ret total_getLog total_getCache total_setCache
  total_call total_CacheUnavailable : total.

Ltac total_step :=
  lazymatch goal with
  | |- total (bind _ _) => apply total_bind; [| intros ?]
  | |- total (match ?x with _ => _ end) => destruct x
  | |- total _ => first [ solve [eauto with total] | progress cbv zeta ]
  end.

Ltac total_tac := repeat total_step.

Lemma total_invalidateAll configs : total (invalidateAll configs).
Proof.
  induction configs as [|c rest IH]; simpl; [apply total_ret|].
  unfold Invalidate. total_tac; apply IH.
Qed.

Lemma total_ensureLaunchTemplate env name :
  total (ensureLaunchTemplate env name).
Proof. unfold ensureLaunchTemplate, createLaunchTemplate. total_tac. Qed.

#[local] Hint Resolve total_invalidateAll total_ensureLaunchTemplate : total.

Lemma total_ensureAll env resolved launchTemplates :
  total (ensureAll env resolved launchTemplates).
Proof.
  revert launchTemplates.
  induction resolved as [|r rest IH]; intros lts; simpl; total_tac; apply IH.
Qed.

#[local] Hint Resolve total_ensureAll : total.

Lemma total_getLaunchTemplateConfigs env provider nodeRequest capacityType :
  total (getLaunchTemplateConfigs env provider nodeRequest capacityType).
Proof.
  unfold getLaunchTemplateConfigs, launchTemplateProvider_Get. total_tac.
Qed.

Lemma total_updateUnavailableOfferingsCache errors capacityType :
  total (updateUnavailableOfferingsCache errors capacityType).
Proof. induction errors as [|e rest IH]; simpl; total_tac; apply IH. Qed.

#[local] Hint Resolve total_getLaunchTemplateConfigs
  total_updateUnavailableOfferingsCache : total.

(** A launch attempt never panics. *)
Lemma total_launchInstance env provider nodeRequest :
  total (launchInstance env provider nodeRequest).
Proof. unfold launchInstance. total_tac. Qed.

Lemma total_getInstance env id : total (getInstance env id).
Proof. unfold getInstance. total_tac. Qed.

Lemma total_retry_Do {A} (more : nat) (f : M (res A)) :
  total f -> total (retry_Do more f).
Proof.
  intros Hf. induction more as [|n IH]; simpl.
  - apply total_bind; [done|]. intros [a|e]; apply total_ret.
  - apply total_bind; [done|]. intros [a|e]; [apply total_ret | apply IH].
Qed.

(** [instanceToNode] panics exactly when the type the instance reports is
    none of the options. *)
Lemma instanceToNode_panics_iff env instance instanceTypes w :
  (exists msg, instanceToNode env instance instanceTypes w = Panic msg)
  <-> ~ requested instanceTypes instance.
Proof.
  unfold instanceToNode, requested.
  destruct (List.find _ instanceTypes) as [it|] eqn:Hfind.
  - apply find_some in Hfind as [Hin Heq]. apply bool_decide_eq_true in Heq.
    split; [by intros [msg H]|]. intros Hno. destruct Hno.
    exists it. split; [by apply list_elem_of_In|done].
  - split; [|by eauto]. intros _ (it & Hin & Heq).
    apply list_elem_of_In in Hin.
    pose proof (find_none _ _ Hfind it Hin) as Hf. simpl in Hf.
    by rewrite bool_decide_eq_true_2 in Hf.
Qed.

(** Where [Create] can panic: in [instanceToNode], on an instance whose
    type was not requested, or on the nil instance left by a describe that
    failed at each of the six attempts. *)
Lemma Create_panic_cases env provider req w msg :
  Create env provider req w = Panic msg ->
  exists id w1,
    (exists instance w2,
       retry_Do 5 (getInstance env id) w1 = Done (ok instance) w2
       /\ ~ requested (InstanceTypeOptions (launchOptions req)) instance)
    \/ (exists e w2,
          retry_Do 5 (getInstance env id) w1 = Done (fail e) w2
          /\ msg = "runtime error: invalid memory address or nil pointer dereference").
Proof.
  rewrite Create_unfold.
  assert (forall launched w1,
            describeLaunched env (launchOptions req) launched w1 = Panic msg ->
            exists id w1,
              (exists instance w2,
                 retry_Do 5 (getInstance env id) w1 = Done (ok instance) w2
                 /\ ~ requested (InstanceTypeOptions (launchOptions req))
                      instance)
              \/ (exists e w2,
                    retry_Do 5 (getInstance env id) w1 = Done (fail e) w2
                    /\ msg = "runtime error: invalid memory address or nil pointer dereference"))
    as Hdescribe.
  { intros [id|err] w1; [|discriminate]. unfold describeLaunched.
    unfold bind at 1.
    destruct (total_retry_Do 5 _ (total_getInstance env id) w1)
      as ([instance|e] & w2 & Hretry); rewrite Hretry.
    - intros Hpanic. exists id, w1. left. exists instance, w2.
      split; [done|]. apply (instanceToNode_panics_iff env _ _ w2).
      unfold bind in Hpanic.
      destruct (instanceToNode _ _ _ w2) as [node w3|msg'] eqn:Hnode;
        [discriminate|by eauto].
    - intros [= <-]. exists id, w1. right. by exists e, w2. }
  destruct (total_launchInstance env provider (launchOptions req) w)
    as (first & w1 & Hfirst). rewrite Hfirst.
  destruct first as [id|err]; [by apply Hdescribe|].
  destruct (isLaunchTemplateNotFound (Some err)); [|discriminate].
  unfold bind.
  destruct (total_launchInstance env provider (launchOptions req) w1)
    as (second & w2 & Hsecond). rewrite Hsecond. by apply Hdescribe.
Qed.

(** *** Worked launches *)

Lemma Create_retries_stale_launch_template_once_witness :
  exists w2,
    launchInstance staleEC2 someProvider (launchOptions smallRequest)
      cachedWorld
    = Done (fail (wrapf "creating fleet" staleError)) w2
    /\ log w2
       = log cachedWorld
         ++ [CreateFleetCall
               (createFleetInput staleEC2 someProvider
                  (getCapacityType (launchOptions smallRequest))
                  smallConfigs)]
    /\ (forall c, c ∈ smallConfigs ->
                  ltCache w2 !! LaunchTemplateName c = None)
    /\ Create staleEC2 someProvider smallRequest cachedWorld
       = bind (launchInstance staleEC2 someProvider
                 (launchOptions smallRequest))
              (describeLaunched staleEC2 (launchOptions smallRequest)) w2
    /\ (forall err2 w3,
          launchInstance staleEC2 someProvider (launchOptions smallRequest) w2
          = Done (fail err2) w3 ->
          Create staleEC2 someProvider smallRequest cachedWorld
          = Done (fail err2) w3
          /\ exists xs,
               fleetInputs (log w3)
               = fleetInputs (log cachedWorld)
                 ++ (createFleetInput staleEC2 someProvider
                       (getCapacityType (launchOptions smallRequest))
                       smallConfigs :: xs)
               /\ (length xs <= 1)%nat).
Proof.
  apply (Create_retries_stale_launch_template_once
           staleEC2 someProvider smallRequest
           cachedWorld smallConfigs cachedWorld staleError).
  - vm_compute. reflexivity.
  - vm_compute. reflexivity.
  - vm_compute. reflexivity.
Defined.

(** After the retry the instance is launched from a fresh template. *)
Example Create_after_stale_template :
  exists node w,
    Create staleEC2 someProvider smallRequest cachedWorld = Done (ok node) w
    /\ NodeName node = "ip-10-0-0-1.us-west-2.compute.internal"
    /\ length (fleetInputs (log w)) = 2%nat
    /\ is_Some (ltCache w !! "Karpenter-test-1").
Proof.
  eexists _, _. split; [vm_compute; reflexivity|].
  split; [reflexivity|]. split; [reflexivity|]. by eexists.
Qed.

Lemma fleet_capacity_errors_are_cached_witness :
  exists w2,
    launchInstance exhaustedEC2 someProvider (launchOptions smallRequest)
      emptyWorld
    = Done (fail (combineFleetErrors (Errors noCapacityOutput))) w2
    /\ ("m5.large", "us-west-2a", "spot") ∈ unavailableOfferings w2
    /\ (("c5.large", "us-west-2b", "spot") ∉ unavailableOfferings w2)
    /\ Create exhaustedEC2 someProvider smallRequest emptyWorld
       = Done (fail (combineFleetErrors (Errors noCapacityOutput))) w2.
Proof.
  destruct (fleet_capacity_errors_are_cached
              exhaustedEC2 someProvider smallRequest emptyWorld
              exhaustedConfigs exhaustedWorld1 noCapacityOutput)
    as (w2 & Hrun & Hkeys & _ & Hcreate).
  - vm_compute. reflexivity.
  - vm_compute. reflexivity.
  - exists w2. split; [exact Hrun|]. split; [|split].
    + apply Hkeys. right. eexists. split; [apply list_elem_of_here|].
      split; [apply list_elem_of_here|reflexivity].
    + intros Hin. apply Hkeys in Hin as [Hin|(e & He & Hcode & Heq)].
      * vm_compute in Hin. discriminate.
      * apply elem_of_cons in He as [->|He].
        -- discriminate.
        -- apply list_elem_of_singleton in He as ->. vm_compute in Hcode.
           repeat (apply elem_of_cons in Hcode as [Hcode|Hcode];
                   [discriminate|]).
           by apply elem_of_nil in Hcode.
    + apply Hcreate. reflexivity.
Defined.

Lemma testEnv_resolvesWithin fleet describe :
  resolvesWithin (testEnv fleet describe).
Proof.
  intros l provider nodeRequest labels resolved [= <-] t it Ht Hit.
  apply list_elem_of_singleton in Ht as ->. exact Hit.
Qed.

Example wideRequest_is_cut :
  length (InstanceTypeOptions wideRequest) = 22%nat
  /\ length (InstanceTypeOptions (launchOptions wideRequest)) = 20%nat.
Proof. split; reflexivity. Qed.

Lemma Create_launches_with_at_most_MaxInstanceTypes_witness :
  InstanceTypeOptions (launchOptions wideRequest)
  = take 20 (prioritizeInstanceTypes (InstanceTypeOptions wideRequest))
  /\ (length (InstanceTypeOptions (launchOptions wideRequest)) <= 20)%nat
  /\ exists xs,
       fleetInputs (log (worldOf wideOutcome))
       = fleetInputs (log emptyWorld) ++ xs
       /\ forall input o,
            input ∈ xs ->
            o ∈ flat_map Overrides (LaunchTemplateConfigs input) ->
            exists it, it ∈ InstanceTypeOptions (launchOptions wideRequest)
                       /\ OverrideInstanceType o = Some (Name it).
Proof.
  apply (Create_launches_with_at_most_MaxInstanceTypes
           healthyEC2 someProvider wideRequest emptyWorld
           wideNode (worldOf wideOutcome)).
  - apply testEnv_resolvesWithin.
  - vm_compute. reflexivity.
Defined.

(** *** The describe that never succeeds *)

Lemma getInstance_fails env id w :
  (forall l, exists e, ec2_DescribeInstances env l id = fail e) ->
  exists e w', getInstance env id w = Done (fail e) w'.
Proof.
  intros Hfail. unfold getInstance. unfold bind. rewrite call_run.
  destruct (Hfail (log w)) as (e & ->).
  destruct (isNotFound (Some e)); by eexists _, _.
Qed.

Lemma retry_Do_keeps_failing env id more w :
  (forall l, exists e, ec2_DescribeInstances env l id = fail e) ->
  exists e w', retry_Do more (getInstance env id) w = Done (fail e) w'.
Proof.
  intros Hfail. revert w. induction more as [|n IH]; intros w; cbn [retry_Do].
  - destruct (getInstance_fails env id w Hfail) as (e & w' & Hget).
    unfold bind. rewrite Hget. by eexists _, _.
  - destruct (getInstance_fails env id w Hfail) as (e & w' & Hget).
    unfold bind. rewrite Hget. apply IH.
Qed.

(** C9: [Create] is not total, even when the fleet launches a requested
    instance type only.  Once an instance is launched, if describing it
    fails at each of the six attempts, the error message is built through
    the nil instance the last attempt left, and [Create] panics. *)
Theorem Create_panics_when_describe_keeps_failing
  env provider req w id w1 :
  launchInstance env provider (launchOptions req) w = Done (ok id) w1 ->
  (forall l, exists e, ec2_DescribeInstances env l id = fail e) ->
  Create env provider req w
  = Panic "runtime error: invalid memory address or nil pointer dereference".
Proof.
  intros Hlaunch Hfail. rewrite Create_unfold, Hlaunch.
  unfold describeLaunched.
  destruct (retry_Do_keeps_failing env id 5 w1 Hfail) as (e & w2 & Hretry).
  unfold bind. by rewrite Hretry.
Qed.

Lemma Create_panics_when_describe_keeps_failing_witness :
  Create lostEC2 someProvider smallRequest emptyWorld
  = Panic "runtime error: invalid memory address or nil pointer dereference".
Proof.
  apply (Create_panics_when_describe_keeps_failing
           lostEC2 someProvider smallRequest emptyWorld "i-1" launchedWorld).
  - vm_compute. reflexivity.
  - intros l. eexists. reflexivity.
Defined.

(** The fleet request of that launch names the requested type only. *)
Example lost_launch_requested_m5_large :
  List.map (fun input =>
              omap OverrideInstanceType
                   (flat_map Overrides (LaunchTemplateConfigs input)))
           (fleetInputs (log launchedWorld))
  = [[ "m5.large" ]].
Proof. vm_compute. reflexivity. Qed.

End InstanceProviderProps.

(** ** Drift *)

Section DriftProps.
Import GoError Core Drift DriftExamples.








Example IsMachineDrifted_no_compatible_ami :
  IsMachineDrifted (driftEnv [armImage] None) someMachine
  = (false, Some (errorf "no instance types satisfy requirements of amis")).
Proof. vm_compute. reflexivity. Qed.

(** With a launch template name the images are not compared at all. *)
Example IsMachineDrifted_ignores_images_of_launch_templates :
  IsMachineDrifted (driftEnv [newImage] (Some "my-template")) someMachine
  = (false, None)
  /\ ImageID (instance (lookupsOf [newImage] (Some "my-template")))
     ∉ compatibleAMIs (lookupsOf [newImage] (Some "my-template")).
Proof. split; vm_compute; [reflexivity|discriminate]. Qed.


End DriftProps.

(** ** Consolidation *)

Section ConsolidationProps.
Import GoError Core Consolidation ConsolidationExamples.

(** The decision of the sources never replaces a spot node by a spot
    node. *)
Lemma source_never_replaces_spot_by_spot env node :
  result (nodeConsolidationOptionReplaceOrDelete env node).1
  = consolidateResultReplace ->
  exists replacement,
    replacementNode (nodeConsolidationOptionReplaceOrDelete env node).1
    = Some replacement
    /\ bothSpot [node] replacement = false
    /\ (0 < length (NewNodeOptions replacement))%nat.
Proof.
  unfold nodeConsolidationOptionReplaceOrDelete.
  destruct (candidateNodeIsDeleting env (Name node)); [discriminate|].
  destruct (GetNodePods env) as [deleting|e]; [|discriminate].
  destruct (NewScheduler env _) as [e|]; [discriminate|].
  destruct (Solve env _) as [[newNodes inflight]|e]; [|discriminate].
  destruct (_ && _); [discriminate|].
  destruct newNodes as [|newNode [|n2 rest]]; try discriminate.
  destruct (GetOffering env _ _ _) as [offering|]; [|discriminate].
  case_bool_decide as Hlen; [discriminate|].
  destruct (_ && _) eqn:Hspot; [discriminate|].
  intros _. eexists. split; [reflexivity|].
  split; [|cbn; lia].
  unfold bothSpot. cbn. by rewrite andb_true_r.
Qed.

Lemma optionSet_size_0 (replacement : NewNode) :
  size (optionSet replacement) = 0%nat <-> NewNodeOptions replacement = [].
Proof.
  unfold optionSet. rewrite size_empty_iff.
  destruct (NewNodeOptions replacement) as [|it rest]; [done|].
  split; [|done]. intros Hempty. exfalso.
  apply (not_elem_of_empty (C:=gset string) (InstanceTypeName it)).
  rewrite <- Hempty. cbn. set_solver.
Qed.

(** With the feature gate off, the rule of the documentation decides a
    single-node replacement as the sources do. *)
Lemma source_is_gate_off env node deleting newNode inflight offering :
  candidateNodeIsDeleting env (Name node) = false ->
  GetNodePods env = ok deleting ->
  NewScheduler env (pods node ++ deleting) = None ->
  Solve env (pods node ++ deleting) = ok ([newNode], inflight) ->
  GetOffering env (instanceType node) (capacityType node) (zone node)
  = Some offering ->
  (nodeConsolidationOptionReplaceOrDelete env node).1
  = replaceDecision false [node]
      {| NewNodeOptions :=
           filterByPrice env (NewNodeOptions newNode)
             (NewNodeRequirements newNode) (Price offering);
         NewNodeRequirements := NewNodeRequirements newNode |}.
Proof.
  intros Hdel Hpods Hsched Hsolve Hoff.
  unfold nodeConsolidationOptionReplaceOrDelete, replaceDecision, bothSpot.
  rewrite Hdel, Hpods, Hsched, Hsolve, Hoff. cbn.
  rewrite (bool_decide_eq_false_2 (1%nat = 0%nat)) by lia. cbn.
  rewrite andb_true_r.
  set (options := filterByPrice _ _ _ _).
  rewrite (bool_decide_ext
             (size (list_to_set (List.map InstanceTypeName options)
                      : gset string) = 0%nat)
             (length options = 0%nat)).
  2:{ rewrite length_zero_iff_nil.
      apply (optionSet_size_0
               {| NewNodeOptions := options;
                  NewNodeRequirements := NewNodeRequirements newNode |}). }
  case_bool_decide; [done|]. by destruct (_ && _).
Qed.

(** C2: [SPOT_FLEX_MIN] is 15.  A single-node decision about a spot node
    and a spot replacement is Replace exactly when the feature gate is on
    and the set of instance types offered for the replacement, each
    counted once however often the options list it, has at least
    [SPOT_FLEX_MIN] members; it then replaces that node by that
    replacement, and otherwise is not possible.  A multi-node decision
    between spot nodes and a spot replacement is exempt: with the gate
    on it is Replace as soon as one instance type is offered. *)
Theorem spot_to_spot_replacement_is_flexible :
  SPOT_FLEX_MIN = 15%nat
  /\ (forall gate candidate replacement,
        bothSpot [candidate] replacement = true ->
        let action := replaceDecision gate [candidate] replacement in
        (result action = consolidateResultReplace
         <-> gate = true
             /\ (SPOT_FLEX_MIN <= size (optionSet replacement))%nat)
        /\ (result action = consolidateResultReplace ->
            oldNodes action = [Name candidate]
            /\ replacementNode action = Some replacement)
        /\ (result action <> consolidateResultReplace ->
            action = noAction consolidateResultNotPossible))
  /\ (forall gate candidates replacement,
        (1 < length candidates)%nat ->
        bothSpot candidates replacement = true ->
        (result (replaceDecision gate candidates replacement)
         = consolidateResultReplace
         <-> gate = true /\ optionSet replacement <> ∅)).
Proof.
  split; [reflexivity|]. split.
  - intros gate candidate replacement Hspot. cbv zeta.
    unfold replaceDecision. rewrite Hspot.
    case_bool_decide as Hempty.
    { split; [|by split].
      split; [discriminate|]. intros [_ Hmin].
      unfold SPOT_FLEX_MIN in Hmin. lia. }
    destruct gate; cbn [negb].
    2:{ split; [|by split]. split; [discriminate|]. by intros [? _]. }
    rewrite bool_decide_eq_true_2 by reflexivity. cbn [andb].
    case_bool_decide as Hfew.
    + split; [|by split]. split; [discriminate|]. intros [_ Hmin]. lia.
    + cbn. split; [|by split]. split; [|done]. intros _. split; [done|lia].
  - intros gate candidates replacement Hmany Hspot.
    unfold replaceDecision. rewrite Hspot.
    assert (optionSet replacement <> ∅
            <-> size (optionSet replacement) <> 0%nat) as ->.
    { rewrite size_non_empty_iff. by fold_leibniz. }
    case_bool_decide as Hempty.
    { split; [discriminate|]. by intros [_ ?]. }
    destruct gate; cbn [negb].
    2:{ split; [discriminate|]. by intros [? _]. }
    rewrite (bool_decide_eq_false_2 (length candidates = 1%nat)) by lia.
    cbn. by split.
Qed.

(** Scenario S4: fourteen cheaper spot types are not enough. *)
Example fourteen_options_are_not_enough :
  result (replaceDecision true [spotCandidate "n1"] (spotReplacement 14))
  = consolidateResultNotPossible.
Proof. vm_compute. reflexivity. Qed.

(** Fifteen options that are one instance type are not enough either. *)
Example one_type_listed_fifteen_times_is_not_enough :
  length (NewNodeOptions (repeatedReplacement 15)) = 15%nat
  /\ size (optionSet (repeatedReplacement 15)) = 1%nat
  /\ result (replaceDecision true [spotCandidate "n1"]
               (repeatedReplacement 15))
     = consolidateResultNotPossible.
Proof. repeat split; vm_compute; reflexivity. Qed.

Example multi_node_is_exempt :
  result (replaceDecision true [spotCandidate "n1"; spotCandidate "n2"]
            (spotReplacement 1))
  = consolidateResultReplace.
Proof. vm_compute. reflexivity. Qed.

Lemma spot_to_spot_replacement_is_flexible_witness :
  (15 <= size (optionSet (spotReplacement 15)))%nat
  /\ oldNodes (replaceDecision true [spotCandidate "n1"] (spotReplacement 15))
     = ["n1"]
  /\ replacementNode
       (replaceDecision true [spotCandidate "n1"] (spotReplacement 15))
     = Some (spotReplacement 15).
Proof.
  destruct spot_to_spot_replacement_is_flexible as (Hmin & Hsingle & _).
  destruct (Hsingle true (spotCandidate "n1") (spotReplacement 15))
    as (Hiff & Hreplace & _).
  - vm_compute. reflexivity.
  - assert (result (replaceDecision true [spotCandidate "n1"]
                      (spotReplacement 15))
            = consolidateResultReplace) as Hres.
    { vm_compute. reflexivity. }
    split.
    + rewrite <- Hmin. by apply Hiff.
    + by apply Hreplace.
Defined.

End ConsolidationProps.

(** ** Disruption budgets *)

Section BudgetProps.
Import Budgets BudgetExamples.

Lemma ceilDiv_spec (a b : Z) :
  0 < b -> b * (ceilDiv a b - 1) < a <= b * ceilDiv a b.
Proof.
  intros Hb. unfold ceilDiv.
  pose proof (Z.div_mod (- a) b ltac:(lia)) as Hdm.
  pose proof (Z.mod_pos_bound (- a) b Hb) as Hmod.
  nia.
Qed.

Lemma ceilDiv_unique (a b k : Z) :
  0 < b -> b * (k - 1) < a <= b * k -> ceilDiv a b = k.
Proof.
  intros Hb Hk. pose proof (ceilDiv_spec a b Hb) as Hc. nia.
Qed.

(** The running minimum is the least [allowed] seen so far. *)
Lemma minAllowed_lower c bs acc m :
  minAllowed c bs acc = Some m ->
  (forall a, acc = Some a -> m <= a)
  /\ (forall b, b ∈ bs -> m <= allowed c b).
Proof.
  revert acc. induction bs as [|b rest IH]; intros acc; cbn [minAllowed].
  - intros ->. split; [intros a [= ->]; lia|].
    intros b Hb. by apply elem_of_nil in Hb.
  - intros Hrun. destruct (IH _ Hrun) as [Hacc Hrest]. split.
    + intros a ->. specialize (Hacc _ eq_refl). lia.
    + intros b' [->|Hb']%elem_of_cons; [|by apply Hrest].
      destruct acc as [a|]; specialize (Hacc _ eq_refl); lia.
Qed.

Lemma minAllowed_attained c bs acc m :
  minAllowed c bs acc = Some m ->
  acc = Some m \/ exists b, b ∈ bs /\ m = allowed c b.
Proof.
  revert acc. induction bs as [|b rest IH]; intros acc; cbn [minAllowed].
  - by left.
  - intros Hrun. destruct (IH _ Hrun) as [Hacc|(b' & Hb' & ->)].
    + injection Hacc as <-. destruct acc as [a|].
      * destruct (Z.min_spec a (allowed c b)) as [[_ ->]|[_ ->]].
        -- by left.
        -- right. exists b. split; [apply list_elem_of_here|done].
      * right. exists b. split; [apply list_elem_of_here|done].
    + right. exists b'. split; [by apply list_elem_of_further|done].
Qed.

Lemma minAllowed_is_Some c bs acc :
  bs <> [] -> exists m, minAllowed c bs acc = Some m.
Proof.
  revert acc. induction bs as [|b rest IH]; intros acc Hne; [done|].
  cbn [minAllowed]. destruct rest as [|b' rest'].
  - by eexists.
  - by apply IH.
Qed.

Lemma activeBudgets_spec p r t b :
  b ∈ activeBudgets p r t <->
  b ∈ effectiveBudgets p /\ isActive r t b = true.
Proof.
  unfold activeBudgets. rewrite !list_elem_of_In, filter_In. tauto.
Qed.

(** C1: the calculator returns the minimum, over the budgets active for
    the reason at the time, of the disruptions each allows, clamped at
    zero: the count for an absolute budget, the percentage of the pool
    rounded up for a percentage budget, less the deleting and not-ready
    nodes; a pool without budgets is treated as one with the default 10%
    budget for all reasons. *)
Theorem allowedDisruptions_is_clamped_minimum
  (p : Pool) (c : Counts) (r : Reason) (t : Z) :
  (activeBudgets p r t <> [] ->
   exists b,
     b ∈ activeBudgets p r t
     /\ (forall b', b' ∈ activeBudgets p r t -> allowed c b <= allowed c b')
     /\ allowedDisruptions p c r t = Some (Z.max 0 (allowed c b)))
  /\ (forall b pct,
        nodes b = Percent pct ->
        exists k,
          allowed c b = k - (deleting c + notReady c)
          /\ 100 * (k - 1) < total c * pct <= 100 * k)
  /\ (forall b absolute,
        nodes b = Count absolute ->
        allowed c b = absolute - (deleting c + notReady c))
  /\ (budgets p = [] ->
      allowedDisruptions p c r t
      = allowedDisruptions {| budgets := [defaultBudget] |} c r t
      /\ allowedDisruptions p c r t
         = Some (Z.max 0
                   (ceilDiv (total c * 10) 100 - (deleting c + notReady c)))).
Proof.
  split; [|split; [|split]].
  - intros Hne. unfold allowedDisruptions.
    destruct (minAllowed_is_Some c _ None Hne) as (m & Hm).
    destruct (minAllowed_attained _ _ _ _ Hm) as [Hacc|(b & Hb & ->)];
      [discriminate|].
    exists b. split; [done|]. split.
    + intros b' Hb'. by apply (minAllowed_lower _ _ _ _ Hm).
    + by rewrite Hm.
  - intros b pct Hb. unfold allowed. rewrite Hb.
    exists (ceilDiv (total c * pct) 100).
    split; [reflexivity|].
    exact (ceilDiv_spec (total c * pct) 100 eq_refl).
  - intros b absolute Hb. unfold allowed. by rewrite Hb.
  - intros Hnone. unfold allowedDisruptions, activeBudgets, effectiveBudgets.
    rewrite Hnone. split; [reflexivity|].
    cbn [List.filter]. assert (isActive r t defaultBudget = true) as ->.
    { unfold isActive, defaultBudget. cbn [reasons window].
      rewrite (bool_decide_eq_true_2 (@nil Reason = [])) by done.
      by rewrite orb_true_r. }
    reflexivity.
Qed.

(** Scenario S2: nineteen nodes and a 20% budget allow four drifted nodes. *)
Example nineteen_nodes_allow_four :
  allowedDisruptions documentedPool nineteenNodes Drifted 725 = Some 4.
Proof. reflexivity. Qed.

(** Scenario S3: five minutes past midnight no underutilized node may be
    disrupted; later in the day five may. *)
Example window_closes_underutilized :
  allowedDisruptions documentedPool nineteenNodes Underutilized (1440 * 3 + 5)
  = Some 0
  /\ allowedDisruptions documentedPool nineteenNodes Underutilized
       (1440 * 3 + 600)
     = Some 5.
Proof. split; reflexivity. Qed.

Lemma allowedDisruptions_is_clamped_minimum_witness :
  exists b,
    b ∈ activeBudgets documentedPool Drifted 725
    /\ (forall b', b' ∈ activeBudgets documentedPool Drifted 725 ->
                   allowed nineteenNodes b <= allowed nineteenNodes b')
    /\ allowedDisruptions documentedPool nineteenNodes Drifted 725
       = Some (Z.max 0 (allowed nineteenNodes b)).
Proof.
  apply (allowedDisruptions_is_clamped_minimum
           documentedPool nineteenNodes Drifted 725).
  vm_compute. discriminate.
Defined.

End BudgetProps.

(** ** Draining *)

Section TerminationProps.
Import Termination TerminationExamples.



Lemma reconcile_draining_kept st now g p :
  phase st = Draining ->
  terminationGracePeriod st = Some g ->
  p ∈ remaining st ->
  now < drainStart st + (g - terminationGracePeriodSeconds p) ->
  p ∈ remaining (reconcile now st).
Proof.
  intros Hphase Hg Hp Hearly. unfold reconcile. rewrite Hphase.
  cbn [remaining]. apply list_elem_of_In, filter_In.
  split; [by apply list_elem_of_In|].
  unfold due. rewrite Hg. apply negb_true_iff, bool_decide_eq_false. lia.
Qed.

(** *** Runs *)









(** *** One pass over a draining node *)






(** *** What a run keeps *)





(** *** The end of the node's grace period *)


(** *** The instant of a forced deletion *)

Section ForcedDeletion.
Variables (st0 : NodeState) (g : Z) (p : Pod).
Hypothesis own_fits : terminationGracePeriodSeconds p <= g.




End ForcedDeletion.


(** Scenario S5: the pod is left alone until 55 minutes into the drain,
    is force-deleted then with its 300 s, and the instance is terminated
    at the hour. *)
Example stubborn_pod_survives_until_55_minutes :
  remaining (reconcile (1000 + 3299) drainingNode) = [stubbornPod]
  /\ forced (reconcile (1000 + 3300) drainingNode)
     = [ {| deletedPod := stubbornPod; deletedAt := 4300;
            gracePeriod := 300 |} ]
  /\ timely 1000 drainingNode
       [Reconcile 2000; Reconcile 4300; Reconcile 4600] = true
  /\ terminatedAt
       (run drainingNode [Reconcile 2000; Reconcile 4300; Reconcile 4600])
     = Some 4600.
Proof. repeat split; reflexivity. Qed.

(** A run that lets the instant of the forced deletion or the end of the
    node's grace period pass without a reconcile is not timely. *)
Example late_reconcile_is_not_timely :
  timely 1000 drainingNode [Reconcile 2000; Reconcile 4599; Reconcile 4601]
  = false
  /\ timely 1000 drainingNode [Reconcile 2000; Reconcile 4300; Reconcile 4601]
     = false.
Proof. split; reflexivity. Qed.


End TerminationProps.

(** ** Error tests (errors.go) *)

Section ErrorsProps.
Import GoError AwsErrors.

(** X13: The three tests of errors.go agree with each other: [nil]
    passes none of them; a launch-template-not-found error is a
    not-found error, and the only other not-found errors are those whose
    first AWS error has the code InvalidInstanceID.NotFound; wrapping an
    error with the verb w changes none of the tests, and an error
    without an AWS error in its chain is never a not-found error. *)
Theorem not_found_tests_agree (err : option error) :
  (err = None ->
   isNotFound err = false /\ isLaunchTemplateNotFound err = false
   /\ isInstanceTerminated err = false)
  /\ (isNotFound err = true <->
      isLaunchTemplateNotFound err = true
      \/ exists e, err = Some e
                   /\ asAwsError e = Some "InvalidInstanceID.NotFound")
  /\ (forall e, err = Some e -> asAwsError e = None ->
                isNotFound err = false
                /\ isLaunchTemplateNotFound err = false)
  /\ (forall e msg,
        err = Some e ->
        isNotFound (Some (wrapf msg e)) = isNotFound err
        /\ isLaunchTemplateNotFound (Some (wrapf msg e))
           = isLaunchTemplateNotFound err
        /\ isInstanceTerminated (Some (wrapf msg e))
           = isInstanceTerminated err).
Proof.
  split; [by intros ->|].
  split.
  - destruct err as [e|]; simpl.
    2:{ split; [done|]. intros [?|(e & ? & _)]; done. }
    destruct (asAwsError e) as [code|] eqn:Hcode.
    2:{ split; [done|]. intros [?|(e' & [= <-] & He')]; [done|congruence]. }
    unfold Contains, notFoundErrorCodes.
    rewrite !bool_decide_eq_true, !elem_of_cons, elem_of_nil.
    split.
    + intros [->|[->|[]]]; [right|by left]. by exists e.
    + intros [->|(e' & [= <-] & He')]; [by right; left|].
      left. congruence.
  - split.
    + intros e -> He. simpl. by rewrite He.
    + by intros e msg ->.
Qed.

End ErrorsProps.

(** ** The instance provider: overrides, describe and terminate calls,
       launch templates *)

Section InstanceProviderMore.
Import GoError AwsErrors Core EC2 InstanceProvider InstanceProviderCalls.

(** *** prioritizeInstanceTypes *)

Lemma filter_sublist {A} (f : A -> bool) (l : list A) :
  sublist (List.filter f l) l.
Proof.
  induction l as [|x l IH]; simpl; [constructor|].
  destruct (f x); by constructor.
Qed.

Lemma elem_of_List_filter {A} (f : A -> bool) (l : list A) (x : A) :
  x ∈ List.filter f l <-> x ∈ l /\ f x = true.
Proof.
  split.
  - intros H%list_elem_of_In%filter_In. destruct H as [H1 H2].
    split; [by apply list_elem_of_In|done].
  - intros [H1%list_elem_of_In H2]. apply list_elem_of_In, filter_In.
    by split.
Qed.

(** X1: [prioritizeInstanceTypes] keeps the order of the options and
    invents none; it never empties a non-empty list; when some option is
    generic it returns exactly the generic options, and otherwise the
    options as they came. *)
Theorem prioritizeInstanceTypes_prefers_generic
  (instanceTypes : list InstanceType) :
  sublist (prioritizeInstanceTypes instanceTypes) instanceTypes
  /\ (instanceTypes <> [] -> prioritizeInstanceTypes instanceTypes <> [])
  /\ ((exists it, it ∈ instanceTypes /\ isGeneric it = true) ->
      forall it, it ∈ prioritizeInstanceTypes instanceTypes
                 <-> it ∈ instanceTypes /\ isGeneric it = true)
  /\ ((forall it, it ∈ instanceTypes -> isGeneric it = false) ->
      prioritizeInstanceTypes instanceTypes = instanceTypes).
Proof.
  unfold prioritizeInstanceTypes. cbv zeta.
  case_bool_decide as Hlen.
  - split; [apply filter_sublist|]. split.
    { intros _ Heq. rewrite Heq in Hlen. by apply Hlen. }
    split.
    { intros _ it. apply elem_of_List_filter. }
    intros Hnone. exfalso. apply Hlen.
    destruct (List.filter isGeneric instanceTypes) as [|it rest] eqn:Hf;
      [done|].
    assert (it ∈ List.filter isGeneric instanceTypes) as Hin
      by (rewrite Hf; apply list_elem_of_here).
    apply elem_of_List_filter in Hin as [Hin Hg].
    rewrite (Hnone it Hin) in Hg. discriminate.
  - split; [reflexivity|]. split; [done|]. split; [|done].
    intros (it & Hin & Hg). exfalso.
    assert (it ∈ List.filter isGeneric instanceTypes) as Hin'
      by (by apply elem_of_List_filter).
    apply length_zero_iff_nil in Hlen. rewrite Hlen in Hin'.
    by apply elem_of_nil in Hin'.
Qed.

End InstanceProviderMore.

Section GetOverridesProps.
Import GoError AwsErrors Core EC2 InstanceProvider InstanceProviderCalls.

(** *** getOverrides *)

Lemma subnet_le_trans : Transitive subnet_le.
Proof. intros a b c. unfold subnet_le. lia. Qed.

Lemma subnet_le_total : Total subnet_le.
Proof. intros a b. unfold subnet_le. lia. Qed.

(** The map [getOverrides] fills from the sorted subnets holds, for a
    zone, the last subnet of that zone. *)
Lemma zonalSubnets_lookup (l : list Subnet) (m0 : gmap string Subnet)
  (z : string) (s : Subnet) :
  fold_left (fun m subnet => <[SubnetAvailabilityZone subnet := subnet]> m)
            l m0 !! z = Some s ->
  (SubnetAvailabilityZone s = z
   /\ exists l1 l2, l = l1 ++ s :: l2
                    /\ Forall (fun s' => SubnetAvailabilityZone s' <> z) l2)
  \/ (m0 !! z = Some s
      /\ Forall (fun s' => SubnetAvailabilityZone s' <> z) l).
Proof.
  revert m0. induction l as [|x l IH]; intros m0; simpl.
  - intros H. right. by split.
  - intros H. destruct (IH _ H) as [(Hz & l1 & l2 & -> & Hl2)|[Hm Hall]].
    + left. split; [done|]. by exists (x :: l1), l2.
    + destruct (decide (SubnetAvailabilityZone x = z)) as [Heq|Hne].
      * rewrite <- Heq, lookup_insert_eq in Hm. injection Hm as ->.
        left. split; [done|]. by exists [], l.
      * rewrite lookup_insert_ne in Hm by done. right. split; [done|].
        by constructor.
Qed.

Lemma zonalSubnets_is_Some (l : list Subnet) (m0 : gmap string Subnet)
  (z : string) :
  is_Some (m0 !! z) \/ (exists s, s ∈ l /\ SubnetAvailabilityZone s = z) ->
  is_Some (fold_left
             (fun m subnet => <[SubnetAvailabilityZone subnet := subnet]> m)
             l m0 !! z).
Proof.
  revert m0. induction l as [|x l IH]; intros m0 H; simpl.
  - destruct H as [H|(s & Hin & _)]; [done|]. by apply elem_of_nil in Hin.
  - apply IH.
    destruct (decide (SubnetAvailabilityZone x = z)) as [<-|Hne].
    { left. rewrite lookup_insert_eq. by eexists. }
    destruct H as [H|(s & Hin & Hz)].
    + left. by rewrite lookup_insert_ne.
    + apply elem_of_cons in Hin as [->|Hin]; [done|]. right. by exists s.
Qed.

Lemma elem_of_unwrap its (x : offeringWithParentName) :
  x ∈ unwrap its <->
  exists it, it ∈ its /\ Offering_ x ∈ AvailableOfferings it
             /\ parentInstanceTypeName x = Name it.
Proof.
  unfold unwrap. split.
  - intros H%list_elem_of_In%in_flat_map. destruct H as (it & Hit & Hx).
    apply in_map_iff in Hx as (o & <- & Ho). exists it.
    split; [by apply list_elem_of_In|]. split; [by apply list_elem_of_In|done].
  - intros (it & Hit & Ho & Hn). apply list_elem_of_In, in_flat_map.
    exists it. split; [by apply list_elem_of_In|].
    apply in_map_iff. exists (Offering_ x).
    split; [destruct x; simpl in *; by subst|by apply list_elem_of_In].
Qed.

Lemma getOverrides_elem its subnets zones capacityType (o : Override) :
  o ∈ getOverrides its subnets zones capacityType <->
  exists i offering subnet,
    merge_sort price_le (unwrap its) !! i = Some offering
    /\ CapacityType (Offering_ offering) = capacityType
    /\ Has zones (Zone (Offering_ offering)) = true
    /\ fold_left
         (fun m subnet => <[SubnetAvailabilityZone subnet := subnet]> m)
         (merge_sort subnet_le subnets) (∅ : gmap string Subnet)
       !! Zone (Offering_ offering) = Some subnet
    /\ o = {| OverrideInstanceType := Some (parentInstanceTypeName offering);
              OverrideSubnetId := SubnetId subnet;
              OverrideAvailabilityZone :=
                Some (SubnetAvailabilityZone subnet);
              Priority := if bool_decide (capacityType = CapacityTypeSpot)
                          then Some i else None |}.
Proof.
  unfold getOverrides. cbv zeta. fold (unwrap its).
  rewrite list_elem_of_omap. split.
  - intros (x & Hx & Hid). unfold id in Hid. subst x.
    apply elem_of_lookup_imap in Hx as (i & offering & Heq & Hi).
    exists i, offering.
    destruct (bool_decide (capacityType = CapacityType (Offering_ offering)))
      eqn:Hct; [|discriminate]. apply bool_decide_eq_true in Hct.
    destruct (Has zones (Zone (Offering_ offering))) eqn:Hz; [|discriminate].
    simpl in Heq.
    destruct (fold_left _ _ _ !! Zone (Offering_ offering)) as [subnet|]
      eqn:Hs; [|discriminate].
    exists subnet. injection Heq as ->. by repeat split.
  - intros (i & offering & subnet & Hi & Hct & Hz & Hs & ->).
    eexists. split; [|reflexivity].
    apply elem_of_lookup_imap. exists i, offering. split; [|done].
    rewrite Hz, Hs. simpl.
    by rewrite (bool_decide_eq_true_2
                  (capacityType = CapacityType (Offering_ offering)))
      by (by symmetry).
Qed.

(** X2: [getOverrides] offers an instance type in a zone exactly when
    the type has an available offering there of the requested capacity
    type, the zone requirement allows the zone and some subnet lies in
    it. *)
Theorem getOverrides_offers_what_is_available
  (instanceTypeOptions : list InstanceType) (subnets : list Subnet)
  (zones : Requirement) (capacityType name zone : string) :
  (exists o, o ∈ getOverrides instanceTypeOptions subnets zones capacityType
             /\ OverrideInstanceType o = Some name
             /\ OverrideAvailabilityZone o = Some zone)
  <-> (exists it offering subnet,
         it ∈ instanceTypeOptions /\ Name it = name
         /\ offering ∈ AvailableOfferings it
         /\ CapacityType offering = capacityType
         /\ Zone offering = zone
         /\ Has zones zone = true
         /\ subnet ∈ subnets /\ SubnetAvailabilityZone subnet = zone).
Proof.
  split.
  - intros (o & Ho & Hname & Hzone).
    apply getOverrides_elem in Ho
      as (i & offering & subnet & Hi & Hct & Hz & Hs & ->).
    simpl in Hname, Hzone. injection Hname as <-. injection Hzone as <-.
    assert (offering ∈ unwrap instanceTypeOptions) as Hin.
    { rewrite <- (merge_sort_Permutation price_le).
      apply list_elem_of_lookup. by exists i. }
    apply elem_of_unwrap in Hin as (it & Hit & Ho & Hn).
    apply zonalSubnets_lookup in Hs
      as [(Hzs & l1 & l2 & Hl & _)|[Hm _]];
      [|by rewrite lookup_empty in Hm].
    exists it, (Offering_ offering), subnet.
    split; [done|]. split; [done|]. split; [done|]. split; [done|].
    split; [done|]. split; [by rewrite Hzs|]. split; [|done].
    rewrite <- (merge_sort_Permutation subnet_le), Hl.
    apply elem_of_app. right. apply list_elem_of_here.
  - intros (it & offering & subnet & Hit & Hn & Ho & Hct & Hzo & Hz & Hs & Hzs).
    set (x := {| Offering_ := offering; parentInstanceTypeName := Name it |}).
    assert (x ∈ merge_sort price_le (unwrap instanceTypeOptions)) as Hx.
    { rewrite (merge_sort_Permutation price_le).
      apply elem_of_unwrap. by exists it. }
    apply list_elem_of_lookup in Hx as (i & Hi).
    destruct (zonalSubnets_is_Some (merge_sort subnet_le subnets) ∅ zone)
      as (chosen & Hchosen).
    { right. exists subnet. split; [|done].
      by rewrite (merge_sort_Permutation subnet_le). }
    pose proof Hchosen as Hlook.
    apply zonalSubnets_lookup in Hlook
      as [(Hcz & _)|[Hm _]]; [|by rewrite lookup_empty in Hm].
    eexists. split.
    + apply getOverrides_elem. exists i, x, chosen.
      split; [done|]. split; [done|]. simpl. rewrite Hzo.
      split; [done|]. split; [done|]. reflexivity.
    + simpl. split; [by rewrite Hn|by rewrite Hcz].
Qed.

(** X3: Every override of [getOverrides] names a subnet it was given, in
    the zone of the override, and no subnet of that zone has more
    available IP addresses. *)
Theorem getOverrides_uses_the_roomiest_subnet
  (instanceTypeOptions : list InstanceType) (subnets : list Subnet)
  (zones : Requirement) (capacityType : string) (o : Override) :
  o ∈ getOverrides instanceTypeOptions subnets zones capacityType ->
  exists subnet,
    subnet ∈ subnets
    /\ OverrideSubnetId o = SubnetId subnet
    /\ OverrideAvailabilityZone o = Some (SubnetAvailabilityZone subnet)
    /\ forall other,
         other ∈ subnets ->
         SubnetAvailabilityZone other = SubnetAvailabilityZone subnet ->
         availableIPs other <= availableIPs subnet.
Proof.
  intros Ho. apply getOverrides_elem in Ho
    as (i & offering & subnet & Hi & Hct & Hz & Hs & ->).
  apply zonalSubnets_lookup in Hs
    as [(Hzs & l1 & l2 & Hl & Hl2)|[Hm _]];
    [|by rewrite lookup_empty in Hm].
  pose proof (@StronglySorted_merge_sort _ subnet_le _ subnet_le_trans
                subnet_le_total subnets) as Hsorted.
  rewrite Hl in Hsorted.
  exists subnet. split.
  { rewrite <- (merge_sort_Permutation subnet_le), Hl.
    apply elem_of_app. right. apply list_elem_of_here. }
  split; [done|]. split; [done|].
  intros other Hother Hsame.
  rewrite <- (merge_sort_Permutation subnet_le), Hl in Hother.
  apply elem_of_app in Hother as [Hother|Hother].
  - apply (StronglySorted_app_1_elem_of _ _ _ other subnet Hsorted Hother).
    apply list_elem_of_here.
  - apply elem_of_cons in Hother as [->|Hother]; [unfold availableIPs; lia|].
    rewrite Forall_forall in Hl2. exfalso.
    apply (Hl2 other); [done|congruence].
Qed.

(** X4: A spot request gives every override a priority, and no two
    overrides the same one; a request of another capacity type gives
    none. *)
Theorem getOverrides_priorities
  (instanceTypeOptions : list InstanceType) (subnets : list Subnet)
  (zones : Requirement) (capacityType : string) :
  let overrides :=
    getOverrides instanceTypeOptions subnets zones capacityType in
  (capacityType = CapacityTypeSpot ->
   Forall (fun o => is_Some (Priority o)) overrides
   /\ NoDup (List.map Priority overrides))
  /\ (capacityType <> CapacityTypeSpot ->
      Forall (fun o => Priority o = None) overrides).
Proof.
  intros overrides. split.
  - intros Hspot. split.
    + apply Forall_forall. intros o Ho.
      apply getOverrides_elem in Ho as (i & x & s & _ & _ & _ & _ & ->).
      simpl. rewrite bool_decide_eq_true_2 by done. by eexists.
    + subst overrides. unfold getOverrides. cbv zeta.
      rewrite bool_decide_eq_true_2 by done.
      generalize (fold_left
        (fun m subnet => <[SubnetAvailabilityZone subnet := subnet]> m)
        (merge_sort subnet_le subnets) (∅ : gmap string Subnet)).
      intros zonal.
      generalize (merge_sort price_le
        (flat_map (fun it => List.map
           (fun o => {| Offering_ := o; parentInstanceTypeName := Name it |})
           (AvailableOfferings it)) instanceTypeOptions)).
      intros l. subst capacityType.
      set (f := fun (i : nat) (offering : offeringWithParentName) => _).
      assert (forall k (l : list offeringWithParentName),
                NoDup (List.map Priority (omap id (imap (fun i => f (k + i)%nat) l)))
                /\ forall o, o ∈ omap id (imap (fun i => f (k + i)%nat) l) ->
                             exists j, Priority o = Some j /\ (k <= j)%nat)
        as Hgen.
      { intros k l0. revert k. induction l0 as [|x l0 IH]; intros k.
        - simpl. split; [constructor|]. intros o Ho.
          by apply elem_of_nil in Ho.
        - cbn [imap omap]. unfold compose.
          destruct (IH (S k)) as [Hnd Hge].
          assert (imap (fun n => f (k + S n)%nat) l0
                  = imap (fun i => f (S k + i)%nat) l0) as Heq.
          { apply imap_ext. intros i y _. f_equal. lia. }
          rewrite Heq. unfold id at 1.
          destruct (f (k + 0)%nat x) as [o|] eqn:Hf.
          + simpl. split.
            * constructor; [|done]. intros Hin.
              apply list_elem_of_In, in_map_iff in Hin as (o' & Hp & Ho').
              apply list_elem_of_In in Ho'.
              destruct (Hge o' Ho') as (j & Hj & Hle).
              unfold f in Hf.
              repeat match type of Hf with
                     | (if ?b then _ else _) = _ => destruct b; [|discriminate]
                     | (if ?b then _ else _) = _ => destruct b; [discriminate|]
                     | match ?m with Some _ => _ | None => _ end = _ =>
                         destruct m; [|discriminate]
                     end.
              all: try discriminate.
              injection Hf as <-. simpl in Hp. rewrite Hj in Hp.
              injection Hp as ->. lia.
            * intros o' Ho'. apply elem_of_cons in Ho' as [->|Ho'].
              -- unfold f in Hf.
                 repeat match type of Hf with
                        | (if ?b then _ else _) = _ =>
                            destruct b; try discriminate
                        | match ?m with Some _ => _ | None => _ end = _ =>
                            destruct m; [|discriminate]
                        end.
                 injection Hf as <-. simpl. exists (k + 0)%nat.
                 split; [done|lia].
              -- destruct (Hge o' Ho') as (j & Hj & Hle). exists j.
                 split; [done|lia].
          + split; [done|]. intros o' Ho'.
            destruct (Hge o' Ho') as (j & Hj & Hle). exists j.
            split; [done|lia]. }
      destruct (Hgen 0%nat l) as [Hnd _]. exact Hnd.
  - intros Hod. apply Forall_forall. intros o Ho.
    apply getOverrides_elem in Ho as (i & x & s & _ & _ & _ & _ & ->).
    simpl. by rewrite bool_decide_eq_false_2.
Qed.

End GetOverridesProps.

Section CreateFootprint.
Import GoError AwsErrors Core EC2 InstanceProvider InstanceProviderCalls.

(** *** getLaunchTemplateConfigs *)

Lemma NoDup_map_filter {A B} (f : A -> B) (p : A -> bool) (l : list A) :
  NoDup (List.map f l) -> NoDup (List.map f (List.filter p l)).
Proof.
  induction l as [|x l IH]; simpl; [done|].
  intros Hnd. apply NoDup_cons in Hnd as [Hx Hnd].
  destruct (p x); simpl; [|by apply IH].
  apply NoDup_cons. split; [|by apply IH].
  intros Hin. apply Hx.
  apply list_elem_of_In, in_map_iff in Hin as (y & Hy & Hin).
  apply filter_In in Hin as [Hin _].
  apply list_elem_of_In, in_map_iff. by exists y.
Qed.

(** X5: The launch template configs of a fleet request: at least one,
    each with at least one override and the version "$Latest", and no
    launch template named twice. *)
Theorem getLaunchTemplateConfigs_are_usable
  env provider nodeRequest capacityType w configs w' :
  getLaunchTemplateConfigs env provider nodeRequest capacityType w
  = Done (ok configs) w' ->
  configs <> []
  /\ Forall (fun config => Overrides config <> []
                           /\ Version config = "$Latest") configs
  /\ NoDup (List.map LaunchTemplateName configs).
Proof.
  unfold getLaunchTemplateConfigs. unfold bind at 1, getLog.
  destruct (subnetProvider_Get env (log w) provider) as [subnets|err];
    [|discriminate].
  unfold bind.
  destruct (launchTemplateProvider_Get _ _ _ _ w) as [[lts|err] w1|msg];
    [|discriminate|discriminate].
  cbv zeta.
  set (raw := List.map _ (map_to_list lts)).
  case_bool_decide as Hlen; [discriminate|].
  intros [= <- <-]. split.
  { intros Heq. apply Hlen. by rewrite Heq. }
  split.
  - apply Forall_forall. intros c Hc.
    apply list_elem_of_In, filter_In in Hc as [Hc Hpos].
    apply bool_decide_eq_true in Hpos. split.
    + intros Heq. rewrite Heq in Hpos. simpl in Hpos. lia.
    + apply in_map_iff in Hc as ([name its] & <- & _). reflexivity.
  - apply NoDup_map_filter. subst raw. rewrite List.map_map.
    assert (List.map
              (fun x : string * list InstanceType =>
                 LaunchTemplateName
                   (let '(launchTemplateName, instanceTypes) := x in
                    {| Overrides :=
                         getOverrides instanceTypes subnets
                           (Get (TemplateRequirements (Template nodeRequest))
                                LabelTopologyZone) capacityType;
                       LaunchTemplateName := launchTemplateName;
                       Version := "$Latest" |}))
              (map_to_list lts)
            = (map_to_list lts).*1) as ->.
    { apply List.map_ext. by intros [name its]. }
    apply NoDup_fst_map_to_list.
Qed.

(** *** getInstance *)

Lemma getInstance_ok env id w instance w' :
  getInstance env id w = Done (ok instance) w' ->
  ec2_DescribeInstances env (log w) id
  = ok [ {| Instances := [instance] |} ]
  /\ StateName instance <> InstanceStateNameTerminated
  /\ (ResourceNameConvention env = false ->
      StringValue (PrivateDnsName instance) <> "").
Proof.
  unfold getInstance, call, bind, getLog, record, ret. cbv beta iota.
  cbn [log ltCache unavailableOfferings].
  destruct (ec2_DescribeInstances env (log w) id) as [rs|err].
  2:{ by destruct (isNotFound (Some err)). }
  destruct rs as [|[insts] rest]; [discriminate|].
  destruct insts as [|i insts]; [by destruct rest|].
  destruct insts as [|i' insts]; [|by destruct rest].
  destruct rest as [|r' rest]; [|discriminate].
  case_bool_decide as Hstate; [discriminate|].
  destruct (ResourceNameConvention env) eqn:Hconv.
  - intros [= -> <-]. by repeat split.
  - case_bool_decide as Hdns; [discriminate|].
    intros [= -> <-]. split; [done|]. split; [done|].
    intros _ Hempty. apply Hdns. by rewrite Hempty.
Qed.





(** *** Calls a computation avoids *)

Lemma avoids_ret {A} p (a : A) : avoids p (ret a).
Proof. intros w a' w' H. by inversion H. Qed.

Lemma avoids_bind {A B} p (m : M A) (k : A -> M B) :
  avoids p m -> (forall a, avoids p (k a)) -> avoids p (bind m k).
Proof.
  intros Hm Hk w b w' H. apply bind_Done in H as (a & w1 & H1 & H2).
  rewrite (Hk _ _ _ _ H2). by apply (Hm _ _ _ H1).
Qed.

Lemma avoids_panic {A} p (msg : string) : avoids p (@panic A msg).
Proof. intros w a w' H. discriminate. Qed.

Lemma avoids_getLog p : avoids p getLog.
Proof. intros w a w' H. by inversion H. Qed.

Lemma avoids_getCache p : avoids p getCache.
Proof. intros w a w' H. by inversion H. Qed.

Lemma avoids_setCache p c : avoids p (setCache c).
Proof. intros w a w' H. by inversion H. Qed.

Lemma avoids_setUnavailable p u : avoids p (setUnavailable u).
Proof. intros w a w' H. by inversion H. Qed.

Lemma avoids_call {A} p (c : Call) (answer : list Call -> A) :
  p c = false -> avoids p (call c answer).
Proof.
  intros Hc w a w' H. unfold call, bind, getLog, record, ret in H.
  inversion H; subst; simpl. rewrite List.filter_app. simpl.
  rewrite Hc. by rewrite app_nil_r.
Qed.

Create HintDb avoids.
#[local] Hint Resolve avoids_ret avoids_panic avoids_getLog avoids_getCache
  avoids_setCache avoids_setUnavailable : avoids.

Ltac avoids_step :=
  lazymatch goal with
  | |- avoids _ (bind _ _) => apply avoids_bind; [| intros ?]
  | |- avoids _ (call _ _) => apply avoids_call; reflexivity
  | |- avoids _ (match ?x with _ => _ end) => destruct x
  | |- avoids _ _ => first [ solve [eauto with avoids] | progress cbv zeta ]
  end.

Ltac avoids_tac := repeat avoids_step.

Lemma avoids_invalidateAll p configs : avoids p (invalidateAll configs).
Proof.
  induction configs as [|c rest IH]; simpl; [apply avoids_ret|].
  apply avoids_bind; [unfold Invalidate; avoids_tac | by intros _].
Qed.

Lemma avoids_ensureAll p env resolved launchTemplates :
  (forall name, p (DescribeLaunchTemplatesCall name) = false
                /\ p (CreateLaunchTemplateCall name) = false) ->
  avoids p (ensureAll env resolved launchTemplates).
Proof.
  intros Hlt. revert launchTemplates.
  induction resolved as [|r rest IH]; intros lts; simpl; [apply avoids_ret|].
  apply avoids_bind.
  - unfold ensureLaunchTemplate, createLaunchTemplate.
    apply avoids_bind; [apply avoids_getCache|]. intros c.
    destruct (c !! ResolvedName r); [avoids_tac|].
    apply avoids_bind; [apply avoids_call, Hlt|]. intros out.
    apply avoids_bind.
    + destruct out as [[|lt [|]]|err]; try apply avoids_ret.
      destruct (isNotFound (Some err)); [|apply avoids_ret].
      apply avoids_bind; [apply avoids_call, Hlt|].
      intros [lt|e]; apply avoids_ret.
    + intros [lt|e]; avoids_tac.
  - intros [lt|e]; [apply IH|apply avoids_ret].
Qed.

(** A launch reaches EC2 for launch templates and for the fleet only. *)
Lemma avoids_launchInstance p env provider nodeRequest :
  (forall name, p (DescribeLaunchTemplatesCall name) = false
                /\ p (CreateLaunchTemplateCall name) = false) ->
  (forall input, p (CreateFleetCall input) = false) ->
  avoids p (launchInstance env provider nodeRequest).
Proof.
  intros Hlt Hfleet. unfold launchInstance. cbv zeta.
  apply avoids_bind.
  - unfold getLaunchTemplateConfigs.
    apply avoids_bind; [apply avoids_getLog|]. intros l.
    destruct (subnetProvider_Get env l provider); [|apply avoids_ret].
    apply avoids_bind.
    + unfold launchTemplateProvider_Get.
      destruct (ProviderLaunchTemplateName provider); [apply avoids_ret|].
      apply avoids_bind; [apply avoids_getLog|]. intros l'.
      destruct (amiFamily_Resolve _ _ _ _ _); [|apply avoids_ret].
      by apply avoids_ensureAll.
    + intros [lts|e]; [|apply avoids_ret].
      cbv zeta. destruct (bool_decide _); apply avoids_ret.
  - intros [configs|e]; [|apply avoids_ret].
    apply avoids_bind; [apply avoids_call, Hfleet|].
    intros [output|err].
    + apply avoids_bind.
      * generalize (Errors output). intros errors.
        induction errors as [|x rest IH]; simpl; [apply avoids_ret|].
        apply avoids_bind; [|by intros _].
        destruct (isUnfulfillableCapacity x); [|apply avoids_ret].
        intros w0 a w0' H. by inversion H.
      * intros _. destruct (FleetInstances output) as [|[[|i ids]] rest];
          apply avoids_ret.
    + destruct (isLaunchTemplateNotFound (Some err)).
      * apply avoids_bind; [apply avoids_invalidateAll|].
        intros _. apply avoids_ret.
      * destruct (asRequestFailure err); apply avoids_ret.
Qed.

(** *** What a describe adds *)

Lemma getInstance_log env id w r w' :
  getInstance env id w = Done r w' ->
  log w' = log w ++ [DescribeInstancesCall id] /\ sameCaches w w'.
Proof.
  unfold getInstance, call, bind, getLog, record, ret. cbv beta iota.
  cbn [log ltCache unavailableOfferings].
  destruct (ec2_DescribeInstances env (log w) id) as [rs|err].
  2:{ destruct (isNotFound (Some err)); intros [= <- <-]; by repeat split. }
  destruct rs as [|[insts] rest]; [intros [= <- <-]; by repeat split|].
  destruct insts as [|i insts];
    [destruct rest; intros [= <- <-]; by repeat split|].
  destruct insts as [|i' insts];
    [|destruct rest; intros [= <- <-]; by repeat split].
  destruct rest as [|r' rest]; [|intros [= <- <-]; by repeat split].
  repeat case_bool_decide; destruct (ResourceNameConvention env);
    intros [= <- <-]; by repeat split.
Qed.

Lemma getInstance_total env id w :
  exists r w', getInstance env id w = Done r w'.
Proof.
  unfold getInstance, call, bind, getLog, record, ret. cbv beta iota.
  destruct (ec2_DescribeInstances env (log w) id) as [rs|err].
  2:{ destruct (isNotFound (Some err)); by eexists _, _. }
  destruct rs as [|[insts] rest]; [by eexists _, _|].
  destruct insts as [|i insts]; [destruct rest; by eexists _, _|].
  destruct insts as [|i' insts]; [|destruct rest; by eexists _, _].
  destruct rest as [|r' rest]; [|by eexists _, _].
  repeat case_bool_decide; destruct (ResourceNameConvention env);
    by eexists _, _.
Qed.

(** The retry around [getInstance]: between one and [S more] describes
    of the same instance, the last of which gave the result. *)
Lemma retry_getInstance env id more w r w' :
  retry_Do more (getInstance env id) w = Done r w' ->
  exists k w0,
    (k <= more)%nat
    /\ log w0 = log w ++ repeat (DescribeInstancesCall id) k
    /\ getInstance env id w0 = Done r w'
    /\ sameCaches w w'
    /\ (forall e, r = fail e -> k = more).
Proof.
  revert w. induction more as [|n IH]; intros w; simpl.
  - unfold bind at 1. destruct (getInstance env id w) as [r0 w1|msg] eqn:Hget;
      [|discriminate].
    intros Hr. assert (r0 = r /\ w1 = w') as [-> ->].
    { destruct r0; unfold ret in Hr; by inversion Hr. }
    exists 0%nat, w. split; [lia|]. split; [by rewrite app_nil_r|].
    split; [done|]. split; [|done].
    by destruct (getInstance_log _ _ _ _ _ Hget).
  - unfold bind at 1. destruct (getInstance env id w) as [r0 w1|msg] eqn:Hget;
      [|discriminate].
    destruct (getInstance_log _ _ _ _ _ Hget) as [Hlog [Hc1 Hc2]].
    destruct r0 as [instance|err].
    + unfold ret. intros [= <- <-]. exists 0%nat, w.
      split; [lia|]. split; [by rewrite app_nil_r|]. split; [done|].
      split; [by split|]. discriminate.
    + intros Hrest. destruct (IH _ Hrest)
        as (k & w0 & Hk & Hlog0 & Hlast & [Hc3 Hc4] & Hfail).
      exists (S k), w0. split; [lia|]. split.
      { rewrite Hlog0, Hlog. simpl. by rewrite <- app_assoc. }
      split; [done|]. split; [split; congruence|].
      intros e He. by rewrite (Hfail e He).
Qed.

Lemma filter_repeat_true {A} (p : A -> bool) (x : A) (k : nat) :
  p x = true -> List.filter p (repeat x k) = repeat x k.
Proof. intros Hp. induction k as [|k IH]; simpl; [done|]. by rewrite Hp, IH. Qed.

Lemma filter_repeat_false {A} (p : A -> bool) (x : A) (k : nat) :
  p x = false -> List.filter p (repeat x k) = [].
Proof. intros Hp. induction k as [|k IH]; simpl; [done|]. by rewrite Hp, IH. Qed.

Lemma instanceToNode_Done env instance instanceTypes w node w' :
  instanceToNode env instance instanceTypes w = Done node w' ->
  w' = w
  /\ exists instanceType,
       List.find
         (fun instanceType =>
            bool_decide (Name instanceType
                         = StringValue (Instance_InstanceType instance)))
         instanceTypes = Some instanceType
       /\ node
          = {| NodeName :=
                 if ResourceNameConvention env
                 then StringValue (InstanceId instance)
                 else ToLower (StringValue (PrivateDnsName instance));
               NodeLabels :=
                 <[ LabelCapacityType := instanceCapacityType instance ]>
                   (<[ LabelTopologyZone :=
                         StringValue (AvailabilityZone instance) ]>
                      (requirementLabels (ITRequirements instanceType)));
               ProviderID :=
                 "aws:///" +:+ StringValue (AvailabilityZone instance)
                 +:+ "/" +:+ StringValue (InstanceId instance) |}.
Proof.
  unfold instanceToNode. destruct (List.find _ _) as [it|]; [|discriminate].
  unfold ret. intros [= <- <-]. split; [done|]. by exists it.
Qed.

Lemma describeLaunched_ok env nodeRequest launched w node w' :
  describeLaunched env nodeRequest launched w = Done (ok node) w' ->
  exists id k w0 instance,
    launched = ok id
    /\ (k <= 5)%nat
    /\ log w0 = log w ++ repeat (DescribeInstancesCall id) k
    /\ getInstance env id w0 = Done (ok instance) w'
    /\ instanceToNode env instance (InstanceTypeOptions nodeRequest) w'
       = Done node w'.
Proof.
  unfold describeLaunched. destruct launched as [id|err]; [|discriminate].
  unfold bind at 1.
  destruct (retry_Do 5 (getInstance env id) w) as [[instance|e] w1|msg]
    eqn:Hretry; [|discriminate|discriminate].
  destruct (retry_getInstance _ _ _ _ _ _ Hretry)
    as (k & w0 & Hk & Hlog & Hget & _ & _).
  unfold bind.
  destruct (instanceToNode env instance (InstanceTypeOptions nodeRequest) w1)
    as [n w2|msg] eqn:Hnode; [|discriminate].
  destruct (instanceToNode_Done _ _ _ _ _ _ Hnode) as [-> _].
  unfold ret. intros [= <- <-]. by exists id, k, w0, instance.
Qed.

Lemma describeLaunched_fail env nodeRequest launched w e w' :
  describeLaunched env nodeRequest launched w = Done (fail e) w' ->
  launched = fail e /\ w' = w.
Proof.
  unfold describeLaunched. destruct launched as [id|err].
  - unfold bind at 1.
    destruct (retry_Do 5 (getInstance env id) w) as [[instance|e'] w1|msg];
      [|discriminate|discriminate].
    unfold bind. by destruct (instanceToNode _ _ _ _).
  - unfold ret. by intros [= <- <-].
Qed.

Lemma ToLower_length (s : string) :
  String.length (ToLower s) = String.length s.
Proof. induction s as [|c s IH]; simpl; [done|]. by rewrite IH. Qed.

(** X6: The node [Create] returns describes the instance EC2 reported
    for the launch: an instance that is not terminated and whose type is
    one of the launch options; its zone and capacity-type labels and its
    provider id are those of the instance, whatever the requirements of
    the instance type say, and under the IP naming convention its name
    is the lower-cased private DNS name, which is not empty. *)
Theorem Create_node_describes_the_instance env provider req w node w' :
  Create env provider req w = Done (ok node) w' ->
  exists l id instance,
    ec2_DescribeInstances env l id = ok [ {| Instances := [instance] |} ]
    /\ StateName instance <> InstanceStateNameTerminated
    /\ requested (InstanceTypeOptions (launchOptions req)) instance
    /\ NodeLabels node !! LabelTopologyZone
       = Some (StringValue (AvailabilityZone instance))
    /\ NodeLabels node !! LabelCapacityType
       = Some (instanceCapacityType instance)
    /\ ProviderID node
       = "aws:///" +:+ StringValue (AvailabilityZone instance)
         +:+ "/" +:+ StringValue (InstanceId instance)
    /\ NodeName node
       = (if ResourceNameConvention env
          then StringValue (InstanceId instance)
          else ToLower (StringValue (PrivateDnsName instance)))
    /\ (ResourceNameConvention env = false -> NodeName node <> "").
Proof.
  intros Hcreate.
  assert (exists launched w1,
            describeLaunched env (launchOptions req) launched w1
            = Done (ok node) w') as (launched & w1 & Hd).
  { rewrite Create_unfold in Hcreate.
    destruct (launchInstance env provider (launchOptions req) w)
      as [[id|err] w1|msg]; [by eauto| |discriminate].
    destruct (isLaunchTemplateNotFound (Some err)); [|discriminate].
    apply bind_Done in Hcreate as (second & w2 & _ & Hd). by eauto. }
  destruct (describeLaunched_ok _ _ _ _ _ _ Hd)
    as (id & k & w0 & instance & _ & _ & _ & Hget & Hnode).
  destruct (getInstance_ok env id w0 instance w' Hget)
    as (Hanswer & Hlive & Hdns).
  destruct (instanceToNode_Done _ _ _ _ _ _ Hnode) as (_ & it & Hfind & ->).
  exists (log w0), id, instance. split; [done|]. split; [done|]. split.
  { apply find_some in Hfind as [Hin Hname].
    apply bool_decide_eq_true in Hname. exists it.
    split; [by apply list_elem_of_In|done]. }
  cbn [NodeLabels ProviderID NodeName].
  split; [by rewrite lookup_insert_ne, lookup_insert_eq|].
  split; [by rewrite lookup_insert_eq|]. split; [done|]. split; [done|].
  intros Hconv. rewrite Hconv. intros Hempty.
  apply (Hdns Hconv). apply (f_equal String.length) in Hempty.
  rewrite ToLower_length in Hempty.
  by destruct (StringValue (PrivateDnsName instance)).
Qed.

(** X7: [getInstance] issues one describe call and leaves the caches
    alone; the instance it returns is the single instance of the single
    reservation of the answer, is not in the terminated state and,
    unless nodes are named after the resource, has a private DNS name. *)
Theorem getInstance_returns_a_live_instance env id w instance w' :
  getInstance env id w = Done (ok instance) w' ->
  ec2_DescribeInstances env (log w) id
  = ok [ {| Instances := [instance] |} ]
  /\ StateName instance <> InstanceStateNameTerminated
  /\ (ResourceNameConvention env = false ->
      StringValue (PrivateDnsName instance) <> "")
  /\ log w' = log w ++ [DescribeInstancesCall id]
  /\ sameCaches w w'.
Proof.
  intros Hget.
  destruct (getInstance_ok _ _ _ _ _ Hget) as (Hanswer & Hlive & Hdns).
  destruct (getInstance_log _ _ _ _ _ Hget) as [Hlog Hsame].
  split; [done|]. split; [done|]. split; [done|]. by split.
Qed.

End CreateFootprint.

Section CreateCalls.
Import GoError AwsErrors Core EC2 InstanceProvider InstanceProviderCalls.

Lemma launchInstance_no_describe env provider nodeRequest :
  avoids isDescribeInstances (launchInstance env provider nodeRequest).
Proof. apply avoids_launchInstance; by intros. Qed.

Lemma launchInstance_no_terminate env provider nodeRequest :
  avoids isTerminateInstances (launchInstance env provider nodeRequest).
Proof. apply avoids_launchInstance; by intros. Qed.

Lemma describeLaunched_no_terminate env nodeRequest launched :
  avoids isTerminateInstances (describeLaunched env nodeRequest launched).
Proof.
  intros w r w' Hd. destruct r as [node|e].
  - destruct (describeLaunched_ok _ _ _ _ _ _ Hd)
      as (id & k & w0 & instance & _ & _ & Hlog0 & Hget & _).
    destruct (getInstance_log _ _ _ _ _ Hget) as [Hlog _].
    rewrite Hlog, Hlog0, !List.filter_app.
    rewrite (filter_repeat_false _ _ _ (eq_refl : isTerminateInstances
               (DescribeInstancesCall id) = false)).
    simpl. by rewrite !app_nil_r.
  - by destruct (describeLaunched_fail _ _ _ _ _ _ Hd) as [_ ->].
Qed.

(** X8: [Create] never terminates an instance.  It describes an instance
    only after a fleet request launched it: not at all when it returns
    an error, and between one and six times, always the same instance,
    when it returns a node. *)
Theorem Create_describes_only_what_it_launched env provider req w r w' :
  Create env provider req w = Done r w' ->
  List.filter isTerminateInstances (log w')
  = List.filter isTerminateInstances (log w)
  /\ match r with
     | fail _ =>
         List.filter isDescribeInstances (log w')
         = List.filter isDescribeInstances (log w)
     | ok _ =>
         exists id k,
           (1 <= k <= 6)%nat
           /\ List.filter isDescribeInstances (log w')
              = List.filter isDescribeInstances (log w)
                ++ repeat (DescribeInstancesCall id) k
     end.
Proof.
  intros Hcreate.
  assert (exists launched w1,
            describeLaunched env (launchOptions req) launched w1 = Done r w'
            /\ List.filter isTerminateInstances (log w1)
               = List.filter isTerminateInstances (log w)
            /\ List.filter isDescribeInstances (log w1)
               = List.filter isDescribeInstances (log w))
    as (launched & w1 & Hd & Hterm & Hdesc).
  { rewrite Create_unfold in Hcreate.
    destruct (launchInstance env provider (launchOptions req) w)
      as [[id|err] w1|msg] eqn:Hfirst; [| |discriminate].
    - exists (ok id), w1. split; [done|].
      split; [by apply (launchInstance_no_terminate _ _ _ _ _ _ Hfirst)|].
      by apply (launchInstance_no_describe _ _ _ _ _ _ Hfirst).
    - pose proof (launchInstance_no_terminate _ _ _ _ _ _ Hfirst) as Ht1.
      pose proof (launchInstance_no_describe _ _ _ _ _ _ Hfirst) as Hd1.
      destruct (isLaunchTemplateNotFound (Some err)).
      + apply bind_Done in Hcreate as (second & w2 & Hsecond & Hd).
        exists second, w2. split; [done|].
        rewrite (launchInstance_no_terminate _ _ _ _ _ _ Hsecond).
        by rewrite (launchInstance_no_describe _ _ _ _ _ _ Hsecond).
      + injection Hcreate as <- <-. exists (fail err), w1.
        by repeat split. }
  split.
  { rewrite <- Hterm.
    by apply (describeLaunched_no_terminate _ _ _ _ _ _ Hd). }
  destruct r as [node|e].
  - destruct (describeLaunched_ok _ _ _ _ _ _ Hd)
      as (id & k & w0 & instance & _ & Hk & Hlog0 & Hget & _).
    destruct (getInstance_log _ _ _ _ _ Hget) as [Hlog _].
    exists id, (S k). split; [lia|].
    rewrite Hlog, Hlog0, !List.filter_app, Hdesc.
    rewrite filter_repeat_true by done. simpl.
    rewrite <- app_assoc. f_equal.
    clear. induction k as [|k IH]; simpl; [done|]. by rewrite IH.
  - destruct (describeLaunched_fail _ _ _ _ _ _ Hd) as [_ ->]. done.
Qed.

(** *** Terminate *)

Lemma getInstance_not_gone env id w r w' :
  getInstance env id w = Done r w' ->
  match r with
  | ok _ => True
  | fail e => (isInstanceTerminated (Some e) || isNotFound (Some e)) = false
  end ->
  ~ describeShowsGone (ec2_DescribeInstances env (log w) id).
Proof.
  unfold getInstance, call, bind, getLog, record, ret, describeShowsGone.
  cbv beta iota. cbn [log ltCache unavailableOfferings].
  destruct (ec2_DescribeInstances env (log w) id) as [rs|err].
  2:{ destruct (isNotFound (Some err)) eqn:Hnf.
      - intros [= <- <-]. rewrite Hnf, orb_true_r. discriminate.
      - intros _ _. congruence. }
  destruct rs as [|[insts] rest]; [intros [= <- <-]; discriminate|].
  destruct insts as [|i insts];
    [destruct rest; intros [= <- <-]; discriminate|].
  destruct insts as [|i' insts];
    [|destruct rest; intros [= <- <-]; discriminate].
  destruct rest as [|r' rest]; [|intros [= <- <-]; discriminate].
  case_bool_decide as Hstate; [intros [= <- <-]; discriminate|].
  by intros _ _.
Qed.

(** X9: [Terminate] returns an error only for a provider id it cannot
    parse or for an instance that is still there: the terminate call
    failed with a code other than not-found and the describe after it
    did not show the instance gone.  The error then wraps the error of
    the terminate call, joined with that of the describe if it failed,
    and is itself not a not-found error. *)
Theorem Terminate_fails_only_for_a_remaining_instance env node w e w' :
  Terminate env node w = Done (Some e) w' ->
  (exists perr,
     ParseProviderID env node = fail perr
     /\ e = wrapf "getting instance ID for node" perr /\ w' = w)
  \/ (exists id terr,
        ParseProviderID env node = ok id
        /\ ec2_TerminateInstances env (log w) id = Some terr
        /\ ~ goneAt env (log w) id
        /\ (e = wrapf "terminating instance" terr
            \/ exists derr, e = wrapf "terminating instance" (multi terr derr))
        /\ isNotFound (Some e) = false
        /\ log w' = log w ++ [TerminateInstancesCall id;
                              DescribeInstancesCall id]
        /\ sameCaches w w').
Proof.
  unfold Terminate.
  destruct (ParseProviderID env node) as [id|perr].
  2:{ unfold ret. intros [= <- <-]. left. by exists perr. }
  unfold call at 1. unfold bind at 1 2 3, getLog, record, ret.
  cbv beta iota. cbn [log ltCache unavailableOfferings].
  destruct (ec2_TerminateInstances env (log w) id) as [terr|] eqn:Hterm;
    [|discriminate].
  destruct (isNotFound (Some terr)) eqn:Hnf; [discriminate|].
  set (w1 := {| log := log w ++ [TerminateInstancesCall id];
                ltCache := ltCache w;
                unavailableOfferings := unavailableOfferings w |}).
  unfold bind.
  destruct (getInstance env id w1) as [got w2|msg] eqn:Hget; [|discriminate].
  destruct (getInstance_log _ _ _ _ _ Hget) as [Hlog [Hc1 Hc2]].
  intros Hres. right. exists id, terr. split; [done|]. split; [done|].
  assert (log w2 = log w ++ [TerminateInstancesCall id;
                             DescribeInstancesCall id]) as Hlog2.
  { rewrite Hlog. subst w1. simpl. by rewrite <- app_assoc. }
  destruct got as [instance|derr].
  - simpl in Hres. injection Hres as <- <-.
    split.
    { intros [Hgone|Hgone]; [congruence|].
      by apply (getInstance_not_gone _ _ _ _ _ Hget). }
    split; [by left|]. split; [done|]. split; [done|]. by split.
  - cbn [multierr_Append] in Hres.
    destruct (isInstanceTerminated (Some derr) || isNotFound (Some derr))
      eqn:Hcls; [discriminate|].
    injection Hres as <- <-.
    split.
    { intros [Hgone|Hgone]; [congruence|].
      by apply (getInstance_not_gone _ _ _ _ _ Hget). }
    split; [right; by exists derr|]. split.
    { apply orb_false_iff in Hcls as [_ Hdnf].
      unfold isNotFound in *. simpl.
      destruct (asAwsError terr); [done|]. done. }
    split; [done|]. by split.
Qed.

End CreateCalls.

Section LaunchTemplateCache.
Import GoError AwsErrors Core EC2 InstanceProvider InstanceProviderCalls.

(** *** The launch template cache *)

Lemma ensureLaunchTemplate_hit env name w lt :
  ltCache w !! name = Some lt ->
  ensureLaunchTemplate env name w = Done (ok lt) w.
Proof.
  intros Hhit. unfold ensureLaunchTemplate, bind, getCache, setCache, ret.
  rewrite Hhit. rewrite insert_id by done. by destruct w.
Qed.

Lemma ensureLaunchTemplate_run env name w r w' :
  ensureLaunchTemplate env name w = Done r w' ->
  unavailableOfferings w' = unavailableOfferings w
  /\ match ltCache w !! name with
     | Some lt => r = ok lt /\ w' = w
     | None =>
         match r with
         | ok lt => ltCache w' = <[name := lt]> (ltCache w)
         | fail _ => ltCache w' = ltCache w
         end
         /\ match ec2_DescribeLaunchTemplates env (log w) name with
            | fail err =>
                if isNotFound (Some err)
                then log w' = log w ++ [DescribeLaunchTemplatesCall name;
                                        CreateLaunchTemplateCall name]
                else log w' = log w ++ [DescribeLaunchTemplatesCall name]
            | ok _ => log w' = log w ++ [DescribeLaunchTemplatesCall name]
            end
     end.
Proof.
  destruct (ltCache w !! name) as [lt|] eqn:Hc.
  { rewrite (ensureLaunchTemplate_hit _ _ _ _ Hc). by intros [= <- <-]. }
  unfold ensureLaunchTemplate, createLaunchTemplate.
  unfold bind at 1, getCache. rewrite Hc.
  unfold call at 1. unfold bind at 1 2 3, getLog, record, ret.
  cbv beta iota. cbn [log ltCache unavailableOfferings].
  destruct (ec2_DescribeLaunchTemplates env (log w) name) as [lts|err].
  - destruct lts as [|lt [|lt' rest]]; unfold bind, ret, getCache, setCache;
      simpl; intros [= <- <-]; by repeat split.
  - destruct (isNotFound (Some err)).
    + unfold call, bind, getLog, record, ret, getCache, setCache.
      cbv beta iota. cbn [log ltCache unavailableOfferings].
      destruct (ec2_CreateLaunchTemplate env _ name) as [lt|e];
        intros [= <- <-]; simpl; rewrite <- ?app_assoc; by repeat split.
    + unfold bind, ret. intros [= <- <-]. by repeat split.
Qed.

(** X10: What [ensureLaunchTemplate] returned stays cached under the
    name: a repeated call answers from the cache, with the same
    template, without any call to EC2 and without changing the state;
    other names of the cache are not touched. *)
Theorem ensureLaunchTemplate_answers_from_the_cache env name w lt w1 :
  ensureLaunchTemplate env name w = Done (ok lt) w1 ->
  ltCache w1 !! name = Some lt
  /\ ensureLaunchTemplate env name w1 = Done (ok lt) w1
  /\ (forall other, other <> name ->
                    ltCache w1 !! other = ltCache w !! other).
Proof.
  intros Hrun. destruct (ensureLaunchTemplate_run _ _ _ _ _ Hrun) as [_ H].
  assert (ltCache w1 !! name = Some lt
          /\ forall other, other <> name ->
                           ltCache w1 !! other = ltCache w !! other)
    as [Hin Hother].
  { destruct (ltCache w !! name) as [lt0|] eqn:Hc.
    - destruct H as [[= ->] ->]. by split.
    - destruct H as [-> _]. split; [apply lookup_insert_eq|].
      intros other Hne. by apply lookup_insert_ne. }
  split; [done|]. split; [|done]. by apply ensureLaunchTemplate_hit.
Qed.

(** X11: [ensureLaunchTemplate] reaches EC2 only on a cache miss, with a
    describe of the name; it asks EC2 to create the template only when
    that describe failed with a not-found code; and when it fails it
    leaves the cache as it was. *)
Theorem ensureLaunchTemplate_creates_only_what_is_missing
  env name w r w' :
  ensureLaunchTemplate env name w = Done r w' ->
  exists calls,
    log w' = log w ++ calls
    /\ (is_Some (ltCache w !! name) -> calls = [])
    /\ (ltCache w !! name = None ->
        exists rest, calls = DescribeLaunchTemplatesCall name :: rest
                     /\ (rest = [] \/ rest = [CreateLaunchTemplateCall name]))
    /\ (CreateLaunchTemplateCall name ∈ calls ->
        exists err,
          ec2_DescribeLaunchTemplates env (log w) name = fail err
          /\ isNotFound (Some err) = true)
    /\ (forall e, r = fail e -> ltCache w' = ltCache w).
Proof.
  intros Hrun. destruct (ensureLaunchTemplate_run _ _ _ _ _ Hrun) as [_ H].
  destruct (ltCache w !! name) as [lt0|] eqn:Hc.
  - destruct H as [-> ->]. exists []. split; [by rewrite app_nil_r|].
    split; [done|]. split; [discriminate|]. split; [|discriminate].
    intros Hin. by apply elem_of_nil in Hin.
  - destruct H as [Hcache Hlog].
    assert (forall e, r = fail e -> ltCache w' = ltCache w) as Hfail.
    { intros e ->. done. }
    destruct (ec2_DescribeLaunchTemplates env (log w) name) as [lts|err]
      eqn:Hdesc.
    + exists [DescribeLaunchTemplatesCall name]. split; [done|].
      split; [by intros [? ?]|]. split; [intros _; exists []; by split; [|left]|].
      split; [|done]. intros Hin.
      apply list_elem_of_singleton in Hin. discriminate.
    + destruct (isNotFound (Some err)) eqn:Hnf.
      * exists [DescribeLaunchTemplatesCall name;
                CreateLaunchTemplateCall name].
        split; [done|]. split; [by intros [? ?]|].
        split; [intros _; eexists; split; [reflexivity|by right]|].
        split; [|done]. intros _. by exists err.
      * exists [DescribeLaunchTemplatesCall name]. split; [done|].
        split; [by intros [? ?]|].
        split; [intros _; exists []; by split; [|left]|].
        split; [|done]. intros Hin.
        apply list_elem_of_singleton in Hin. discriminate.
Qed.

(** *** A launch template named by the provider *)

(** X12: When the provider names a launch template, the configs of a
    fleet request are built without any call to EC2 and without touching
    the caches: one config, for that name, whose overrides range over
    all the instance type options of the request. *)
Theorem named_launch_template_is_used_as_is
  env provider nodeRequest capacityType name w configs w' :
  ProviderLaunchTemplateName provider = Some name ->
  getLaunchTemplateConfigs env provider nodeRequest capacityType w
  = Done (ok configs) w' ->
  w' = w
  /\ exists subnets,
       subnetProvider_Get env (log w) provider = ok subnets
       /\ configs
          = [ {| Overrides :=
                   getOverrides (InstanceTypeOptions nodeRequest) subnets
                     (Get (TemplateRequirements (Template nodeRequest))
                          LabelTopologyZone)
                     capacityType;
                 LaunchTemplateName := name;
                 Version := "$Latest" |} ].
Proof.
  intros Hname. unfold getLaunchTemplateConfigs. unfold bind at 1, getLog.
  destruct (subnetProvider_Get env (log w) provider) as [subnets|err];
    [|discriminate].
  unfold launchTemplateProvider_Get. rewrite Hname.
  unfold bind, ret. cbv zeta. rewrite map_to_list_singleton.
  cbn [List.map List.filter Overrides].
  case_bool_decide as Hpos; simpl; [discriminate|].
  case_bool_decide as Hlen; [|by destruct Hpos].
  intros [= <- <-]. split; [done|]. by exists subnets.
Qed.

End LaunchTemplateCache.

Section InstanceProviderWitnesses.
Import GoError AwsErrors Core EC2 InstanceProvider InstanceProviderCalls.
Import InstanceProviderExamples InstanceProviderMoreExamples.

Lemma getOverrides_uses_the_roomiest_subnet_witness :
  exists subnet,
    subnet ∈ twoSubnets
    /\ OverrideSubnetId roomyOverride = SubnetId subnet
    /\ OverrideAvailabilityZone roomyOverride
       = Some (SubnetAvailabilityZone subnet)
    /\ forall other,
         other ∈ twoSubnets ->
         SubnetAvailabilityZone other = SubnetAvailabilityZone subnet ->
         availableIPs other <= availableIPs subnet.
Proof.
  apply (getOverrides_uses_the_roomiest_subnet
           [instanceTypeNamed "m5.large"] twoSubnets anyZone "spot"
           roomyOverride).
  vm_compute. constructor.
Defined.

Lemma getLaunchTemplateConfigs_are_usable_witness :
  smallConfigs <> []
  /\ Forall (fun config => Overrides config <> []
                           /\ Version config = "$Latest") smallConfigs
  /\ NoDup (List.map LaunchTemplateName smallConfigs).
Proof.
  apply (getLaunchTemplateConfigs_are_usable
           staleEC2 someProvider (launchOptions smallRequest)
           (getCapacityType (launchOptions smallRequest)) cachedWorld
           smallConfigs cachedWorld).
  vm_compute. reflexivity.
Defined.

Lemma getInstance_returns_a_live_instance_witness :
  ec2_DescribeInstances healthyEC2 (log emptyWorld) "i-1"
  = ok [ {| Instances := [runningInstance "i-1"] |} ]
  /\ StateName (runningInstance "i-1") <> InstanceStateNameTerminated
  /\ (ResourceNameConvention healthyEC2 = false ->
      StringValue (PrivateDnsName (runningInstance "i-1")) <> "")
  /\ log describedWorld = log emptyWorld ++ [DescribeInstancesCall "i-1"]
  /\ sameCaches emptyWorld describedWorld.
Proof.
  apply (getInstance_returns_a_live_instance healthyEC2 "i-1" emptyWorld
           (runningInstance "i-1") describedWorld).
  vm_compute. reflexivity.
Defined.

Lemma Create_node_describes_the_instance_witness :
  exists l id instance,
    ec2_DescribeInstances healthyEC2 l id
    = ok [ {| Instances := [instance] |} ]
    /\ StateName instance <> InstanceStateNameTerminated
    /\ requested (InstanceTypeOptions (launchOptions smallRequest)) instance
    /\ NodeLabels (nodeOf smallOutcome) !! LabelTopologyZone
       = Some (StringValue (AvailabilityZone instance))
    /\ NodeLabels (nodeOf smallOutcome) !! LabelCapacityType
       = Some (instanceCapacityType instance)
    /\ ProviderID (nodeOf smallOutcome)
       = "aws:///" +:+ StringValue (AvailabilityZone instance)
         +:+ "/" +:+ StringValue (InstanceId instance)
    /\ NodeName (nodeOf smallOutcome)
       = (if ResourceNameConvention healthyEC2
          then StringValue (InstanceId instance)
          else ToLower (StringValue (PrivateDnsName instance)))
    /\ (ResourceNameConvention healthyEC2 = false ->
        NodeName (nodeOf smallOutcome) <> "").
Proof.
  apply (Create_node_describes_the_instance healthyEC2 someProvider
           smallRequest emptyWorld (nodeOf smallOutcome)
           (worldOf smallOutcome)).
  vm_compute. reflexivity.
Defined.

Lemma Create_describes_only_what_it_launched_witness :
  List.filter isTerminateInstances (log (worldOf smallOutcome))
  = List.filter isTerminateInstances (log emptyWorld)
  /\ exists id k,
       (1 <= k <= 6)%nat
       /\ List.filter isDescribeInstances (log (worldOf smallOutcome))
          = List.filter isDescribeInstances (log emptyWorld)
            ++ repeat (DescribeInstancesCall id) k.
Proof.
  apply (Create_describes_only_what_it_launched healthyEC2 someProvider
           smallRequest emptyWorld (ok (nodeOf smallOutcome))
           (worldOf smallOutcome)).
  vm_compute. reflexivity.
Defined.

Lemma Terminate_fails_only_for_a_remaining_instance_witness :
  (exists perr,
     ParseProviderID stubbornEC2 someNode = fail perr
     /\ refusal = wrapf "getting instance ID for node" perr
     /\ refusedWorld = emptyWorld)
  \/ (exists id terr,
        ParseProviderID stubbornEC2 someNode = ok id
        /\ ec2_TerminateInstances stubbornEC2 (log emptyWorld) id = Some terr
        /\ ~ goneAt stubbornEC2 (log emptyWorld) id
        /\ (refusal = wrapf "terminating instance" terr
            \/ exists derr,
                 refusal = wrapf "terminating instance" (multi terr derr))
        /\ isNotFound (Some refusal) = false
        /\ log refusedWorld
           = log emptyWorld ++ [TerminateInstancesCall id;
                                DescribeInstancesCall id]
        /\ sameCaches emptyWorld refusedWorld).
Proof.
  apply (Terminate_fails_only_for_a_remaining_instance stubbornEC2 someNode
           emptyWorld refusal refusedWorld).
  vm_compute. reflexivity.
Defined.

Lemma ensureLaunchTemplate_answers_from_the_cache_witness :
  ltCache templateWorld !! "Karpenter-test-1" = Some createdTemplate
  /\ ensureLaunchTemplate healthyEC2 "Karpenter-test-1" templateWorld
     = Done (ok createdTemplate) templateWorld
  /\ (forall other, other <> "Karpenter-test-1" ->
                    ltCache templateWorld !! other
                    = ltCache emptyWorld !! other).
Proof.
  apply (ensureLaunchTemplate_answers_from_the_cache healthyEC2
           "Karpenter-test-1" emptyWorld createdTemplate templateWorld).
  vm_compute. reflexivity.
Defined.

Lemma ensureLaunchTemplate_creates_only_what_is_missing_witness :
  exists calls,
    log templateWorld = log emptyWorld ++ calls
    /\ (is_Some (ltCache emptyWorld !! "Karpenter-test-1") -> calls = [])
    /\ (ltCache emptyWorld !! "Karpenter-test-1" = None ->
        exists rest,
          calls = DescribeLaunchTemplatesCall "Karpenter-test-1" :: rest
          /\ (rest = []
              \/ rest = [CreateLaunchTemplateCall "Karpenter-test-1"]))
    /\ (CreateLaunchTemplateCall "Karpenter-test-1" ∈ calls ->
        exists err,
          ec2_DescribeLaunchTemplates healthyEC2 (log emptyWorld)
            "Karpenter-test-1" = fail err
          /\ isNotFound (Some err) = true)
    /\ (forall e, ok createdTemplate = fail e ->
                  ltCache templateWorld = ltCache emptyWorld).
Proof.
  apply (ensureLaunchTemplate_creates_only_what_is_missing healthyEC2
           "Karpenter-test-1" emptyWorld (ok createdTemplate) templateWorld).
  vm_compute. reflexivity.
Defined.

Lemma named_launch_template_is_used_as_is_witness :
  emptyWorld = emptyWorld
  /\ exists subnets,
       subnetProvider_Get healthyEC2 (log emptyWorld) namingProvider
       = ok subnets
       /\ namedConfigs
          = [ {| Overrides :=
                   getOverrides
                     (InstanceTypeOptions (launchOptions smallRequest))
                     subnets
                     (Get (TemplateRequirements
                             (Template (launchOptions smallRequest)))
                          LabelTopologyZone)
                     "spot";
                 LaunchTemplateName := "my-template";
                 Version := "$Latest" |} ].
Proof.
  apply (named_launch_template_is_used_as_is healthyEC2 namingProvider
           (launchOptions smallRequest) "spot" "my-template" emptyWorld
           namedConfigs emptyWorld).
  - reflexivity.
  - vm_compute. reflexivity.
Defined.

End InstanceProviderWitnesses.

(** ** The cloud provider of package aws *)

Section AwsCloudProviderProps.
Import GoError AwsErrors Core AwsCloudProvider.

(** *** useOpinionatedInstanceFilter *)

Lemma keepsFilter_false (l : list NodeSelectorRequirement) :
  keepsFilter l = false <->
  exists r, r ∈ l
            /\ Operator r ∈ [ NodeSelectorOpIn; NodeSelectorOpExists;
                              NodeSelectorOpDoesNotExist ].
Proof.
  induction l as [|x l IH]; simpl.
  - split; [discriminate|]. intros (r & Hr & _). by apply elem_of_nil in Hr.
  - destruct (bool_decide (Operator x = NodeSelectorOpIn)
              || bool_decide (Operator x = NodeSelectorOpExists)
              || bool_decide (Operator x = NodeSelectorOpDoesNotExist))
      eqn:Hop.
    + split; [|done]. intros _. exists x. split; [apply list_elem_of_here|].
      rewrite !orb_true_iff, !bool_decide_eq_true in Hop.
      rewrite !elem_of_cons. tauto.
    + rewrite IH. split.
      * intros (r & Hr & Ho). exists r.
        split; [by apply list_elem_of_further|done].
      * intros (r & Hr & Ho). apply elem_of_cons in Hr as [->|Hr];
          [|by exists r].
        exfalso. rewrite !orb_false_iff, !bool_decide_eq_false in Hop.
        rewrite !elem_of_cons, elem_of_nil in Ho. tauto.
Qed.

Lemma useOpinionatedInstanceFilter_false
  (provisionerRequirements : list NodeSelectorRequirement) :
  useOpinionatedInstanceFilter provisionerRequirements = false
  <-> choosesInstanceTypes provisionerRequirements.
Proof.
  unfold useOpinionatedInstanceFilter, choosesInstanceTypes. cbv zeta.
  case_bool_decide as Hlen.
  - split; [discriminate|]. intros (r & Hr & Hk & _). exfalso.
    assert (r ∈ List.filter (fun r => Contains requirementKeys (Key r))
                            provisionerRequirements) as Hin.
    { apply list_elem_of_In, filter_In. split; [by apply list_elem_of_In|].
      by apply bool_decide_eq_true. }
    apply length_zero_iff_nil in Hlen. rewrite Hlen in Hin.
    by apply elem_of_nil in Hin.
  - rewrite keepsFilter_false. split.
    + intros (r & Hr & Ho). apply list_elem_of_In, filter_In in Hr as [Hr Hk].
      exists r. split; [by apply list_elem_of_In|]. split; [|done].
      by apply bool_decide_eq_true in Hk.
    + intros (r & Hr & Hk & Ho). exists r. split; [|done].
      apply list_elem_of_In, filter_In. split; [by apply list_elem_of_In|].
      by apply bool_decide_eq_true.
Qed.

(** X14: The opinionated filter is switched off exactly when the
    provisioner has a requirement on the instance type, family, category
    or generation whose operator is In, Exists or DoesNotExist.  A
    requirement on another key, or with another operator, changes
    nothing, wherever it stands among the requirements. *)
Theorem useOpinionatedInstanceFilter_off_iff
  (provisionerRequirements : list NodeSelectorRequirement) :
  (useOpinionatedInstanceFilter provisionerRequirements = false
   <-> choosesInstanceTypes provisionerRequirements)
  /\ (forall before after extra,
        provisionerRequirements = before ++ after ->
        Key extra ∉ requirementKeys
        \/ Operator extra ∉ [ NodeSelectorOpIn; NodeSelectorOpExists;
                              NodeSelectorOpDoesNotExist ] ->
        useOpinionatedInstanceFilter (before ++ extra :: after)
        = useOpinionatedInstanceFilter provisionerRequirements).
Proof.
  split; [apply useOpinionatedInstanceFilter_false|].
  intros before after extra -> Hextra.
  assert (choosesInstanceTypes (before ++ extra :: after)
          <-> choosesInstanceTypes (before ++ after)) as Hiff.
  { unfold choosesInstanceTypes. split.
    - intros (r & Hr & Hk & Ho).
      apply elem_of_app in Hr as [Hr|Hr].
      + exists r. split; [apply elem_of_app; by left|done].
      + apply elem_of_cons in Hr as [->|Hr]; [by destruct Hextra|].
        exists r. split; [apply elem_of_app; by right|done].
    - intros (r & Hr & Hk & Ho). exists r. split; [|done].
      apply elem_of_app in Hr as [Hr|Hr]; apply elem_of_app;
        [by left|right; by apply list_elem_of_further]. }
  pose proof (useOpinionatedInstanceFilter_false (before ++ extra :: after))
    as H1.
  pose proof (useOpinionatedInstanceFilter_false (before ++ after)) as H2.
  destruct (useOpinionatedInstanceFilter (before ++ extra :: after)),
    (useOpinionatedInstanceFilter (before ++ after)); try done.
  - apply (proj2 H1), Hiff, H2. done.
  - symmetry. apply (proj2 H2), Hiff, H1. done.
Qed.

(** *** GetInstanceTypes *)

Lemma List_filter_sublist {A} (f : A -> bool) (l : list A) :
  sublist (List.filter f l) l.
Proof.
  induction l as [|x l IH]; simpl; [constructor|].
  destruct (f x); by constructor.
Qed.

(** X15: [GetInstanceTypes] returns instance types of the provider, in
    their order.  When the provisioner chooses instance types itself it
    returns all of them.  Otherwise it keeps every instance type of
    another implementation and every c3, m3 and r3 type, and of the rest
    drops exactly those flagged as not of the current generation and
    those whose name starts with t2 or u-. *)
Theorem GetInstanceTypes_filters_for_general_workloads
  (env : Env) (provisioner : ProvisionerSpec)
  (instanceTypes : list AnyInstanceType) :
  GetInstanceTypes env provisioner = ok instanceTypes ->
  exists aws all,
    getProvider env (Provider provisioner) (ProviderRef provisioner) = ok aws
    /\ instanceTypeProvider_Get env aws (KubeletConfiguration provisioner)
       = ok all
    /\ sublist instanceTypes all
    /\ (choosesInstanceTypes (Requirements provisioner) ->
        instanceTypes = all)
    /\ (~ choosesInstanceTypes (Requirements provisioner) ->
        forall it, it ∈ instanceTypes <->
          it ∈ all
          /\ match it with
             | Foreign _ => True
             | Provided cit =>
                 HasAnyPrefix (InstanceType_ cit) ["c3"; "m3"; "r3"] = true
                 \/ (CurrentGeneration cit <> Some false
                     /\ HasAnyPrefix (InstanceType_ cit) ["t2"; "u-"]
                        = false)
             end).
Proof.
  unfold GetInstanceTypes.
  destruct (getProvider env _ _) as [aws|err] eqn:Hprov; [|discriminate].
  destruct (instanceTypeProvider_Get env aws _) as [all|err] eqn:Hall;
    [|discriminate].
  pose proof (useOpinionatedInstanceFilter_false
                (Requirements provisioner)) as Hoff.
  destruct (useOpinionatedInstanceFilter (Requirements provisioner)).
  - intros [= <-]. exists aws, all. split; [done|]. split; [done|].
    split; [apply List_filter_sublist|]. split.
    { intros Hch. apply Hoff in Hch. discriminate. }
    intros _ it. split.
    + intros [Hin Hs]%list_elem_of_In%filter_In.
      split; [by apply list_elem_of_In|].
      destruct it as [cit|name]; [|done]. unfold suitsGeneralWorkloads in Hs.
      destruct (HasAnyPrefix (InstanceType_ cit) ["c3"; "m3"; "r3"]);
        [by left|]. right.
      destruct (CurrentGeneration cit) as [[|]|]; cbn [negb] in Hs;
        try discriminate;
        (destruct (HasAnyPrefix (InstanceType_ cit) ["t2"; "u-"]);
         [discriminate|by split]).
    + intros [Hin Hs]. apply list_elem_of_In, filter_In.
      split; [by apply list_elem_of_In|].
      destruct it as [cit|name]; [|done]. unfold suitsGeneralWorkloads.
      destruct (HasAnyPrefix (InstanceType_ cit) ["c3"; "m3"; "r3"]);
        [done|].
      destruct Hs as [Hs|[Hgen Ht2]]; [discriminate|]. rewrite Ht2.
      by destruct (CurrentGeneration cit) as [[|]|].
  - intros [= <-]. exists aws, all. split; [done|]. split; [done|].
    split; [reflexivity|]. split; [done|].
    intros Hno. exfalso. apply Hno. by apply Hoff.
Qed.

End AwsCloudProviderProps.

Section DefaultLabelsProps.
Import GoError AwsErrors Core AwsCloudProvider.

(** *** defaultLabels *)

Lemma hasLabel_settled (provisioner : ProvisionerSpec) (key : string) :
  bool_decide (is_Some (SpecLabels provisioner !! key))
  || existsb (fun requirement => bool_decide (Key requirement = key))
             (Requirements provisioner) = true
  <-> settled provisioner key.
Proof.
  unfold settled. rewrite orb_true_iff, bool_decide_eq_true.
  rewrite existsb_exists. split; intros [H|(r & Hr & Hk)]; auto; right;
    exists r.
  - apply bool_decide_eq_true in Hk. split; [by apply list_elem_of_In|done].
  - split; [by apply list_elem_of_In|by apply bool_decide_eq_true].
Qed.

Lemma defaultLabel_settled provisioner key value :
  settled provisioner key -> defaultLabel provisioner (key, value) = provisioner.
Proof.
  intros Hs. apply hasLabel_settled in Hs. unfold defaultLabel.
  by rewrite Hs.
Qed.

Lemma defaultLabel_settles provisioner key value :
  settled (defaultLabel provisioner (key, value)) key.
Proof.
  unfold defaultLabel.
  destruct (bool_decide (is_Some (SpecLabels provisioner !! key))
            || existsb (fun requirement => bool_decide (Key requirement = key))
                       (Requirements provisioner)) eqn:Hhas.
  - by apply hasLabel_settled.
  - right. exists {| Key := key; Operator := NodeSelectorOpIn;
                      ReqValues := [value] |}.
    split; [|reflexivity]. cbn [Requirements].
    apply elem_of_app. right. apply list_elem_of_here.
Qed.

Lemma defaultLabel_keeps provisioner default key :
  settled provisioner key -> settled (defaultLabel provisioner default) key.
Proof.
  destruct default as [k v]. unfold defaultLabel.
  destruct (_ || _); [done|].
  intros [Hl|(r & Hr & Hk)]; [by left|]. right. exists r. split; [|done].
  cbn [Requirements]. apply elem_of_app. by left.
Qed.

Lemma defaultLabels_keeps order provisioner key :
  settled provisioner key -> settled (defaultLabels order provisioner) key.
Proof.
  unfold defaultLabels. revert provisioner.
  induction order as [|d order IH]; intros p Hs; cbn [fold_left]; [done|].
  apply IH. by apply defaultLabel_keeps.
Qed.

Lemma defaultLabels_settles order provisioner key value :
  (key, value) ∈ order -> settled (defaultLabels order provisioner) key.
Proof.
  unfold defaultLabels. revert provisioner.
  induction order as [|d order IH]; intros p Hin; cbn [fold_left].
  - by apply elem_of_nil in Hin.
  - apply elem_of_cons in Hin as [<-|Hin]; [|by apply IH].
    apply (defaultLabels_keeps order). apply defaultLabel_settles.
Qed.

Lemma defaultLabels_fixpoint order provisioner :
  (forall key value, (key, value) ∈ order -> settled provisioner key) ->
  defaultLabels order provisioner = provisioner.
Proof.
  unfold defaultLabels.
  induction order as [|[k v] order IH]; intros Hall; cbn [fold_left];
    [done|].
  rewrite defaultLabel_settled.
  - apply IH. intros key value Hin. apply (Hall key value).
    by apply list_elem_of_further.
  - apply (Hall k v). apply list_elem_of_here.
Qed.

Lemma defaultLabel_adds provisioner key value :
  SpecLabels (defaultLabel provisioner (key, value)) = SpecLabels provisioner
  /\ Provider (defaultLabel provisioner (key, value)) = Provider provisioner
  /\ ProviderRef (defaultLabel provisioner (key, value))
     = ProviderRef provisioner
  /\ exists added,
       Requirements (defaultLabel provisioner (key, value))
       = Requirements provisioner ++ added
       /\ (added = []
           \/ (added = [ {| Key := key; Operator := NodeSelectorOpIn;
                            ReqValues := [value] |} ]
               /\ ~ settled provisioner key)).
Proof.
  unfold defaultLabel.
  destruct (bool_decide (is_Some (SpecLabels provisioner !! key))
            || existsb (fun requirement => bool_decide (Key requirement = key))
                       (Requirements provisioner)) eqn:Hhas.
  - repeat split. exists []. split; [by rewrite app_nil_r|by left].
  - repeat split. eexists. split; [reflexivity|]. right. split; [done|].
    intros Hs. apply hasLabel_settled in Hs. congruence.
Qed.

Lemma defaultLabels_adds order provisioner :
  SpecLabels (defaultLabels order provisioner) = SpecLabels provisioner
  /\ exists added,
       Requirements (defaultLabels order provisioner)
       = Requirements provisioner ++ added
       /\ (length added <= length order)%nat
       /\ Forall (fun r =>
                    Operator r = NodeSelectorOpIn
                    /\ (exists value, (Key r, value) ∈ order
                                      /\ ReqValues r = [value])
                    /\ ~ settled provisioner (Key r)) added.
Proof.
  unfold defaultLabels. revert provisioner.
  induction order as [|[k v] order IH]; intros p; cbn [fold_left].
  - split; [done|]. exists []. split; [by rewrite app_nil_r|].
    split; [done|constructor].
  - destruct (IH (defaultLabel p (k, v))) as (Hl & added & Hr & Hlen & Hall).
    destruct (defaultLabel_adds p k v) as (Hl1 & _ & _ & a1 & Hr1 & Ha1).
    split; [congruence|]. exists (a1 ++ added).
    split; [by rewrite Hr, Hr1, app_assoc|]. split.
    { rewrite length_app. destruct Ha1 as [->|[-> _]]; simpl; lia. }
    apply Forall_app. split.
    + destruct Ha1 as [->|[-> Hns]]; [constructor|].
      constructor; [|constructor]. split; [done|]. split; [|done].
      exists v. split; [apply list_elem_of_here|done].
    + eapply Forall_impl; [exact Hall|]. intros r (Hop & (value & Hin & Hv) & Hns).
      split; [done|]. split.
      * exists value. split; [by apply list_elem_of_further|done].
      * intros Hs. apply Hns. by apply defaultLabel_keeps.
Qed.

(** X16: [defaultLabels], whichever of the two defaults Go visits first:
    it leaves the labels and the requirements the provisioner has and
    appends at most one requirement per default, [In] its value, only
    for a key that was neither a label nor mentioned in a requirement;
    afterwards the capacity type and the architecture are both settled,
    and defaulting once more changes nothing. *)
Theorem defaultLabels_settles_capacity_type_and_architecture
  (order : list (string * string)) (provisioner : ProvisionerSpec) :
  Permutation labelDefaults order ->
  let defaulted := defaultLabels order provisioner in
  SpecLabels defaulted = SpecLabels provisioner
  /\ (exists added,
        Requirements defaulted = Requirements provisioner ++ added
        /\ (length added <= 2)%nat
        /\ Forall (fun r =>
                     Operator r = NodeSelectorOpIn
                     /\ (exists value, (Key r, value) ∈ labelDefaults
                                       /\ ReqValues r = [value])
                     /\ ~ settled provisioner (Key r)) added)
  /\ settled defaulted LabelCapacityType
  /\ settled defaulted LabelArchStable
  /\ (forall order', Permutation labelDefaults order' ->
                     defaultLabels order' defaulted = defaulted).
Proof.
  intros Hperm defaulted.
  assert (forall key value, (key, value) ∈ labelDefaults ->
                            settled defaulted key) as Hsettled.
  { intros key value Hin. apply (defaultLabels_settles order _ key value).
    by rewrite <- Hperm. }
  destruct (defaultLabels_adds order provisioner)
    as (Hlabels & added & Hreqs & Hlen & Hall).
  split; [done|]. split.
  { exists added. split; [done|]. split.
    - rewrite <- (Permutation_length Hperm) in Hlen. exact Hlen.
    - eapply Forall_impl; [exact Hall|].
      intros r (Hop & (value & Hin & Hv) & Hns). split; [done|].
      split; [|done]. exists value. split; [by rewrite Hperm|done]. }
  split; [apply (Hsettled _ DefaultTargetCapacityTypeOnDemand);
          apply list_elem_of_here|].
  split; [apply (Hsettled _ ArchitectureAmd64);
          apply list_elem_of_further, list_elem_of_here|].
  intros order' Hperm'. apply defaultLabels_fixpoint.
  intros key value Hin. apply (Hsettled key value). by rewrite Hperm'.
Qed.

End DefaultLabelsProps.

Section AwsCloudProviderWitnesses.
Import GoError AwsErrors Core AwsCloudProvider AwsCloudProviderExamples.

Lemma GetInstanceTypes_filters_for_general_workloads_witness :
  exists aws all,
    getProvider plainEnv (Provider plainProvisioner)
      (ProviderRef plainProvisioner) = ok aws
    /\ instanceTypeProvider_Get plainEnv aws
         (KubeletConfiguration plainProvisioner) = ok all
    /\ sublist generalTypes all
    /\ (choosesInstanceTypes (Requirements plainProvisioner) ->
        generalTypes = all)
    /\ (~ choosesInstanceTypes (Requirements plainProvisioner) ->
        forall it, it ∈ generalTypes <->
          it ∈ all
          /\ match it with
             | Foreign _ => True
             | Provided cit =>
                 HasAnyPrefix (InstanceType_ cit) ["c3"; "m3"; "r3"] = true
                 \/ (CurrentGeneration cit <> Some false
                     /\ HasAnyPrefix (InstanceType_ cit) ["t2"; "u-"]
                        = false)
             end).
Proof.
  apply (GetInstanceTypes_filters_for_general_workloads plainEnv
           plainProvisioner generalTypes).
  vm_compute. reflexivity.
Defined.

Lemma defaultLabels_settles_capacity_type_and_architecture_witness :
  let defaulted := defaultLabels archFirst plainProvisioner in
  SpecLabels defaulted = SpecLabels plainProvisioner
  /\ (exists added,
        Requirements defaulted = Requirements plainProvisioner ++ added
        /\ (length added <= 2)%nat
        /\ Forall (fun r =>
                     Operator r = NodeSelectorOpIn
                     /\ (exists value, (Key r, value) ∈ labelDefaults
                                       /\ ReqValues r = [value])
                     /\ ~ settled plainProvisioner (Key r)) added)
  /\ settled defaulted LabelCapacityType
  /\ settled defaulted LabelArchStable
  /\ (forall order', Permutation labelDefaults order' ->
                     defaultLabels order' defaulted = defaulted).
Proof.
  apply (defaultLabels_settles_capacity_type_and_architecture archFirst
           plainProvisioner).
  apply perm_swap.
Defined.

End AwsCloudProviderWitnesses.

(** ** Machines of the cloud provider *)

Section MachinesProps.
Import GoError Core Machines.

(** *** instanceToMachine *)

Lemma copyTag_lookup i key labels other :
  copyTag i key labels !! other
  = if decide (other = key)
    then match Tags i !! key with
         | Some v => Some v
         | None => labels !! key
         end
    else labels !! other.
Proof.
  unfold copyTag. destruct (decide (other = key)) as [->|Hne].
  - destruct (Tags i !! key); [apply lookup_insert_eq|done].
  - destruct (Tags i !! key); [by apply lookup_insert_ne|done].
Qed.

Lemma nonZero_lookup (m : gmap string Z) (k : string) (v : Z) :
  nonZero m !! k = Some v <-> m !! k = Some v /\ v <> 0.
Proof. unfold nonZero. by rewrite map_lookup_filter_Some. Qed.

(** X17: The machine built for an instance: its zone and capacity-type
    labels and its provider id are those of the instance, whatever the
    instance type requires; a provisioner or managed-by tag of the
    instance becomes the label of the same key; its capacity and
    allocatable resources are those of the instance type that are not
    zero; and without an instance type it has no resources and no label
    besides these four. *)
Theorem instanceToMachine_describes_the_instance
  (i : Instance) (instanceType : option InstanceType) :
  let machine := instanceToMachine i instanceType in
  MachineLabels machine !! LabelTopologyZone = Some (Zone i)
  /\ MachineLabels machine !! LabelCapacityType = Some (CapacityType i)
  /\ (forall key v,
        key = ProvisionerNameLabelKey \/ key = ManagedByLabelKey ->
        Tags i !! key = Some v -> MachineLabels machine !! key = Some v)
  /\ StatusProviderID machine = "aws:///" +:+ Zone i +:+ "/" +:+ ID i
  /\ CreationTimestamp machine = LaunchTime i
  /\ (forall k v,
        StatusCapacity machine !! k = Some v <->
        exists it, instanceType = Some it
                   /\ Capacity it !! k = Some v /\ v <> 0)
  /\ (forall k v,
        StatusAllocatable machine !! k = Some v <->
        exists it, instanceType = Some it
                   /\ Allocatable_ it !! k = Some v /\ v <> 0)
  /\ (instanceType = None ->
      forall key, is_Some (MachineLabels machine !! key) ->
                  key ∈ [ LabelTopologyZone; LabelCapacityType;
                          ProvisionerNameLabelKey; ManagedByLabelKey ]).
Proof.
  intros machine. subst machine. unfold instanceToMachine. cbv zeta.
  cbn [MachineLabels StatusProviderID CreationTimestamp StatusCapacity
       StatusAllocatable].
  split.
  { rewrite !copyTag_lookup. rewrite !decide_False by done.
    by rewrite lookup_insert_ne, lookup_insert_eq. }
  split.
  { rewrite !copyTag_lookup. rewrite !decide_False by done.
    by rewrite lookup_insert_eq. }
  split.
  { intros key v [-> | ->] Htag; rewrite !copyTag_lookup.
    - rewrite decide_False by done. rewrite decide_True by done.
      by rewrite Htag.
    - rewrite decide_True by done. by rewrite Htag. }
  split; [done|]. split; [done|]. split.
  { intros k v. destruct instanceType as [it|].
    - rewrite nonZero_lookup. split.
      + intros [H1 H2]. by exists it.
      + intros (it' & [= <-] & H1 & H2). by split.
    - rewrite lookup_empty. split; [discriminate|].
      by intros (it & Hit & _). }
  split.
  { intros k v. destruct instanceType as [it|].
    - rewrite nonZero_lookup. split.
      + intros [H1 H2]. by exists it.
      + intros (it' & [= <-] & H1 & H2). by split.
    - rewrite lookup_empty. split; [discriminate|].
      by intros (it & Hit & _). }
  intros -> key. rewrite !copyTag_lookup, !elem_of_cons.
  destruct (decide (key = ManagedByLabelKey)) as [->|H1]; [tauto|].
  destruct (decide (key = ProvisionerNameLabelKey)) as [->|H2]; [tauto|].
  destruct (decide (key = LabelCapacityType)) as [->|H3]; [tauto|].
  destruct (decide (key = LabelTopologyZone)) as [->|H4]; [tauto|].
  rewrite !lookup_insert_ne by done. rewrite lookup_empty.
  intros [? ?]. discriminate.
Qed.

(** *** Get and List *)

Lemma resolveInstanceTypeFromInstance_gone env instance :
  provisionerIsGone env instance ->
  resolveInstanceTypeFromInstance env instance = (None, None).
Proof.
  unfold provisionerIsGone, resolveInstanceTypeFromInstance,
    resolveProvisionerFromInstance.
  destruct (Tags instance !! ProvisionerNameLabelKey) as [name|].
  2:{ intros _. reflexivity. }
  destruct (kubeClient_GetProvisioner env name) as [provisioner|err].
  - intros (ref & err & Href & Hget & Hnf).
    unfold GetInstanceTypes, resolveNodeTemplate. rewrite Href, Hget.
    unfold Drift.IgnoreNotFound, Drift.IsNotFound in *. simpl.
    destruct (asStatusReason err); [|discriminate]. by rewrite Hnf.
  - intros Hnf. unfold Drift.IgnoreNotFound, Drift.IsNotFound in *. simpl.
    destruct (asStatusReason err); [|discriminate]. by rewrite Hnf.
Qed.

(** X18: [Get] and [List] do not fail for an instance whose provisioner
    can no longer be found: [Get] returns the machine built without an
    instance type, and [List], when every listed instance is in that
    state, returns one such machine per instance, in their order. *)
Theorem Get_and_List_tolerate_a_missing_provisioner (env : Env) :
  (forall providerID id instance,
     ParseInstanceID env providerID = ok id ->
     instanceProvider_Get env id = ok instance ->
     provisionerIsGone env instance ->
     Get env providerID = ok (instanceToMachine instance None))
  /\ (forall instances,
        instanceProvider_List env = ok instances ->
        Forall (provisionerIsGone env) instances ->
        List_ env
        = ok (List.map (fun i => instanceToMachine i None) instances)).
Proof.
  split.
  - intros providerID id instance Hid Hget Hgone. unfold Get.
    rewrite Hid, Hget.
    by rewrite (resolveInstanceTypeFromInstance_gone _ _ Hgone).
  - intros instances Hlist Hgone. unfold List_. rewrite Hlist.
    assert (forall machines,
              machinesOf env instances machines
              = ok (machines
                    ++ List.map (fun i => instanceToMachine i None) instances))
      as Hloop.
    { clear Hlist.
      induction Hgone as [|i rest Hi Hrest IH]; intros machines; simpl.
      - by rewrite app_nil_r.
      - rewrite (resolveInstanceTypeFromInstance_gone _ _ Hi).
        rewrite IH. by rewrite <- app_assoc. }
    apply Hloop.
Qed.

(** *** Create *)

(** X19: [Create] asks the instance provider for at most one launch, and
    only with the instance types of the provider's list that are
    eligible for the machine, in their order; when none is eligible it
    asks for nothing and returns the insufficient-capacity error.  A
    machine it returns is the one built for the launched instance. *)
Theorem Create_launches_only_eligible_instance_types
  (env : Env) (machine : Machine) :
  let '(result, launches) := Create env machine in
  (launches = []
   \/ exists nodeTemplate all launch,
        launches = [launch]
        /\ resolveNodeTemplate env
             (Some (Drift.label (Annotations machine)
                                ProviderCompatabilityAnnotationKey))
             (MachineTemplateRef machine) = ok nodeTemplate
        /\ instanceTypeProvider_List env (Kubelet machine) nodeTemplate
           = ok all
        /\ launchTemplate launch = nodeTemplate
        /\ launchMachine launch = machine
        /\ launchInstanceTypes launch = List.filter (eligible env machine) all
        /\ launchInstanceTypes launch <> [])
  /\ ((exists err, result = InsufficientCapacityError err) <->
      exists nodeTemplate all,
        resolveNodeTemplate env
          (Some (Drift.label (Annotations machine)
                             ProviderCompatabilityAnnotationKey))
          (MachineTemplateRef machine) = ok nodeTemplate
        /\ instanceTypeProvider_List env (Kubelet machine) nodeTemplate
           = ok all
        /\ Forall (fun it => eligible env machine it = false) all)
  /\ (forall err, result = InsufficientCapacityError err -> launches = [])
  /\ (forall created,
        result = Created created ->
        exists launch instance,
          launches = [launch]
          /\ instanceProvider_Create env (launchTemplate launch) machine
               (launchInstanceTypes launch) = ok instance
          /\ created
             = instanceToMachine instance
                 (findType (launchInstanceTypes launch) (Type_ instance))).
Proof.
  unfold Create.
  destruct (resolveNodeTemplate env _ _) as [nodeTemplate|err] eqn:Htpl.
  2:{ split; [by left|]. split; [|by split].
      split; [by intros [? ?]|]. by intros (? & ? & ? & _). }
  unfold resolveInstanceTypes.
  destruct (instanceTypeProvider_List env (Kubelet machine) nodeTemplate)
    as [all|err] eqn:Hall.
  2:{ split; [by left|]. split; [|by split].
      split; [by intros [? ?]|].
      intros (t & a & [= <-] & Ha & _). congruence. }
  assert (List.filter (eligible env machine) all = []
          <-> Forall (fun it => eligible env machine it = false) all)
    as Hnone.
  { clear. induction all as [|it all IH]; simpl; [by split|].
    destruct (eligible env machine it) eqn:He.
    - split; [discriminate|]. intros H. inversion H; congruence.
    - rewrite IH. split; [by constructor|]. by inversion 1. }
  case_bool_decide as Hlen.
  - apply length_zero_iff_nil in Hlen.
    split; [by left|]. split; [|split; [done|discriminate]].
    split; [|by eauto]. intros _. exists nodeTemplate, all.
    split; [done|]. split; [done|]. by apply Hnone.
  - assert (List.filter (eligible env machine) all <> []) as Hne.
    { intros Heq. apply Hlen. by rewrite Heq. }
    destruct (instanceProvider_Create env nodeTemplate machine _)
      as [instance|err] eqn:Hcreate.
    + split.
      { right. eexists nodeTemplate, all, _. by repeat split. }
      split.
      { split; [by intros [? ?]|].
        intros (t & a & [= <-] & Ha & Hf). exfalso. apply Hne.
        apply Hnone. congruence. }
      split; [discriminate|]. intros created [= <-].
      eexists _, instance. by repeat split.
    + split.
      { right. eexists nodeTemplate, all, _. by repeat split. }
      split.
      { split; [by intros [? ?]|].
        intros (t & a & [= <-] & Ha & Hf). exfalso. apply Hne.
        apply Hnone. congruence. }
      split; discriminate.
Qed.

End MachinesProps.

(** ** AMI families *)

Section BucketsProps.
Import GoError Core AmiFamily.

Variable AsApproximateFloat64 : Quantity -> Float64.
Variable requested : Quantity.


Lemma request_ge_trans : Transitive (request_ge AsApproximateFloat64).
Proof.
  intros a b c. unfold request_ge, float_le. intros H1 H2.
  eapply QArith_base.Qle_trans; eassumption.
Qed.

Lemma request_ge_total : Total (request_ge AsApproximateFloat64).
Proof.
  intros a b. unfold request_ge, float_le.
  destruct (QArith_base.Qlt_le_dec (AsApproximateFloat64 a.1)
                                   (AsApproximateFloat64 b.1)) as [Hlt|Hle].
  - right. by apply QArith_base.Qlt_le_weak.
  - by left.
Qed.

Lemma elem_of_concat {A} (x : A) (ls : list (list A)) :
  x ∈ concat ls <-> exists l, x ∈ l /\ l ∈ ls.
Proof.
  split.
  - intros H%list_elem_of_In%in_concat. destruct H as (l & Hl & Hx).
    exists l. split; by apply list_elem_of_In.
  - intros (l & Hx & Hl). apply list_elem_of_In, in_concat. exists l.
    split; by apply list_elem_of_In.
Qed.

(** The instance types of the buckets, in the order of the buckets. *)
Lemma addRequest_members state request :
  concat (List.map snd (closeBuckets ((addRequest AsApproximateFloat64) state request)))
  = concat (List.map snd (closeBuckets state)) ++ [request.2].
Proof.
  destruct state as [buckets [current|]]; unfold closeBuckets; simpl.
  - destruct (float_gt _ _); simpl;
      rewrite !List.map_app, !concat_app; simpl;
      rewrite ?app_nil_r, <- ?app_assoc; done.
  - rewrite !List.map_app, !concat_app. simpl. by rewrite !app_nil_r.
Qed.

Lemma fold_addRequest_members requests state :
  concat (List.map snd (closeBuckets (fold_left (addRequest AsApproximateFloat64) requests state)))
  = concat (List.map snd (closeBuckets state)) ++ List.map snd requests.
Proof.
  revert state. induction requests as [|r requests IH]; intros state;
    cbn [fold_left List.map].
  - by rewrite app_nil_r.
  - rewrite IH, addRequest_members. by rewrite <- app_assoc.
Qed.

Lemma addRequest_nonempty state request :
  Forall (fun b : Bucket => b.2 <> []) (closeBuckets state) ->
  Forall (fun b : Bucket => b.2 <> [])
         (closeBuckets ((addRequest AsApproximateFloat64) state request)).
Proof.
  destruct state as [buckets [current|]]; unfold closeBuckets; simpl.
  - intros H. apply Forall_app in H as [H1 H2].
    apply Forall_cons in H2 as [H2 _].
    destruct (float_gt _ _); simpl.
    + apply Forall_app. split; [apply Forall_app; split; [done|]|];
        by repeat constructor.
    + apply Forall_app. split; [done|]. constructor; [|constructor].
      simpl. by destruct current.2.
  - rewrite app_nil_r. intros H. apply Forall_app. split; [done|].
    by repeat constructor.
Qed.

Lemma computeEphemeralStorageBuckets_members
  (instanceTypes : list InstanceType) :
  Permutation
    (concat (List.map snd
               (computeEphemeralStorageBuckets AsApproximateFloat64 requested
                  instanceTypes)))
    instanceTypes.
Proof.
  unfold computeEphemeralStorageBuckets. cbv zeta.
  rewrite fold_addRequest_members. unfold closeBuckets. simpl.
  rewrite (merge_sort_Permutation (request_ge AsApproximateFloat64)).
  rewrite List.map_map. simpl. by rewrite List.map_id.
Qed.

Lemma computeEphemeralStorageBuckets_nonempty
  (instanceTypes : list InstanceType) :
  Forall (fun bucket : Bucket => bucket.2 <> [])
         (computeEphemeralStorageBuckets AsApproximateFloat64 requested
            instanceTypes).
Proof.
  unfold computeEphemeralStorageBuckets. cbv zeta.
  generalize (merge_sort (request_ge AsApproximateFloat64)
                (List.map (fun it => ((storageRequest requested) it, it))
                          instanceTypes)).
  intros requests.
  assert (forall state,
            Forall (fun b : Bucket => b.2 <> []) (closeBuckets state) ->
            Forall (fun b : Bucket => b.2 <> [])
                   (closeBuckets
                      (fold_left (addRequest AsApproximateFloat64)
                                 requests state)))
    as Hloop.
  { induction requests as [|r requests IH]; intros state Hs;
      cbn [fold_left]; [done|].
    apply IH. by apply addRequest_nonempty. }
  apply Hloop. constructor.
Qed.

(** The invariant of the loop over the sorted requests: every bucket is
    well sized, and the first request of the current bucket is at least
    as large as every request still to come. *)
Lemma fold_addRequest_wellSized requests state :
  StronglySorted (request_ge AsApproximateFloat64) requests ->
  Forall (fun r => r.1 = (storageRequest requested) r.2) requests ->
  Forall (wellSized AsApproximateFloat64 requested) (closeBuckets state) ->
  (forall current, state.2 = Some current ->
     Forall (fun r => float_le (AsApproximateFloat64 r.1)
                               (AsApproximateFloat64 current.1)) requests) ->
  Forall (wellSized AsApproximateFloat64 requested) (closeBuckets (fold_left (addRequest AsApproximateFloat64) requests state)).
Proof.
  revert state.
  induction requests as [|r requests IH]; intros state Hsorted Hreq Hgood Hcur;
    cbn [fold_left]; [done|].
  apply StronglySorted_inv in Hsorted as [Hsorted Hr].
  apply Forall_cons in Hreq as [Hr1 Hreq].
  assert ((wellSized AsApproximateFloat64 requested) (r.1, [r.2])) as Hfresh.
  { exists r.2, []. split; [done|]. split; [done|]. constructor. }
  assert (Forall (fun r' => float_le (AsApproximateFloat64 r'.1)
                                     (AsApproximateFloat64 r.1)) requests)
    as Hbelow.
  { eapply Forall_impl; [exact Hr|]. by intros r' H. }
  apply IH; try done.
  - destruct state as [buckets [current|]]; unfold closeBuckets in *;
      simpl in *.
    + apply Forall_app in Hgood as [Hb Hc].
      apply Forall_cons in Hc as [Hc _].
      destruct (float_gt _ _) eqn:Hgt; simpl.
      * apply Forall_app. split; [apply Forall_app; split; [done|]|];
          by repeat constructor.
      * apply Forall_app. split; [done|]. constructor; [|constructor].
        destruct Hc as (first & others & Hm & Hq & Hall).
        exists first, (others ++ [r.2]). simpl.
        split; [by rewrite Hm|]. split; [done|].
        apply Forall_app. split; [done|]. constructor; [|constructor].
        rewrite <- Hr1. split.
        -- specialize (Hcur current eq_refl).
           by apply Forall_cons in Hcur as [Hcur _].
        -- unfold float_gt in Hgt. apply negb_false_iff in Hgt.
           by apply bool_decide_eq_true in Hgt.
    + rewrite app_nil_r in Hgood. apply Forall_app. split; [done|].
      by repeat constructor.
  - destruct state as [buckets [current|]]; simpl.
    + destruct (float_gt _ _); simpl; intros c [= <-]; simpl; [done|].
      specialize (Hcur current eq_refl).
      by apply Forall_cons in Hcur as [_ Hcur].
    + by intros c [= <-].
Qed.

Lemma computeEphemeralStorageBuckets_wellSized
  (instanceTypes : list InstanceType) :
  Forall (wellSized AsApproximateFloat64 requested)
         (computeEphemeralStorageBuckets AsApproximateFloat64 requested
            instanceTypes).
Proof.
  unfold computeEphemeralStorageBuckets. cbv zeta.
  apply fold_addRequest_wellSized.
  - apply (@StronglySorted_merge_sort _ (request_ge AsApproximateFloat64) _
             request_ge_trans request_ge_total).
  - rewrite (merge_sort_Permutation (request_ge AsApproximateFloat64)).
    apply Forall_forall. intros r Hr.
    apply list_elem_of_In, in_map_iff in Hr as (it & <- & _). done.
  - constructor.
  - intros current. discriminate.
Qed.

(** X20: [computeEphemeralStorageBuckets] puts every instance type in
    exactly one bucket: the members of the buckets, taken together, are
    the given instance types in another order.  No bucket is empty, and
    each is sized for its first instance type, whose storage request is
    the largest of the bucket and exceeds no other one of the bucket by
    more than 10Gi, as far as the [float64] comparisons of the source
    tell. *)
Theorem computeEphemeralStorageBuckets_partitions_by_size
  (instanceTypes : list InstanceType) :
  let buckets :=
    computeEphemeralStorageBuckets AsApproximateFloat64 requested
      instanceTypes in
  Permutation (concat (List.map snd buckets)) instanceTypes
  /\ (forall it, it ∈ instanceTypes ->
                 exists bucket, bucket ∈ buckets /\ it ∈ bucket.2)
  /\ Forall (fun bucket =>
               bucket.2 <> []
               /\ wellSized AsApproximateFloat64 requested bucket) buckets.
Proof.
  intros buckets.
  pose proof (computeEphemeralStorageBuckets_members instanceTypes) as Hperm.
  fold buckets in Hperm. split; [done|]. split.
  - intros it Hit. rewrite <- Hperm in Hit.
    apply elem_of_concat in Hit as (members & Hit & Hmembers).
    apply list_elem_of_In, in_map_iff in Hmembers as (bucket & <- & Hb).
    exists bucket. split; [by apply list_elem_of_In|done].
  - apply Forall_and. split.
    + apply computeEphemeralStorageBuckets_nonempty.
    + apply computeEphemeralStorageBuckets_wellSized.
Qed.

(** *** Resolve, over a node request *)

(** X21: The launch templates [Resolve] builds from the AMIs of the AMI
    provider carry exactly the instance types the provider filed under
    each AMI: a template holds instance types of its own AMI only, and
    every instance type of an AMI is in a template of that AMI.  Without
    block device mappings of the provider, the default block devices of
    a template are sized for the largest storage request among its
    instance types; with them, there is one template per AMI. *)
Theorem Resolve_keeps_the_instance_types_of_each_AMI
  (userData : res string) (amiIDs : gmap string (list InstanceType))
  (providerBlockDeviceMappings : option (list BlockDeviceMapping))
  (templates : list ResolvedLaunchTemplate) :
  ForNodeRequest.Resolve AsApproximateFloat64 requested userData (ok amiIDs)
    providerBlockDeviceMappings = ok templates ->
  (forall template,
     template ∈ templates ->
     exists instanceTypes,
       amiIDs !! ResolvedAMIID template = Some instanceTypes
       /\ (forall it, it ∈ ResolvedInstanceTypes template ->
                      it ∈ instanceTypes)
       /\ match ResolvedBlockDevices template with
          | DefaultBlockDeviceMappings quantity =>
              providerBlockDeviceMappings = None
              /\ wellSized AsApproximateFloat64 requested
                   (quantity, ResolvedInstanceTypes template)
          | ProviderBlockDeviceMappings mappings =>
              providerBlockDeviceMappings = Some mappings
              /\ ResolvedInstanceTypes template = instanceTypes
          end)
  /\ (forall amiID instanceTypes it,
        amiIDs !! amiID = Some instanceTypes -> it ∈ instanceTypes ->
        exists template,
          template ∈ templates
          /\ ResolvedAMIID template = amiID
          /\ it ∈ ResolvedInstanceTypes template).
Proof.
  unfold ForNodeRequest.Resolve.
  destruct userData as [userDataString|err]; [|discriminate].
  intros [= <-]. split.
  - intros template Hin.
    apply list_elem_of_In, in_flat_map in Hin as ([amiID its] & Hentry & Hin).
    apply list_elem_of_In, elem_of_map_to_list in Hentry.
    unfold ForNodeRequest.templatesOf in Hin.
    destruct providerBlockDeviceMappings as [mappings|].
    + destruct Hin as [<-|[]]. exists its. cbn. by repeat split.
    + apply in_map_iff in Hin as (bucket & <- & Hb). cbn.
      apply list_elem_of_In in Hb.
      exists its. split; [done|]. split.
      * intros it Hit.
        rewrite <- (computeEphemeralStorageBuckets_members its).
        apply elem_of_concat. exists bucket.2. split; [done|].
        apply list_elem_of_In, in_map, list_elem_of_In, Hb.
      * split; [done|].
        pose proof (computeEphemeralStorageBuckets_wellSized its) as Hws.
        rewrite Forall_forall in Hws. specialize (Hws bucket Hb).
        by destruct bucket.
  - intros amiID its it Hami Hit.
    assert (exists template,
              template ∈ ForNodeRequest.templatesOf AsApproximateFloat64
                           requested providerBlockDeviceMappings amiID its
              /\ ResolvedAMIID template = amiID
              /\ it ∈ ResolvedInstanceTypes template)
      as (template & Hin & Hid & Hmem).
    { unfold ForNodeRequest.templatesOf.
      destruct providerBlockDeviceMappings as [mappings|].
      - eexists. split; [apply list_elem_of_here|]. by split.
      - rewrite <- (computeEphemeralStorageBuckets_members its) in Hit.
        apply elem_of_concat in Hit as (members & Hit & Hmembers).
        apply list_elem_of_In, in_map_iff in Hmembers as (bucket & <- & Hb).
        eexists. split.
        + apply list_elem_of_In, in_map_iff. eexists. split; [reflexivity|].
          exact Hb.
        + by split. }
    exists template. split; [|by split].
    apply list_elem_of_In, in_flat_map. exists (amiID, its).
    split; [by apply list_elem_of_In, elem_of_map_to_list|].
    by apply list_elem_of_In.
Qed.

End BucketsProps.

Section AmiProviderProps.
Import GoError Core AmiFamily.

(** *** AMIProvider.Get *)

Lemma newer_trans env : Transitive (newer env).
Proof. intros a b c. unfold newer. lia. Qed.

Lemma newer_total env : Total (newer env).
Proof. intros a b. unfold newer. lia. Qed.

Lemma find_split {A} (p : A -> bool) (l : list A) (x : A) :
  List.find p l = Some x ->
  p x = true
  /\ exists l1 l2, l = l1 ++ x :: l2 /\ Forall (fun y => p y = false) l1.
Proof.
  induction l as [|y l IH]; simpl; [discriminate|].
  destruct (p y) eqn:Hy.
  - intros [= ->]. split; [done|]. by exists [], l.
  - intros H. destruct (IH H) as (Hx & l1 & l2 & -> & Hl1).
    split; [done|]. exists (y :: l1), l2. split; [done|]. by constructor.
Qed.

Lemma find_none_iff {A} (p : A -> bool) (l : list A) :
  List.find p l = None <-> forall x, x ∈ l -> p x = false.
Proof.
  split.
  - intros H x Hx. apply list_elem_of_In in Hx.
    by apply (find_none _ _ H).
  - intros H. induction l as [|y l IH]; simpl; [done|].
    rewrite (H y) by apply list_elem_of_here. apply IH.
    intros x Hx. apply H. by apply list_elem_of_further.
Qed.

(** The first compatible image of the sorted images is a newest
    compatible image. *)
Lemma firstCompatible_newest env amis instanceType ami :
  firstCompatible env (sortAMIsByCreationDate env amis) instanceType
  = Some ami ->
  newestCompatible env amis instanceType ami.
Proof.
  unfold firstCompatible, sortAMIsByCreationDate. intros Hfind.
  apply find_split in Hfind as (Hc & l1 & l2 & Hl & Hl1).
  pose proof (@StronglySorted_merge_sort _ (newer env) _ (newer_trans env)
                (newer_total env) amis) as Hsorted.
  rewrite Hl in Hsorted. split.
  { rewrite <- (merge_sort_Permutation (newer env)), Hl.
    apply elem_of_app. right. apply list_elem_of_here. }
  split; [done|]. intros other Hother Hco.
  rewrite <- (merge_sort_Permutation (newer env)), Hl in Hother.
  apply elem_of_app in Hother as [Hother|Hother].
  - rewrite Forall_forall in Hl1. rewrite (Hl1 other Hother) in Hco.
    discriminate.
  - apply elem_of_cons in Hother as [->|Hother]; [lia|].
    apply StronglySorted_app_1_r, StronglySorted_inv in Hsorted
      as [_ Hafter].
    rewrite Forall_forall in Hafter. apply (Hafter other Hother).
Qed.

(** The invariant of the loop over the instance types: under each image
    id stand, in their order, the instance types seen so far whose first
    compatible image has that id; an id without any is not a key. *)
Lemma fold_mapInstanceType env sorted instanceTypes :
  forall id,
    match fold_left (mapInstanceType env sorted) instanceTypes ∅ !! id with
    | Some data =>
        InstanceTypes data <> []
        /\ InstanceTypes data
           = List.filter
               (fun it =>
                  bool_decide
                    (EC2.StringValue ∘ ImageId
                       <$> firstCompatible env sorted it = Some id))
               instanceTypes
    | None =>
        List.filter
          (fun it =>
             bool_decide
               (EC2.StringValue ∘ ImageId
                  <$> firstCompatible env sorted it = Some id))
          instanceTypes = []
    end.
Proof.
  assert (forall processed (m : gmap string MappingData),
            (forall id,
               match m !! id with
               | Some data =>
                   InstanceTypes data <> []
                   /\ InstanceTypes data
                      = List.filter
                          (fun it =>
                             bool_decide
                               (EC2.StringValue ∘ ImageId
                                  <$> firstCompatible env sorted it
                                = Some id))
                          processed
               | None =>
                   List.filter
                     (fun it =>
                        bool_decide
                          (EC2.StringValue ∘ ImageId
                             <$> firstCompatible env sorted it = Some id))
                     processed = []
               end) ->
            forall id,
              match fold_left (mapInstanceType env sorted) instanceTypes m
                    !! id with
              | Some data =>
                  InstanceTypes data <> []
                  /\ InstanceTypes data
                     = List.filter
                         (fun it =>
                            bool_decide
                              (EC2.StringValue ∘ ImageId
                                 <$> firstCompatible env sorted it
                               = Some id))
                         (processed ++ instanceTypes)
              | None =>
                  List.filter
                    (fun it =>
                       bool_decide
                         (EC2.StringValue ∘ ImageId
                            <$> firstCompatible env sorted it = Some id))
                    (processed ++ instanceTypes) = []
              end) as Hgen.
  { induction instanceTypes as [|it rest IH]; intros processed m Hinv id;
      cbn [fold_left].
    - rewrite app_nil_r. apply Hinv.
    - replace (processed ++ it :: rest) with ((processed ++ [it]) ++ rest)
        by (by rewrite <- app_assoc).
      apply IH. clear id. intros id. rewrite List.filter_app.
      cbn [List.filter]. unfold mapInstanceType.
      destruct (firstCompatible env sorted it) as [ami|] eqn:Hfirst.
      + cbn [fmap option_fmap option_map compose]. unfold addToMapping.
        cbv zeta.
        destruct (decide (id = EC2.StringValue (ImageId ami))) as [->|Hne].
        * rewrite bool_decide_eq_true_2 by done.
          specialize (Hinv (EC2.StringValue (ImageId ami))).
          destruct (m !! EC2.StringValue (ImageId ami)) as [data|].
          -- rewrite lookup_insert_eq. cbn [InstanceTypes].
             destruct Hinv as [_ ->]. split; [|done].
             by destruct (List.filter _ processed).
          -- rewrite lookup_insert_eq. cbn [InstanceTypes].
             rewrite Hinv. by split.
        * rewrite bool_decide_eq_false_2 by congruence.
          rewrite app_nil_r. specialize (Hinv id).
          destruct (m !! EC2.StringValue (ImageId ami)) as [data0|];
            by rewrite lookup_insert_ne.
      + cbn [fmap option_fmap option_map]. rewrite bool_decide_eq_false_2
          by done.
        rewrite app_nil_r. apply Hinv. }
  intros id. apply (Hgen [] ∅). intros id'. by rewrite lookup_empty.
Qed.

Lemma elem_of_List_filter_iff {A} (f : A -> bool) (l : list A) (x : A) :
  x ∈ List.filter f l <-> x ∈ l /\ f x = true.
Proof.
  split.
  - intros H%list_elem_of_In%filter_In. destruct H as [H1 H2].
    split; [by apply list_elem_of_In|done].
  - intros [H1%list_elem_of_In H2]. apply list_elem_of_In, filter_In.
    by split.
Qed.

(** X22: With an AMI selector, [Get] files every instance type under the
    id of one image only: a selected image it is compatible with, and a
    newest one among those.  An instance type compatible with no
    selected image is left out, no id stands without instance types, and
    when every instance type is left out [Get] fails. *)
Theorem Get_maps_instance_types_to_their_newest_image
  (env : Env) (amiSelector : gmap string string)
  (instanceTypes : list InstanceType) (amiMapping : gmap string MappingData) :
  size amiSelector <> 0%nat ->
  Get env amiSelector instanceTypes = ok amiMapping ->
  exists amis,
    fetchImagesFromEC2 env amiSelector = ok amis
    /\ amiMapping <> ∅
    /\ (forall id data,
          amiMapping !! id = Some data -> InstanceTypes data <> [])
    /\ (forall it id data,
          amiMapping !! id = Some data -> it ∈ InstanceTypes data ->
          it ∈ instanceTypes
          /\ exists ami, newestCompatible env amis it ami
                         /\ EC2.StringValue (ImageId ami) = id)
    /\ (forall it id1 data1 id2 data2,
          amiMapping !! id1 = Some data1 -> it ∈ InstanceTypes data1 ->
          amiMapping !! id2 = Some data2 -> it ∈ InstanceTypes data2 ->
          id1 = id2)
    /\ (forall it ami,
          it ∈ instanceTypes -> ami ∈ amis ->
          Compatible env (Requirements_ it) (ImageRequirements ami) = true ->
          exists id data, amiMapping !! id = Some data
                          /\ it ∈ InstanceTypes data).
Proof.
  intros Hsel. unfold Get.
  destruct (KubeServerVersion env) as [version|err]; [|discriminate].
  unfold getImages. rewrite bool_decide_eq_false_2 by done.
  unfold selectImages.
  destruct (fetchImagesFromEC2 env amiSelector) as [amis|err];
    [|discriminate].
  case_bool_decide as Hlen; [discriminate|].
  rewrite bool_decide_eq_true_2 by lia.
  cbv zeta. case_bool_decide as Hsize; [discriminate|].
  intros [= <-]. exists amis. split; [done|].
  pose proof (fold_mapInstanceType env (sortAMIsByCreationDate env amis)
                instanceTypes) as Hinv.
  set (m := fold_left _ instanceTypes ∅) in *.
  assert (forall it id data,
            m !! id = Some data -> it ∈ InstanceTypes data ->
            it ∈ instanceTypes
            /\ EC2.StringValue ∘ ImageId
                 <$> firstCompatible env (sortAMIsByCreationDate env amis) it
               = Some id) as Hmember.
  { intros it id data Hm Hit. specialize (Hinv id). rewrite Hm in Hinv.
    destruct Hinv as [_ Heq]. rewrite Heq in Hit.
    apply elem_of_List_filter_iff in Hit as [Hit Hid].
    by apply bool_decide_eq_true in Hid. }
  split.
  { intros Hempty. apply Hsize. rewrite Hempty. apply map_size_empty. }
  split.
  { intros id data Hm. specialize (Hinv id). rewrite Hm in Hinv.
    by destruct Hinv. }
  split.
  { intros it id data Hm Hit.
    destruct (Hmember it id data Hm Hit) as [Hin Hid]. split; [done|].
    destruct (firstCompatible env _ it) as [ami|] eqn:Hfirst;
      [|discriminate].
    exists ami. split; [by apply firstCompatible_newest|].
    by injection Hid. }
  split.
  { intros it id1 data1 id2 data2 Hm1 Hit1 Hm2 Hit2.
    destruct (Hmember it id1 data1 Hm1 Hit1) as [_ H1].
    destruct (Hmember it id2 data2 Hm2 Hit2) as [_ H2]. congruence. }
  intros it ami Hit Hami Hco.
  destruct (firstCompatible env (sortAMIsByCreationDate env amis) it)
    as [first|] eqn:Hfirst.
  - exists (EC2.StringValue (ImageId first)).
    specialize (Hinv (EC2.StringValue (ImageId first))).
    assert (it ∈ List.filter
              (fun it0 =>
                 bool_decide
                   (EC2.StringValue ∘ ImageId
                      <$> firstCompatible env
                            (sortAMIsByCreationDate env amis) it0
                    = Some (EC2.StringValue (ImageId first))))
              instanceTypes) as Hin.
    { apply elem_of_List_filter_iff. split; [done|].
      apply bool_decide_eq_true. by rewrite Hfirst. }
    destruct (m !! EC2.StringValue (ImageId first)) as [data|].
    + exists data. split; [done|]. destruct Hinv as [_ ->]. done.
    + rewrite Hinv in Hin. by apply elem_of_nil in Hin.
  - exfalso. unfold firstCompatible in Hfirst.
    rewrite find_none_iff in Hfirst.
    rewrite (Hfirst ami) in Hco; [discriminate|].
    unfold sortAMIsByCreationDate.
    by rewrite (merge_sort_Permutation (newer env)).
Qed.

(** *** Resolve *)

Lemma resolveAll_custom custom needed entries templates :
  custom <> [] -> entries <> [] ->
  exists msg, resolveAll custom needed entries templates = Panicked msg.
Proof.
  intros Hcustom Hentries.
  destruct entries as [|[id data] rest]; [done|]. cbn [resolveAll].
  unfold resolveOne. rewrite bool_decide_eq_false_2.
  - by eexists.
  - intros Hlen. apply length_zero_iff_nil in Hlen. done.
Qed.

Lemma resolveAll_Returned custom needed entries templates result :
  resolveAll custom needed entries templates = Returned result ->
  exists added,
    result = templates ++ added
    /\ (entries <> [] -> custom = [])
    /\ Forall2
         (fun (entry : string * MappingData) template =>
            AMIID template = entry.1
            /\ LaunchInstanceTypes template = InstanceTypes entry.2
            /\ exists first rest ebs size neededStorage volume,
                 BlockDeviceMappings entry.2 = first :: rest
                 /\ EBS first = Some ebs
                 /\ VolumeSize ebs = Some size
                 /\ needed = Returned neededStorage
                 /\ LaunchBlockDeviceMappings template
                    = {| DeviceName := DeviceName first;
                         EBS := Some {| VolumeSize := Some volume;
                                        VolumeType := VolumeType ebs |} |}
                      :: rest
                 /\ minEphemeralStorage <= volume
                 /\ size <= volume
                 /\ neededStorage <= volume)
         entries added.
Proof.
  revert templates.
  induction entries as [|[id data] entries IH]; intros templates;
    cbn [resolveAll].
  - intros [= <-]. exists []. split; [by rewrite app_nil_r|].
    split; [done|constructor].
  - unfold resolveOne. case_bool_decide as Hcustom; [|discriminate].
    apply length_zero_iff_nil in Hcustom.
    destruct (BlockDeviceMappings data) as [|first rest] eqn:Hbdm;
      [discriminate|].
    destruct (EBS first) as [ebs|] eqn:Hebs; [|discriminate].
    destruct (VolumeSize ebs) as [size|] eqn:Hsize; [|discriminate].
    destruct needed as [neededStorage|msg] eqn:Hneeded; [|discriminate].
    intros Hrest.
    destruct (IH _ Hrest) as (added & -> & _ & Hall).
    eexists (_ :: added). split; [by rewrite <- app_assoc|].
    split; [done|]. constructor; [|done].
    cbn. split; [done|]. split; [done|].
    exists first, rest, ebs, size, neededStorage,
      (Max3 minEphemeralStorage size neededStorage).
    unfold Max3. repeat split; try done; lia.
Qed.

(** X23: [Resolve] panics whenever the node template has block device
    mappings of its own and an image was resolved: it indexes the slice
    it then left nil.  When it returns, there is one launch template per
    image id of the mapping, with the instance types filed under that
    id; its block devices are those of the image, the first with a
    volume of at least 20Gi, at least the size the image asks for and at
    least the storage the machine needs. *)
Theorem Resolve_sizes_the_first_volume_or_panics
  (env : Env) (amiSelector : gmap string string)
  (custom : list BlockDeviceMapping) (needed : outcome Quantity)
  (instanceTypes : list InstanceType) :
  (forall amiMapping,
     Get env amiSelector instanceTypes = ok amiMapping ->
     custom <> [] -> amiMapping <> ∅ ->
     exists msg,
       Resolve env amiSelector custom needed instanceTypes = Panicked msg)
  /\ (forall templates,
        Resolve env amiSelector custom needed instanceTypes
        = Returned (ok templates) ->
        exists amiMapping,
          Get env amiSelector instanceTypes = ok amiMapping
          /\ (amiMapping <> ∅ -> custom = [])
          /\ Forall2
               (fun (entry : string * MappingData) template =>
                  AMIID template = entry.1
                  /\ LaunchInstanceTypes template = InstanceTypes entry.2
                  /\ exists first rest ebs size neededStorage volume,
                       BlockDeviceMappings entry.2 = first :: rest
                       /\ EBS first = Some ebs
                       /\ VolumeSize ebs = Some size
                       /\ needed = Returned neededStorage
                       /\ LaunchBlockDeviceMappings template
                          = {| DeviceName := DeviceName first;
                               EBS := Some
                                 {| VolumeSize := Some volume;
                                    VolumeType := VolumeType ebs |} |}
                            :: rest
                       /\ minEphemeralStorage <= volume
                       /\ size <= volume
                       /\ neededStorage <= volume)
               (map_to_list amiMapping) templates).
Proof.
  split.
  - intros amiMapping Hget Hcustom Hne. unfold Resolve. rewrite Hget.
    destruct (resolveAll_custom custom needed (map_to_list amiMapping) [])
      as (msg & ->); [done| |by eexists].
    intros Hnil. apply Hne. by apply map_to_list_empty_iff.
  - intros templates. unfold Resolve.
    destruct (Get env amiSelector instanceTypes) as [amiMapping|err];
      [|discriminate].
    destruct (resolveAll custom needed (map_to_list amiMapping) [])
      as [result|msg] eqn:Hall; [|discriminate].
    intros [= <-]. exists amiMapping. split; [done|].
    destruct (resolveAll_Returned _ _ _ _ _ Hall) as (added & -> & Hc & HF).
    split; [|done]. intros Hne. apply Hc. intros Hnil. apply Hne.
    by apply map_to_list_empty_iff.
Qed.

End AmiProviderProps.

Section AmiFamilyWitnesses.
Import GoError Core AmiFamily AmiFamilyExamples.

Lemma Resolve_keeps_the_instance_types_of_each_AMI_witness :
  (forall template,
     template ∈ bucketedTemplates ->
     exists instanceTypes,
       oneAMI !! ResolvedAMIID template = Some instanceTypes
       /\ (forall it, it ∈ ResolvedInstanceTypes template ->
                      it ∈ instanceTypes)
       /\ match ResolvedBlockDevices template with
          | DefaultBlockDeviceMappings quantity =>
              @None (list BlockDeviceMapping) = None
              /\ wellSized exactFloat 0
                   (quantity, ResolvedInstanceTypes template)
          | ProviderBlockDeviceMappings mappings =>
              None = Some mappings
              /\ ResolvedInstanceTypes template = instanceTypes
          end)
  /\ (forall amiID instanceTypes it,
        oneAMI !! amiID = Some instanceTypes -> it ∈ instanceTypes ->
        exists template,
          template ∈ bucketedTemplates
          /\ ResolvedAMIID template = amiID
          /\ it ∈ ResolvedInstanceTypes template).
Proof.
  apply (Resolve_keeps_the_instance_types_of_each_AMI exactFloat 0 (ok "")
           oneAMI None bucketedTemplates).
  vm_compute. reflexivity.
Defined.

Lemma Get_maps_instance_types_to_their_newest_image_witness :
  exists amis,
    fetchImagesFromEC2 selectingEnv someSelector = ok amis
    /\ selectedMapping <> ∅
    /\ (forall id data,
          selectedMapping !! id = Some data -> InstanceTypes data <> [])
    /\ (forall it id data,
          selectedMapping !! id = Some data -> it ∈ InstanceTypes data ->
          it ∈ [lean; heavy]
          /\ exists ami, newestCompatible selectingEnv amis it ami
                         /\ EC2.StringValue (ImageId ami) = id)
    /\ (forall it id1 data1 id2 data2,
          selectedMapping !! id1 = Some data1 -> it ∈ InstanceTypes data1 ->
          selectedMapping !! id2 = Some data2 -> it ∈ InstanceTypes data2 ->
          id1 = id2)
    /\ (forall it ami,
          it ∈ [lean; heavy] -> ami ∈ amis ->
          Compatible selectingEnv (Requirements_ it) (ImageRequirements ami)
          = true ->
          exists id data, selectedMapping !! id = Some data
                          /\ it ∈ InstanceTypes data).
Proof.
  apply (Get_maps_instance_types_to_their_newest_image selectingEnv
           someSelector [lean; heavy] selectedMapping).
  - vm_compute. discriminate.
  - vm_compute. reflexivity.
Defined.

End AmiFamilyWitnesses.

(** ** The consolidation reconciler *)

Section ConsolidationMore.
Import GoError Core Consolidation.

(** X24: What [nodeConsolidationOptionReplaceOrDelete] can return: an
    error comes with the result unknown and only with it; an action
    names a node only when it deletes or replaces, and then exactly the
    candidate; it proposes a replacement only when it replaces, and the
    replacement keeps at least one instance type after the price filter;
    it never answers delete-empty, and answers no-action exactly for a
    candidate that is already being deleted. *)
Theorem nodeConsolidationOptionReplaceOrDelete_acts_on_the_candidate_only
  (env : Env) (node : candidateNode) :
  let action := (nodeConsolidationOptionReplaceOrDelete env node).1 in
  let err := (nodeConsolidationOptionReplaceOrDelete env node).2 in
  (is_Some err <-> result action = consolidateResultUnknown)
  /\ result action <> consolidateResultDeleteEmpty
  /\ (result action = consolidateResultNoAction
      <-> candidateNodeIsDeleting env (Name node) = true)
  /\ (if bool_decide (result action = consolidateResultDelete
                      \/ result action = consolidateResultReplace)
      then oldNodes action = [Name node]
      else oldNodes action = [])
  /\ (result action = consolidateResultReplace
      <-> is_Some (replacementNode action))
  /\ (forall replacement,
        replacementNode action = Some replacement ->
        NewNodeOptions replacement <> []).
Proof.
  intros action err. subst action err.
  unfold nodeConsolidationOptionReplaceOrDelete.
  destruct (candidateNodeIsDeleting env (Name node)) eqn:Hdel.
  { cbn. rewrite bool_decide_eq_false_2 by (intros [?|?]; discriminate).
    repeat split; try done; try discriminate; by intros [? ?]. }
  destruct (GetNodePods env) as [deletingNodePods|e].
  2:{ cbn. rewrite bool_decide_eq_false_2 by (intros [?|?]; discriminate).
      repeat split; try done; try discriminate; by intros [? ?]. }
  destruct (NewScheduler env _) as [e|].
  { cbn. rewrite bool_decide_eq_false_2 by (intros [?|?]; discriminate).
    repeat split; try done; try discriminate; by intros [? ?]. }
  destruct (Solve env _) as [[newNodes inflightNodes]|e].
  2:{ cbn. rewrite bool_decide_eq_false_2 by (intros [?|?]; discriminate).
      repeat split; try done; try discriminate; by intros [? ?]. }
  cbv zeta.
  destruct (bool_decide (length newNodes = 0%nat) && _).
  { cbn. rewrite bool_decide_eq_true_2 by (by left).
    repeat split; try done; try discriminate; by intros [? ?]. }
  destruct newNodes as [|newNode [|second rest]].
  1,3: cbn; rewrite bool_decide_eq_false_2 by (intros [?|?]; discriminate);
    repeat split; try done; try discriminate; by intros [? ?].
  destruct (GetOffering env _ _ _) as [offering|].
  2:{ cbn. rewrite bool_decide_eq_false_2 by (intros [?|?]; discriminate).
      repeat split; try done; try discriminate; by intros [? ?]. }
  case_bool_decide as Hopts.
  { cbn. rewrite bool_decide_eq_false_2 by (intros [?|?]; discriminate).
    repeat split; try done; try discriminate; by intros [? ?]. }
  destruct (bool_decide (capacityType node = CapacityTypeSpot) && _).
  { cbn. rewrite bool_decide_eq_false_2 by (intros [?|?]; discriminate).
    repeat split; try done; try discriminate; by intros [? ?]. }
  cbn. rewrite bool_decide_eq_true_2 by (by right).
  repeat split; try done; try discriminate; try (by intros [? ?]).
  intros replacement [= <-]. cbn. intros Hnil. apply Hopts.
  by rewrite Hnil.
Qed.

End ConsolidationMore.

Section ClusterConsolidationProps.
Import GoError Core Consolidation ClusterConsolidation.

Lemma podsPreventEviction_None env pods :
  podsPreventEviction env pods = None <->
  forall p, p ∈ pods -> ~ protects env p.
Proof.
  unfold protects. induction pods as [|p pods IH]; simpl.
  - split; [|done]. intros _ p Hp. by apply elem_of_nil in Hp.
  - destruct (IsTerminating env p || IsTerminal env p || IsOwnedByNode env p)
      eqn:Hout.
    { rewrite IH. split.
      - intros H q Hq. apply elem_of_cons in Hq as [->|Hq]; [|by apply H].
        intros [Hcontra _]. congruence.
      - intros H q Hq. apply H. by apply list_elem_of_further. }
    destruct (HasDoNotEvict env p) eqn:Hdne.
    { split; [discriminate|]. intros H. exfalso.
      apply (H p); [apply list_elem_of_here|]. by split; [|left]. }
    destruct (IsNotOwned env p) eqn:Hno.
    { split; [discriminate|]. intros H. exfalso.
      apply (H p); [apply list_elem_of_here|]. by split; [|right]. }
    rewrite IH. split.
    + intros H q Hq. apply elem_of_cons in Hq as [->|Hq]; [|by apply H].
      intros [_ [Hc|Hc]]; congruence.
    + intros H q Hq. apply H. by apply list_elem_of_further.
Qed.

Lemma replaceOrDelete_names_the_candidate (env : Consolidation.Env)
  (node : candidateNode) action :
  nodeConsolidationOptionReplaceOrDelete env node = (action, None) ->
  result action = consolidateResultDelete
  \/ result action = consolidateResultReplace ->
  oldNodes action = [Name node].
Proof.
  unfold nodeConsolidationOptionReplaceOrDelete.
  destruct (candidateNodeIsDeleting env (Name node)).
  { intros [= <-] [?|?]; discriminate. }
  destruct (GetNodePods env) as [deletingNodePods|e]; [|discriminate].
  destruct (NewScheduler env _) as [e|]; [discriminate|].
  destruct (Solve env _) as [[newNodes inflightNodes]|e]; [|discriminate].
  cbv zeta.
  destruct (bool_decide (length newNodes = 0%nat) && _).
  { by intros [= <-] _. }
  destruct newNodes as [|newNode [|second rest]];
    try (intros [= <-] [?|?]; discriminate).
  destruct (GetOffering env _ _ _) as [offering|]; [|discriminate].
  case_bool_decide as Hopts; [intros [= <-] [?|?]; discriminate|].
  destruct (bool_decide (capacityType node = CapacityTypeSpot) && _);
    [intros [= <-] [?|?]; discriminate|].
  by intros [= <-] _.
Qed.

Lemma firstConsolidation_Some env pdbs candidates action :
  firstConsolidation env pdbs candidates = Some action ->
  exists node,
    node ∈ candidates
    /\ canBeTerminated env node pdbs = None
    /\ nodeConsolidationOptionReplaceOrDelete (decision env) node
       = (action, None)
    /\ (result action = consolidateResultDelete
        \/ result action = consolidateResultReplace).
Proof.
  induction candidates as [|node rest IH]; simpl; [discriminate|].
  assert (firstConsolidation env pdbs rest = Some action ->
          exists node0,
            node0 ∈ node :: rest
            /\ canBeTerminated env node0 pdbs = None
            /\ nodeConsolidationOptionReplaceOrDelete (decision env) node0
               = (action, None)
            /\ (result action = consolidateResultDelete
                \/ result action = consolidateResultReplace)) as Hrest.
  { intros H. destruct (IH H) as (n & Hn & Hrest). exists n.
    split; [by apply list_elem_of_further|done]. }
  destruct (canBeTerminated env node pdbs) eqn:Hcan; [done|].
  destruct (nodeConsolidationOptionReplaceOrDelete (decision env) node)
    as [act [e|]] eqn:Hact; [done|].
  destruct (bool_decide (result act = consolidateResultDelete)
            || bool_decide (result act = consolidateResultReplace)) eqn:Hres;
    [|done].
  intros [= <-]. exists node. split; [apply list_elem_of_here|].
  split; [done|]. split; [done|].
  apply orb_true_iff in Hres as [H|H]; apply bool_decide_eq_true in H; auto.
Qed.

(** X25: A pass of the reconciler performs at most one action, and
    reports the cluster consolidated exactly when it performs one.  When
    some candidate has no pods, the action deletes all the candidates
    without pods, and only them.  When every candidate has pods, the
    action deletes or replaces one candidate, which is not being
    deleted, whose pods the disruption budgets allow to evict, and none
    of whose pods protects it: no pod that is marked do-not-evict or has
    no controller, unless the pod is terminating, terminal or owned by
    the node. *)
Theorem ProcessCluster_consolidates_one_unprotected_node (env : Env) :
  let '(processResult, err, performed) := ProcessCluster env in
  (performed = [] \/ exists action, performed = [action])
  /\ (processResult = ProcessResultConsolidated <-> performed <> [])
  /\ (is_Some err <-> processResult = ProcessResultFailed)
  /\ forall action candidates,
       performed = [action] ->
       candidateNodes env = ok candidates ->
       ((exists n, n ∈ candidates /\ pods n = []) ->
        result action = consolidateResultDeleteEmpty
        /\ oldNodes action
           = List.map Name
               (List.filter (fun n => bool_decide (length (pods n) = 0%nat))
                            candidates)
        /\ oldNodes action <> [])
       /\ ((forall n, n ∈ candidates -> pods n <> []) ->
           exists node pdbs,
             node ∈ candidates
             /\ NewPDBLimits env = ok pdbs
             /\ oldNodes action = [Name node]
             /\ (result action = consolidateResultDelete
                 \/ result action = consolidateResultReplace)
             /\ beingDeleted env node = false
             /\ CanEvictPods env pdbs (pods node) = true
             /\ forall p, p ∈ pods node -> ~ protects env p).
Proof.
  unfold ProcessCluster.
  destruct (candidateNodes env) as [candidates|e].
  2:{ split; [by left|]. split; [by split|]. split; [by split; eauto|].
      intros ? ? [=]. }
  case_bool_decide as Hlen.
  { split; [by left|]. split; [by split|].
    split; [split; [by intros [? ?]|discriminate]|]. intros ? ? [=]. }
  assert (candidates <> []) as Hne.
  { intros ->. by apply Hlen. }
  cbv zeta.
  set (emptyNodes := List.filter _ candidates).
  assert ((exists n, n ∈ candidates /\ pods n = [])
          <-> (0 < length emptyNodes)%nat) as Hempty.
  { split.
    - intros (n & Hn & Hp).
      assert (n ∈ emptyNodes) as Hin.
      { apply list_elem_of_In, filter_In. split; [by apply list_elem_of_In|].
        apply bool_decide_eq_true. by rewrite Hp. }
      destruct emptyNodes; [by apply elem_of_nil in Hin|simpl; lia].
    - intros Hpos. destruct emptyNodes as [|n rest] eqn:He;
        [simpl in Hpos; lia|].
      assert (n ∈ emptyNodes) as Hin by (rewrite He; apply list_elem_of_here).
      apply list_elem_of_In, filter_In in Hin as [Hin Hp].
      apply bool_decide_eq_true, length_zero_iff_nil in Hp.
      exists n. split; [by apply list_elem_of_In|done]. }
  case_bool_decide as Hpos.
  { split; [right; by eexists|]. split; [by split|].
    split; [split; [by intros [? ?]|discriminate]|].
    intros action cs [= <-] [= <-]. split.
    - intros _. split; [done|]. split; [done|]. cbn.
      destruct emptyNodes; [simpl in Hpos; lia|done].
    - intros Hall. exfalso. apply Hempty in Hpos as (n & Hn & Hp).
      by apply (Hall n). }
  destruct (NewPDBLimits env) as [pdbs|e].
  2:{ split; [by left|]. split; [by split|]. split; [by split; eauto|].
      intros ? ? [=]. }
  destruct (firstConsolidation env pdbs (sortByDisruptionCost env candidates))
    as [action|] eqn:Hfirst.
  2:{ split; [by left|]. split; [by split|].
      split; [split; [by intros [? ?]|discriminate]|]. intros ? ? [=]. }
  split; [right; by eexists|]. split; [by split|].
  split; [split; [by intros [? ?]|discriminate]|].
  intros act cs [= <-] [= <-]. split.
  { intros H. exfalso. by apply Hpos, Hempty. }
  intros _.
  destruct (firstConsolidation_Some _ _ _ _ Hfirst)
    as (node & Hnode & Hcan & Hact & Hres).
  exists node, pdbs. split.
  { unfold sortByDisruptionCost in Hnode.
    by rewrite merge_sort_Permutation in Hnode. }
  split; [done|].
  split; [by apply (replaceOrDelete_names_the_candidate _ _ _ Hact)|].
  split; [done|].
  unfold canBeTerminated in Hcan.
  destruct (beingDeleted env node); [discriminate|].
  destruct (CanEvictPods env pdbs (pods node)); [|discriminate].
  split; [done|]. split; [done|].
  by apply podsPreventEviction_None.
Qed.

End ClusterConsolidationProps.

Section ReconcileProps.
Import GoError Core Consolidation ClusterConsolidation.

Lemma ProcessCluster_performed env :
  (ProcessCluster env).2 = []
  \/ (exists action, (ProcessCluster env).2 = [action])
     /\ (ProcessCluster env).1.1 = ProcessResultConsolidated
     /\ (ProcessCluster env).1.2 = None.
Proof.
  unfold ProcessCluster.
  destruct (candidateNodes env) as [candidates|e]; [|by left].
  case_bool_decide; [by left|]. cbv zeta.
  case_bool_decide; [right; by eauto|].
  destruct (NewPDBLimits env) as [pdbs|e]; [|by left].
  destruct (firstConsolidation env pdbs _); [right; by eauto|by left].
Qed.

(** X26: The stabilization window is either zero or five minutes.  It is
    zero exactly when all five listings succeed, no pending pod is
    provisionable, every deployment and stateful set has the replicas it
    wants (one when unspecified) ready and updated, and every replica
    set and replication controller has them ready.  A listing that fails
    makes the window five minutes. *)
Theorem stabilizationWindow_is_zero_only_when_all_is_ready
  (s : Surroundings) :
  (stabilizationWindow s = 0 \/ stabilizationWindow s = 5 * Minute)
  /\ (stabilizationWindow s = 0 <->
      exists podList depList rsList rcList ssList,
        listPendingPods s = ok podList
        /\ listDeployments s = ok depList
        /\ listReplicaSets s = ok rsList
        /\ listReplicationControllers s = ok rcList
        /\ listStatefulSets s = ok ssList
        /\ Forall (fun p => IsProvisionable s p = false) podList
        /\ Forall rolledOut depList
        /\ Forall allReady rsList
        /\ Forall allReady rcList
        /\ Forall rolledOut ssList).
Proof.
  assert (forall l, forallb (fun ds => negb ((ReadyReplicas ds <? desired ds)
                                             || (UpdatedReplicas ds <? desired ds))) l
                    = true <-> Forall rolledOut l) as Hrolled.
  { intros l. rewrite forallb_forall, Forall_forall.
    unfold rolledOut.
    split; intros H w Hw.
    - specialize (H w (proj1 (list_elem_of_In _ _) Hw)).
      apply negb_true_iff, orb_false_iff in H as [H1 H2].
      apply Z.ltb_ge in H1, H2. done.
    - apply list_elem_of_In in Hw. destruct (H w Hw) as [H1 H2].
      apply negb_true_iff, orb_false_iff. by rewrite !Z.ltb_ge. }
  assert (forall l, forallb (fun rs => negb (ReadyReplicas rs <? desired rs)) l
                    = true <-> Forall allReady l) as Hready.
  { intros l. rewrite forallb_forall, Forall_forall. unfold allReady.
    split; intros H w Hw.
    - specialize (H w (proj1 (list_elem_of_In _ _) Hw)).
      by apply negb_true_iff, Z.ltb_ge in H.
    - apply list_elem_of_In in Hw. apply negb_true_iff, Z.ltb_ge. by apply H. }
  assert (forall l, existsb (IsProvisionable s) l = false
                    <-> Forall (fun p => IsProvisionable s p = false) l)
    as Hpending.
  { intros l. induction l as [|p l IH]; simpl.
    - split; [constructor|done].
    - rewrite orb_false_iff, IH. split.
      + intros [? ?]. by constructor.
      + by inversion 1. }
  unfold stabilizationWindow.
  destruct (negb (hasPendingPods s) && deploymentsReady s
            && replicaSetsReady s && replicationControllersReady s
            && statefulSetsReady s) eqn:Hall.
  - split; [by left|]. split; [intros _|done].
    repeat (apply andb_true_iff in Hall as [Hall ?]).
    apply negb_true_iff in Hall.
    unfold hasPendingPods, deploymentsReady, replicaSetsReady,
      replicationControllersReady, statefulSetsReady in *.
    destruct (listPendingPods s) as [podList|]; [|done].
    destruct (listDeployments s) as [depList|]; [|done].
    destruct (listReplicaSets s) as [rsList|]; [|done].
    destruct (listReplicationControllers s) as [rcList|]; [|done].
    destruct (listStatefulSets s) as [ssList|]; [|done].
    exists podList, depList, rsList, rcList, ssList.
    rewrite <- Hpending, <- !Hrolled, <- !Hready. done.
  - split; [by right|]. split; [unfold Minute, Second; lia|].
    intros (podList & depList & rsList & rcList & ssList & Hp & Hd & Hrs
            & Hrc & Hss & Hpods & Hdeps & Hrss & Hrcs & Hsss).
    exfalso.
    unfold hasPendingPods, deploymentsReady, replicaSetsReady,
      replicationControllersReady, statefulSetsReady in Hall.
    rewrite Hp, Hd, Hrs, Hrc, Hss in Hall.
    apply Hpending in Hpods. apply Hrolled in Hdeps, Hsss.
    apply Hready in Hrss, Hrcs.
    rewrite Hpods, Hdeps, Hsss, Hrss, Hrcs in Hall. done.
Qed.

(** X27: [Reconcile] never returns an error and always asks to be called
    again after the polling period.  It performs at most one action, and
    none unless the cluster state differs from the remembered one and
    the last node deletion and creation are both older than the
    stabilization window.  It remembers a new state, the one captured
    before the pass, only after a pass that found nothing to do; when
    the cluster is still in the remembered state the next call does
    nothing. *)
Theorem Reconcile_rests_until_the_cluster_changes
  (s : Surroundings) (env : Env) (lastConsolidationState : Z) :
  let '(requeueAfter, err, remembered, performed) :=
    Reconcile s env lastConsolidationState in
  requeueAfter = pollingPeriod
  /\ err = None
  /\ (performed = [] \/ exists action, performed = [action])
  /\ (performed <> [] ->
      lastConsolidationState <> stateAtEntry s
      /\ LastNodeDeletionTime s < Now s - stabilizationWindow s
      /\ LastNodeCreationTime s < Now s - stabilizationWindow s
      /\ remembered = lastConsolidationState)
  /\ (remembered <> lastConsolidationState ->
      remembered = stateAtCapture s
      /\ ProcessCluster env = (ProcessResultNothingToDo, None, []))
  /\ (forall s' env',
        stateAtEntry s' = remembered ->
        Reconcile s' env' remembered = (pollingPeriod, None, remembered, [])).
Proof.
  assert (forall s' env' z,
            stateAtEntry s' = z ->
            Reconcile s' env' z = (pollingPeriod, None, z, [])) as Hrest.
  { intros s' env' z Hz. unfold Reconcile.
    by rewrite bool_decide_eq_true_2. }
  unfold Reconcile.
  case_bool_decide as Hsame.
  { split; [done|]. split; [done|]. split; [by left|].
    split; [done|]. split; [done|]. intros s' env' Hz. by apply Hrest. }
  cbv zeta.
  destruct (bool_decide (LastNodeDeletionTime s < _)
            && bool_decide (LastNodeCreationTime s < _)) eqn:Hstable.
  2:{ split; [done|]. split; [done|]. split; [by left|].
      split; [done|]. split; [done|]. intros s' env' Hz. by apply Hrest. }
  apply andb_true_iff in Hstable as [Hdel Hcre].
  apply bool_decide_eq_true in Hdel, Hcre.
  pose proof (ProcessCluster_performed env) as Hperf.
  destruct (ProcessCluster env) as [[processResult [e|]] performed] eqn:Hpc;
    simpl in Hperf.
  { split; [done|]. split; [done|].
    split; [destruct Hperf as [->|[? _]]; by eauto|].
    split; [done|]. split; [done|]. intros s' env' Hz. by apply Hrest. }
  case_bool_decide as Hnothing.
  - subst processResult.
    destruct Hperf as [->|(_ & Hcontra & _)]; [|discriminate].
    split; [done|]. split; [done|]. split; [by left|].
    split; [done|]. split; [done|]. intros s' env' Hz. by apply Hrest.
  - split; [done|]. split; [done|].
    split; [destruct Hperf as [->|[? _]]; by eauto|].
    split; [done|]. split; [done|]. intros s' env' Hz. by apply Hrest.
Qed.

End ReconcileProps.
